(** * SOS App LLM service: guidance request pipeline

    A shallow embedding of the Python sources of the LLM service
    (anonymizer, response validator, fallback knowledge base, provider
    orchestrator, cache-key derivation, structured parsers and the two
    route handlers), followed by the properties established about them.

    Text model.  A Python [str] is a [list ascii]; a character is read as
    the code point of the same number (U+0000 to U+00FF).  The character
    tables below ([isspace], word characters, case mapping) follow
    Python's Unicode tables on that range. *)

From Stdlib Require Import ZArith NArith Ascii String List Bool Lia.
From stdpp Require Import gmap strings list sorting.

Import ListNotations.
Local Open Scope bool_scope.
Local Open Scope list_scope.

Abbreviation str := (list ascii).

(** Literals: [$"abc"] is the text [abc]. *)
Notation "$ s" := (list_ascii_of_string s%string) (at level 1, format "$ s").

(* ================================================================== *)
(** ** Python string primitives *)
(* ================================================================== *)

Module PyStr.

Definition code (c : ascii) : N := N_of_ascii c.

Definition in_range (lo hi : N) (c : ascii) : bool :=
  ((lo <=? code c) && (code c <=? hi))%N.

Definition is_digit (c : ascii) : bool := in_range 48 57 c.
Definition is_ascii_upper (c : ascii) : bool := in_range 65 90 c.
Definition is_ascii_lower (c : ascii) : bool := in_range 97 122 c.
Definition is_ascii_alpha (c : ascii) : bool := is_ascii_upper c || is_ascii_lower c.

(** [str.isspace] on one character, which is also the class [\s] of [re]
    for [str] patterns. *)
Definition is_space (c : ascii) : bool :=
  in_range 9 13 c || in_range 28 32 c || (code c =? 133)%N || (code c =? 160)%N.

(** The class [\w] of [re] for [str] patterns: alphanumeric or underscore. *)
Definition is_word (c : ascii) : bool :=
  is_digit c || is_ascii_alpha c || (code c =? 95)%N
  || (code c =? 170)%N || (code c =? 178)%N || (code c =? 179)%N
  || (code c =? 181)%N || (code c =? 185)%N || (code c =? 186)%N
  || in_range 188 190 c || in_range 192 214 c || in_range 216 246 c
  || in_range 248 255 c.

(** [str.isdigit] on one character. *)
Definition isdigit_char (c : ascii) : bool :=
  is_digit c || (code c =? 178)%N || (code c =? 179)%N || (code c =? 185)%N.

Definition shift_code (d : Z) (c : ascii) : ascii :=
  ascii_of_N (Z.to_N (Z.of_N (code c) + d)).

(** [str.lower], one character. *)
Definition lower_char (c : ascii) : ascii :=
  if is_ascii_upper c || (in_range 192 222 c && negb (code c =? 215)%N)
  then shift_code 32 c else c.

Definition lower (s : str) : str := map lower_char s.

(** [str.upper].  The sharp s (U+00DF) becomes [SS]; the micro sign and
    y-diaeresis have their upper case outside the modelled range and are
    left as they are. *)
Definition upper_char (c : ascii) : str :=
  if (code c =? 223)%N then $"SS"
  else if is_ascii_lower c || (in_range 224 254 c && negb (code c =? 247)%N)
  then [shift_code (-32) c] else [c].

Definition upper (s : str) : str := concat (map upper_char s).

Definition ascii_eqb (a b : ascii) : bool := Ascii.eqb a b.

(** [s.startswith(p)] *)
Fixpoint startswith (p s : str) : bool :=
  match p, s with
  | [], _ => true
  | _ :: _, [] => false
  | a :: p', b :: s' => ascii_eqb a b && startswith p' s'
  end.

(** [needle in hay] *)
Fixpoint contains (needle hay : str) : bool :=
  startswith needle hay ||
  match hay with
  | [] => false
  | _ :: t => contains needle t
  end.

Fixpoint lstrip_by (p : ascii -> bool) (s : str) : str :=
  match s with
  | c :: t => if p c then lstrip_by p t else s
  | [] => []
  end.

Definition rstrip_by (p : ascii -> bool) (s : str) : str :=
  rev (lstrip_by p (rev s)).

(** [s.strip()] *)
Definition strip (s : str) : str := rstrip_by is_space (lstrip_by is_space s).

Definition mem_char (c : ascii) (set : str) : bool := existsb (ascii_eqb c) set.

(** [s.split(sep)] for a one-character separator. *)
Fixpoint split_on (sep : ascii) (s : str) : list str :=
  match s with
  | [] => [[]]
  | c :: t =>
      if ascii_eqb c sep then [] :: split_on sep t
      else match split_on sep t with
           | w :: ws => (c :: w) :: ws
           | [] => [[c]]
           end
  end.

(** [s.split(sep, 1)[1]]: the text after the first separator, when there
    is one. *)
Fixpoint after_first (sep : ascii) (s : str) : option str :=
  match s with
  | [] => None
  | c :: t => if ascii_eqb c sep then Some t else after_first sep t
  end.

(** [sep.join(parts)] *)
Fixpoint join (sep : str) (parts : list str) : str :=
  match parts with
  | [] => []
  | [p] => p
  | p :: ps => p ++ sep ++ join sep ps
  end.

(** Truthiness of a [str] and of an [Optional[str]]. *)
Definition truthy (s : str) : bool := negb (Nat.eqb (length s) 0).
Definition truthy_opt (o : option str) : bool :=
  match o with Some s => truthy s | None => false end.

End PyStr.

(* ================================================================== *)
(** ** The fragment of [re] used by the service *)
(* ================================================================== *)

Module Re.
Import PyStr.

(** A pattern.  [Cls p] is one character in a class, [Bnd] is [\b];
    alternation and the star are ordered and greedy as in [re]. *)
Inductive regex : Type :=
| Eps
| Cls (p : ascii -> bool)
| Cat (a b : regex)
| Alt (a b : regex)
| Star (a : regex)
| Bnd.

(** A position in the subject: whether the character before it is a word
    character (all a [\b] ever looks at behind itself), and the text that
    is left. *)
Definition cursor : Type := bool * str.

Definition head_word (s : str) : bool :=
  match s with c :: _ => is_word c | [] => false end.

Definition at_boundary (c : cursor) : bool := xorb (fst c) (head_word (snd c)).

Definition kont : Type := cursor -> option cursor.

(** The greedy loop of a star: one more round of the body when it makes
    progress, else (or when what follows fails) leave the loop here. *)
Fixpoint star_loop (body : cursor -> kont -> option cursor)
  (fuel : nat) (c : cursor) (k : kont) : option cursor :=
  match fuel with
  | O => k c
  | S f =>
      match body c (fun c' =>
                      if (length (snd c') <? length (snd c))%nat
                      then star_loop body f c' k else None) with
      | Some r => Some r
      | None => k c
      end
  end.

(** Backtracking matcher in continuation-passing style: [run r c k] is the
    first way, in the priority order of [re], of matching [r] at [c] such
    that [k] accepts the position reached. *)
Fixpoint run (r : regex) (c : cursor) (k : kont) : option cursor :=
  match r with
  | Eps => k c
  | Cls p =>
      match snd c with
      | a :: t => if p a then k (is_word a, t) else None
      | [] => None
      end
  | Cat a b => run a c (fun c' => run b c' k)
  | Alt a b =>
      match run a c k with
      | Some x => Some x
      | None => run b c k
      end
  | Star a => star_loop (run a) (length (snd c)) c k
  | Bnd => if at_boundary c then k c else None
  end.

(** [pattern.match] at a position: the position after the match. *)
Definition match_at (r : regex) (c : cursor) : option cursor := run r c Some.

(** [pattern.search] from a position on. *)
Fixpoint search_from (r : regex) (pw : bool) (s : str) : bool :=
  match match_at r (pw, s) with
  | Some _ => true
  | None =>
      match s with
      | [] => false
      | c :: t => search_from r (is_word c) t
      end
  end.

Definition search (r : regex) (s : str) : bool := search_from r false s.

(** [pattern.sub(repl, s)] for a literal replacement: the leftmost
    matches, not overlapping, are replaced.  A match of the empty text is
    replaced too and the scan moves one character on. *)
Fixpoint sub_aux (r : regex) (repl : str) (fuel : nat) (pw : bool) (s : str) : str :=
  match fuel with
  | O => s
  | S f =>
      match match_at r (pw, s) with
      | Some (pw', rest) =>
          if (length rest <? length s)%nat
          then repl ++ sub_aux r repl f pw' rest
          else match s with
               | [] => repl
               | c :: t => repl ++ c :: sub_aux r repl f (is_word c) t
               end
      | None =>
          match s with
          | [] => []
          | c :: t => c :: sub_aux r repl f (is_word c) t
          end
      end
  end.

Definition sub_from (r : regex) (repl : str) (pw : bool) (s : str) : str :=
  sub_aux r repl (S (length s)) pw s.

Definition sub (r : regex) (repl : str) (s : str) : str := sub_from r repl false s.

(** [len(pattern.findall(s))]: the number of matches a scan finds. *)
Fixpoint count_aux (r : regex) (fuel : nat) (pw : bool) (s : str) : nat :=
  match fuel with
  | O => 0
  | S f =>
      match match_at r (pw, s) with
      | Some (pw', rest) =>
          if (length rest <? length s)%nat
          then S (count_aux r f pw' rest)
          else match s with
               | [] => 1
               | c :: t => S (count_aux r f (is_word c) t)
               end
      | None =>
          match s with
          | [] => 0
          | c :: t => count_aux r f (is_word c) t
          end
      end
  end.

Definition findall_count (r : regex) (s : str) : nat :=
  count_aux r (S (length s)) false s.

(** *** Pattern syntax *)

Notation "a ⋅ b" := (Cat a b) (at level 41, right associativity).

Fixpoint alts (rs : list regex) : regex :=
  match rs with
  | [] => Cls (fun _ => false)
  | [r] => r
  | r :: rs' => Alt r (alts rs')
  end.

(** [r?], [r+], [r{n}] and [r{n,}], all greedy. *)
Definition opt (r : regex) : regex := Alt r Eps.
Definition plus (r : regex) : regex := r ⋅ Star r.

Fixpoint rep (n : nat) (r : regex) : regex :=
  match n with
  | O => Eps
  | 1 => r
  | S m => r ⋅ rep m r
  end.

Definition at_least (n : nat) (r : regex) : regex := rep n r ⋅ Star r.

(** A literal, case-sensitive and under [re.IGNORECASE]. *)
Fixpoint lit (s : str) : regex :=
  match s with
  | [] => Eps
  | [c] => Cls (ascii_eqb c)
  | c :: t => Cls (ascii_eqb c) ⋅ lit t
  end.

Definition eqb_nocase (c x : ascii) : bool := ascii_eqb (lower_char c) (lower_char x).

Fixpoint lit_i (s : str) : regex :=
  match s with
  | [] => Eps
  | [c] => Cls (eqb_nocase c)
  | c :: t => Cls (eqb_nocase c) ⋅ lit_i t
  end.

Definition digit : regex := Cls is_digit.
Definition space : regex := Cls is_space.
Definition one_of (set : str) : regex := Cls (fun c => mem_char c set).
Definition not_space : regex := Cls (fun c => negb (is_space c)).
(** [[A-Z]] and [[a-z]] under [re.IGNORECASE] *)
Definition letter_i : regex := Cls is_ascii_alpha.

End Re.

(* ================================================================== *)
(** ** app/utils/anonymizer.py: text *)
(* ================================================================== *)

Module Anonymizer.
Import PyStr Re.

(** [\b\d{3}[-.]?\d{3}[-.]?\d{4}\b] *)
Definition PHONE_BODY : regex :=
  rep 3 digit ⋅ opt (one_of $"-.") ⋅ rep 3 digit ⋅ opt (one_of $"-.") ⋅ rep 4 digit.
Definition PHONE_PATTERN : regex := Bnd ⋅ PHONE_BODY ⋅ Bnd.

(** [\b[A-Za-z0-9._%+-]+@[A-Za-z0-9.-]+\.[A-Z|a-z]{2,}\b] *)
Definition email_local (c : ascii) : bool :=
  is_ascii_alpha c || is_digit c || mem_char c $"._%+-".
Definition email_domain (c : ascii) : bool :=
  is_ascii_alpha c || is_digit c || mem_char c $".-".
Definition email_tld (c : ascii) : bool := is_ascii_alpha c || mem_char c $"|".
Definition EMAIL_BODY : regex :=
  plus (Cls email_local) ⋅ lit $"@" ⋅ plus (Cls email_domain) ⋅ lit $"."
  ⋅ at_least 2 (Cls email_tld).
Definition EMAIL_PATTERN : regex := Bnd ⋅ EMAIL_BODY ⋅ Bnd.

(** [\b\d{3}-\d{2}-\d{4}\b] *)
Definition SSN_BODY : regex :=
  rep 3 digit ⋅ lit $"-" ⋅ rep 2 digit ⋅ lit $"-" ⋅ rep 4 digit.
Definition SSN_PATTERN : regex := Bnd ⋅ SSN_BODY ⋅ Bnd.

(** [\b\d{4}[\s-]?\d{4}[\s-]?\d{4}[\s-]?\d{4}\b] *)
Definition card_sep : regex := opt (Cls (fun c => is_space c || mem_char c $"-")).
Definition CREDIT_CARD_BODY : regex :=
  rep 4 digit ⋅ card_sep ⋅ rep 4 digit ⋅ card_sep ⋅ rep 4 digit ⋅ card_sep
  ⋅ rep 4 digit.
Definition CREDIT_CARD_PATTERN : regex := Bnd ⋅ CREDIT_CARD_BODY ⋅ Bnd.

(** [https?://[^\s]+] *)
Definition URL_PATTERN : regex :=
  lit $"http" ⋅ opt (lit $"s") ⋅ lit $"://" ⋅ plus not_space.

Definition NAME_TITLES : list str := [$"mr"; $"mrs"; $"ms"; $"dr"; $"prof"; $"miss"].

(** [[A-Z][a-z]+(?:\s+[A-Z][a-z]+)*] under [re.IGNORECASE] *)
Definition capitalized_words : regex :=
  letter_i ⋅ plus letter_i ⋅ Star (plus space ⋅ letter_i ⋅ plus letter_i).

(** [rf"\b{title}\.?\s+[A-Z][a-z]+(?:\s+[A-Z][a-z]+)*\b"], [re.IGNORECASE] *)
Definition title_body (title : str) : regex :=
  lit_i title ⋅ opt (lit $".") ⋅ plus space ⋅ capitalized_words.
Definition title_pattern (title : str) : regex := Bnd ⋅ title_body title ⋅ Bnd.

(** [f"[{title.upper()}]"] *)
Definition title_token (title : str) : str := $"[" ++ upper title ++ $"]".

(** [\b\d+\s+[A-Z][a-z]+(?:\s+[A-Z][a-z]+)*\s+(suffix|...)\b],
    [re.IGNORECASE], for a list of street suffixes. *)
Definition address_body (suffixes : list str) : regex :=
  plus digit ⋅ plus space ⋅ capitalized_words ⋅ plus space ⋅ alts (map lit_i suffixes).
Definition address_regex (suffixes : list str) : regex :=
  Bnd ⋅ address_body suffixes ⋅ Bnd.

Definition anonymize_suffixes : list str :=
  [$"Street"; $"St"; $"Avenue"; $"Ave"; $"Road"; $"Rd"; $"Boulevard"; $"Blvd";
   $"Lane"; $"Ln"; $"Drive"; $"Dr"].

Definition detect_suffixes : list str :=
  [$"Street"; $"St"; $"Avenue"; $"Ave"; $"Road"; $"Rd"].

(** The [for title in NAME_TITLES] loop of [anonymize_text]. *)
Definition replace_titles (text : str) : str :=
  fold_left (fun t title => sub (title_pattern title) (title_token title) t)
    NAME_TITLES text.

(** The substitutions that follow the phone numbers, in order. *)
Definition after_phone (text : str) : str :=
  let text := sub EMAIL_PATTERN $"[EMAIL]" text in
  let text := sub SSN_PATTERN $"[SSN]" text in
  let text := sub CREDIT_CARD_PATTERN $"[CREDIT_CARD]" text in
  let text := sub URL_PATTERN $"[URL]" text in
  let text := replace_titles text in
  sub (address_regex anonymize_suffixes) $"[ADDRESS]" text.

Definition anonymize_text (text : str) : str :=
  if negb (truthy text) then text
  else after_phone (sub PHONE_PATTERN $"[PHONE]" text).

Record PiiReport : Type := {
  has_pii : bool;
  phone_numbers : nat;
  emails : nat;
  ssn : nat;
  credit_cards : nat;
  urls : nat;
  addresses : nat
}.

Definition detect_pii (text : str) : PiiReport :=
  if negb (truthy text) then
    {| has_pii := false; phone_numbers := 0; emails := 0; ssn := 0;
       credit_cards := 0; urls := 0; addresses := 0 |}
  else
    let phones := findall_count PHONE_PATTERN text in
    let mails := findall_count EMAIL_PATTERN text in
    let ssns := findall_count SSN_PATTERN text in
    let cards := findall_count CREDIT_CARD_PATTERN text in
    let links := findall_count URL_PATTERN text in
    let addrs := findall_count (address_regex detect_suffixes) text in
    {| has_pii := existsb (fun v => (0 <? v)%nat) [phones; mails; ssns; cards; links; addrs];
       phone_numbers := phones; emails := mails; ssn := ssns;
       credit_cards := cards; urls := links; addresses := addrs |}.

End Anonymizer.

(* ================================================================== *)
(** ** app/utils/response_validator.py *)
(* ================================================================== *)

Module Validator.
Import PyStr Re.

Record ResponseValidationResult : Type := {
  is_valid : bool;
  errors : list str;
  warnings : list str;
  severity : str   (* info, warning, error *)
}.

(** A pattern kept with its source text, which the messages quote. *)
Record pattern : Type := { source : str; compiled : regex }.

Definition re_search (p : pattern) (text : str) : bool := search (compiled p) text.

Definition HARMFUL_PATTERNS : list pattern := [
  {| source := $"(?i)\b(kill|suicide|self-harm|overdose)\b";
     compiled := Bnd ⋅ alts (map lit_i [$"kill"; $"suicide"; $"self-harm"; $"overdose"]) ⋅ Bnd |};
  {| source := $"(?i)\b(ignore medical advice|don't call|skip)\s+(doctor|hospital|911|emergency)";
     compiled := Bnd ⋅ alts (map lit_i [$"ignore medical advice"; $"don't call"; $"skip"])
                 ⋅ plus space
                 ⋅ alts (map lit_i [$"doctor"; $"hospital"; $"911"; $"emergency"]) |};
  {| source := $"(?i)\bguaranteed?\s+(cure|recovery|success)\b";
     compiled := Bnd ⋅ lit_i $"guarantee" ⋅ opt (lit_i $"d") ⋅ plus space
                 ⋅ alts (map lit_i [$"cure"; $"recovery"; $"success"]) ⋅ Bnd |}
].

Definition REQUIRED_DISCLAIMER_KEYWORDS : list str := [
  $"not a substitute";
  $"professional medical";
  $"emergency services";
  $"911"
].

Definition misinformation_patterns : list pattern := [
  {| source := $"(?i)\balways\s+(safe|works|effective)\b";
     compiled := Bnd ⋅ lit_i $"always" ⋅ plus space
                 ⋅ alts (map lit_i [$"safe"; $"works"; $"effective"]) ⋅ Bnd |};
  {| source := $"(?i)\bnever\s+(dangerous|harmful|risky)\b";
     compiled := Bnd ⋅ lit_i $"never" ⋅ plus space
                 ⋅ alts (map lit_i [$"dangerous"; $"harmful"; $"risky"]) ⋅ Bnd |};
  {| source := $"(?i)\b100%\s+(safe|effective|certain)\b";
     compiled := Bnd ⋅ lit_i $"100%" ⋅ plus space
                 ⋅ alts (map lit_i [$"safe"; $"effective"; $"certain"]) ⋅ Bnd |}
].

(** [(?i)\b(severe|critical|life-threatening|serious)\b] *)
Definition severe_pattern : regex :=
  Bnd ⋅ alts (map lit_i [$"severe"; $"critical"; $"life-threatening"; $"serious"]) ⋅ Bnd.

(** [(?i)\b(call|contact|emergency|911|ambulance)\b] *)
Definition call_to_action_pattern : regex :=
  Bnd ⋅ alts (map lit_i [$"call"; $"contact"; $"emergency"; $"911"; $"ambulance"]) ⋅ Bnd.

Definition DISCLAIMER_WARNING : str :=
  $"Response should include appropriate medical disclaimer".

Definition add_error (e : str) (r : ResponseValidationResult) : ResponseValidationResult :=
  {| is_valid := is_valid r; errors := errors r ++ [e];
     warnings := warnings r; severity := severity r |}.

Definition add_warning (w : str) (r : ResponseValidationResult) : ResponseValidationResult :=
  {| is_valid := is_valid r; errors := errors r;
     warnings := warnings r ++ [w]; severity := severity r |}.

Definition set_is_valid (b : bool) (r : ResponseValidationResult) : ResponseValidationResult :=
  {| is_valid := b; errors := errors r; warnings := warnings r; severity := severity r |}.

Definition set_severity (s : str) (r : ResponseValidationResult) : ResponseValidationResult :=
  {| is_valid := is_valid r; errors := errors r; warnings := warnings r; severity := s |}.

Definition str_eqb (a b : str) : bool := bool_decide (a = b).

(** Body of the loop over [HARMFUL_PATTERNS]. *)
Definition harmful_step (text : str) (r : ResponseValidationResult) (p : pattern)
  : ResponseValidationResult :=
  if re_search p text then
    set_severity $"error"
      (set_is_valid false
         (add_error ($"Potentially harmful content detected: " ++ source p) r))
  else r.

(** [any(keyword.lower() in response_text.lower()
         for keyword in REQUIRED_DISCLAIMER_KEYWORDS[:2])] *)
Definition has_disclaimer (text : str) : bool :=
  existsb (fun keyword => contains (lower keyword) (lower text))
    (firstn 2 REQUIRED_DISCLAIMER_KEYWORDS).

Definition disclaimer_step (require_disclaimer : bool) (text : str)
  (r : ResponseValidationResult) : ResponseValidationResult :=
  if require_disclaimer then
    if negb (has_disclaimer text) then
      set_severity (if negb (str_eqb (severity r) $"error") then $"warning" else $"error")
        (add_warning DISCLAIMER_WARNING r)
    else r
  else r.

Definition length_step (text : str) (r : ResponseValidationResult)
  : ResponseValidationResult :=
  if (length text <? 50)%nat then add_warning $"Response may be too brief" r
  else if (5000 <? length text)%nat then add_warning $"Response may be too verbose" r
  else r.

(** Body of the loop over [misinformation_patterns]. *)
Definition misinformation_step (text : str) (r : ResponseValidationResult) (p : pattern)
  : ResponseValidationResult :=
  if re_search p text then
    add_warning ($"Overly definitive language detected: " ++ source p) r
  else r.

Definition call_to_action_step (response_type text : str)
  (r : ResponseValidationResult) : ResponseValidationResult :=
  if str_eqb response_type $"assessment" then
    if search severe_pattern text then
      if negb (search call_to_action_pattern text) then
        add_warning
          $"Severe emergency detected but no call to action for emergency services" r
      else r
    else r
  else r.

Definition validate_llm_response (response_text response_type : str)
  (require_disclaimer : bool) : ResponseValidationResult :=
  let result := {| is_valid := true; errors := []; warnings := []; severity := $"info" |} in
  if negb (truthy response_text) || Nat.eqb (length (strip response_text)) 0 then
    set_severity $"error" (add_error $"Response is empty" (set_is_valid false result))
  else
    let result := fold_left (harmful_step response_text) HARMFUL_PATTERNS result in
    let result := disclaimer_step require_disclaimer response_text result in
    let result := length_step response_text result in
    let result := fold_left (misinformation_step response_text) misinformation_patterns result in
    call_to_action_step response_type response_text result.

(** [<[^>]+>], [\s+] and the two residual-PII patterns of
    [sanitize_response]. *)
Definition TAG_PATTERN : regex :=
  lit $"<" ⋅ plus (Cls (fun c => negb (ascii_eqb c ">"%char))) ⋅ lit $">".
Definition SPACES_PATTERN : regex := plus space.
Definition RESIDUAL_SSN : regex :=
  Bnd ⋅ (rep 3 digit ⋅ lit $"-" ⋅ rep 2 digit ⋅ lit $"-" ⋅ rep 4 digit) ⋅ Bnd.
Definition RESIDUAL_PHONE : regex :=
  Bnd ⋅ (rep 3 digit ⋅ opt (one_of $"-.") ⋅ rep 3 digit ⋅ opt (one_of $"-.") ⋅ rep 4 digit)
  ⋅ Bnd.

Definition sanitize_response (response_text : str) : str :=
  let response_text := sub TAG_PATTERN [] response_text in
  let response_text := strip (sub SPACES_PATTERN $" " response_text) in
  let response_text := sub RESIDUAL_SSN $"[REDACTED]" response_text in
  sub RESIDUAL_PHONE $"[REDACTED]" response_text.

Definition disclaimer_keywords : list str :=
  [$"disclaimer"; $"not a substitute"; $"professional medical"].

Definition DISCLAIMER_HEADING : str :=
  ["010"%char; "010"%char] ++ $"**DISCLAIMER**: ".

Definition ensure_disclaimer (response_text disclaimer : str) : str :=
  let has_disclaimer :=
    existsb (fun keyword => contains (lower keyword) (lower response_text))
      disclaimer_keywords in
  if negb has_disclaimer then response_text ++ DISCLAIMER_HEADING ++ disclaimer
  else response_text.

End Validator.

(* ================================================================== *)
(** ** app/models/emergency_context.py *)
(* ================================================================== *)

Module Models.
Import PyStr.

Inductive EmergencyType : Type :=
| MEDICAL | ACCIDENT | FIRE | VIOLENCE | NATURAL_DISASTER | OTHER.

#[global] Instance EmergencyType_eq_dec : EqDecision EmergencyType.
Proof. solve_decision. Defined.

(** [EmergencyType.value] *)
Definition type_value (t : EmergencyType) : str :=
  match t with
  | MEDICAL => $"medical"
  | ACCIDENT => $"accident"
  | FIRE => $"fire"
  | VIOLENCE => $"violence"
  | NATURAL_DISASTER => $"natural_disaster"
  | OTHER => $"other"
  end.

Inductive SeverityLevel : Type := CRITICAL | HIGH | MEDIUM | LOW.

#[global] Instance SeverityLevel_eq_dec : EqDecision SeverityLevel.
Proof. solve_decision. Defined.

Definition severity_value (s : SeverityLevel) : str :=
  match s with
  | CRITICAL => $"critical"
  | HIGH => $"high"
  | MEDIUM => $"medium"
  | LOW => $"low"
  end.

Section Coordinates.
(** Latitude and longitude are floats that the service only carries. *)
Variable coord : Type.

Record Location : Type := {
  latitude : option coord;
  longitude : option coord;
  address : option str;
  city : option str;
  country : option str
}.

End Coordinates.

Arguments latitude {coord}.
Arguments longitude {coord}.
Arguments address {coord}.
Arguments city {coord}.
Arguments country {coord}.

Record MedicalProfile : Type := {
  blood_type : option str;
  allergies : list str;
  medical_conditions : list str;
  medications : list str;
  age_range : option str
}.

(** [int(s)] in base 10: white space around, an optional sign, then
    digits, with single underscores allowed between digits.  The white
    space of [int] is that of [str.isspace] without the separators U+001C
    to U+001F.  [max_str_digits] is the limit on the number of digits
    ([sys.get_int_max_str_digits()]: 4300 by default, 0 for no limit);
    [None] stands for [ValueError]. *)
Definition int_space (c : ascii) : bool :=
  in_range 9 13 c || (code c =? 32)%N || (code c =? 133)%N || (code c =? 160)%N.

Definition digit_value (c : ascii) : Z := (Z.of_N (code c) - 48)%Z.

Fixpoint int_digits (s : str) (acc : Z) (count : nat) (after_digit : bool)
  : option (Z * nat) :=
  match s with
  | [] => if after_digit then Some (acc, count) else None
  | c :: t =>
      if is_digit c then int_digits t (10 * acc + digit_value c)%Z (S count) true
      else if ascii_eqb c "_"%char
           then (if after_digit then int_digits t acc count false else None)
           else None
  end.

Definition int_of_str (max_str_digits : nat) (s : str) : option Z :=
  let s := rstrip_by int_space (lstrip_by int_space s) in
  let signed :=
    match s with
    | c :: t => if ascii_eqb c "-"%char then (true, t)
                else if ascii_eqb c "+"%char then (false, t)
                else (false, s)
    | [] => (false, [])
    end in
  match int_digits (snd signed) 0 0 false with
  | Some (n, count) =>
      if (0 <? max_str_digits)%nat && (max_str_digits <? count)%nat then None
      else Some (if fst signed then (- n)%Z else n)
  | None => None
  end.

(** [MedicalProfile.validate_age_range], the validator of [age_range]. *)
Definition validate_age_range (max_str_digits : nat) (v : option str) : option str :=
  match v with
  | Some s =>
      if truthy s && negb (existsb (fun char => contains char s) [$"-"; $"+"]) then
        match int_of_str max_str_digits s with
        | Some age =>
            Some (if (age <? 18)%Z then $"0-18"
                  else if (age <? 30)%Z then $"18-30"
                  else if (age <? 50)%Z then $"30-50"
                  else if (age <? 70)%Z then $"50-70"
                  else $"70+")
        | None => Some s
        end
      else Some s
  | None => None
  end.

(** An object reference. *)
Definition ref : Type := positive.

(** [EmergencyContext]: the nested models are objects of their own,
    held by reference. *)
Record EmergencyContext : Type := {
  emergency_id : str;
  emergency_type : EmergencyType;
  description : str;
  location : option ref;
  medical_profile : option ref;
  timestamp : Z;
  additional_info : option str
}.

Record FirstAidStep : Type := {
  step_number : Z;
  instruction : str;
  step_warnings : list str;
  duration : option str
}.

(** The dictionary an assessment is built from ([success] and
    [emergency_id] are added by the caller where the table lacks them). *)
Record Assessment : Type := {
  a_severity : SeverityLevel;
  a_assessment : str;
  a_recommendations : list str;
  a_call_emergency_services : bool
}.

Definition ASSESSMENT_DISCLAIMER : str :=
  $"This is an AI-generated assessment and should not replace professional medical advice. Always call emergency services (911) for life-threatening emergencies.".

Definition FIRST_AID_DISCLAIMER : str :=
  $"This first aid guidance is AI-generated and for informational purposes only. Always prioritize professional medical help for serious injuries or emergencies.".

(** [EmergencyAssessmentResponse]; [processed_at] is the wall clock and is
    left out. *)
Record EmergencyAssessmentResponse : Type := {
  ar_success : bool;
  ar_emergency_id : str;
  ar_severity : SeverityLevel;
  ar_assessment : str;
  ar_recommendations : list str;
  ar_call_emergency_services : bool;
  ar_disclaimer : str
}.

(** [FirstAidResponse], without [processed_at]. *)
Record FirstAidResponse : Type := {
  fr_success : bool;
  fr_emergency_id : str;
  fr_emergency_type : EmergencyType;
  fr_steps : list FirstAidStep;
  fr_critical_warnings : list str;
  fr_when_to_stop : str;
  fr_disclaimer : str
}.

End Models.

(* ================================================================== *)
(** ** app/services/fallback_service.py *)
(* ================================================================== *)

Module FallbackService.
Import PyStr Models.

(** [d.get(key, default)] on a dictionary given by its items. *)
Fixpoint dict_get {K V : Type} `{EqDecision K} (d : list (K * V)) (key : K) (default : V) : V :=
  match d with
  | [] => default
  | (k, v) :: rest => if decide (k = key) then v else dict_get rest key default
  end.

Definition FALLBACK_ASSESSMENTS : list (EmergencyType * Assessment) := [
  (MEDICAL,
   {| a_severity := HIGH;
      a_assessment := $"This appears to be a medical emergency. Immediate professional help is recommended.";
      a_recommendations := [
        $"Call 911 or local emergency services immediately";
        $"Stay calm and keep the person comfortable";
        $"Do not move the person unless there is immediate danger";
        $"Monitor vital signs (breathing, pulse) if possible";
        $"Provide emergency information to responders when they arrive" ];
      a_call_emergency_services := true |});
  (ACCIDENT,
   {| a_severity := HIGH;
      a_assessment := $"Accident situations can involve serious injuries. Professional emergency response is needed.";
      a_recommendations := [
        $"Call 911 immediately";
        $"Ensure the scene is safe before providing assistance";
        $"Do not move injured persons unless there is immediate danger";
        $"Apply pressure to any bleeding wounds with clean cloth";
        $"Keep injured persons calm and still" ];
      a_call_emergency_services := true |});
  (FIRE,
   {| a_severity := CRITICAL;
      a_assessment := $"Fire is a critical emergency requiring immediate evacuation and professional response.";
      a_recommendations := [
        $"Call 911 immediately";
        $"Evacuate the building using the nearest safe exit";
        $"Do not use elevators";
        $"Stay low to avoid smoke inhalation";
        $"Do not re-enter the building for any reason" ];
      a_call_emergency_services := true |});
  (VIOLENCE,
   {| a_severity := CRITICAL;
      a_assessment := $"Violence situations require immediate law enforcement response. Your safety is the priority.";
      a_recommendations := [
        $"Call 911 immediately if safe to do so";
        $"Remove yourself from danger if possible";
        $"Do not confront the aggressor";
        $"Seek shelter in a safe location";
        $"Follow law enforcement instructions when they arrive" ];
      a_call_emergency_services := true |});
  (NATURAL_DISASTER,
   {| a_severity := CRITICAL;
      a_assessment := $"Natural disasters require immediate safety measures and emergency response coordination.";
      a_recommendations := [
        $"Follow local emergency broadcast instructions";
        $"Seek appropriate shelter immediately";
        $"Stay away from windows, doors, and external walls";
        $"Have emergency supplies ready (water, food, first aid)";
        $"Do not venture outside until authorities declare it safe" ];
      a_call_emergency_services := true |})
].

Definition DEFAULT_ASSESSMENT : Assessment :=
  {| a_severity := HIGH;
     a_assessment := $"This is an emergency situation requiring professional help.";
     a_recommendations := [
       $"Call 911 or local emergency services";
       $"Stay safe and calm";
       $"Wait for professional assistance" ];
     a_call_emergency_services := true |}.

Definition mk_step (n : Z) (instr : str) (warns : list str) (dur : str) : FirstAidStep :=
  {| step_number := n; instruction := instr; step_warnings := warns; duration := Some dur |}.

Definition FALLBACK_FIRST_AID : list (EmergencyType * list FirstAidStep) := [
  (MEDICAL, [
     mk_step 1 $"Call 911 or emergency services immediately"
       [$"Do not delay emergency call"] $"Immediately";
     mk_step 2 $"Keep the person calm and comfortable"
       [$"Do not give food or drinks unless instructed"] $"Until help arrives";
     mk_step 3 $"Monitor breathing and consciousness"
       [$"Be prepared to perform CPR if trained"] $"Continuously";
     mk_step 4 $"Gather medical information (medications, allergies, conditions)"
       [$"Have this ready for emergency responders"] $"While waiting" ]);
  (ACCIDENT, [
     mk_step 1 $"Ensure scene safety before approaching"
       [$"Do not put yourself in danger"] $"First priority";
     mk_step 2 $"Call 911 immediately"
       [$"Provide clear location and injury description"] $"Immediately";
     mk_step 3 $"Apply direct pressure to any bleeding wounds"
       [$"Use clean cloth or gauze"; $"Do not remove objects embedded in wounds"]
       $"Until bleeding stops or help arrives";
     mk_step 4 $"Keep injured person still"
       [$"Do not move unless immediate danger"; $"Suspect spinal injury in serious accidents"]
       $"Until professional help arrives" ])
].

Definition DEFAULT_FIRST_AID : list FirstAidStep := [
  mk_step 1 $"Call 911 or emergency services immediately"
    [$"Do not attempt advanced procedures without training"] $"Immediately";
  mk_step 2 $"Keep yourself and others safe"
    [$"Assess the situation before acting"] $"Ongoing";
  mk_step 3 $"Provide comfort and reassurance"
    [$"Do not move injured persons unnecessarily"] $"Until help arrives"
].

Definition get_fallback_assessment (emergency_type : EmergencyType) : Assessment :=
  dict_get FALLBACK_ASSESSMENTS emergency_type DEFAULT_ASSESSMENT.

Definition get_fallback_first_aid (emergency_type : EmergencyType) : list FirstAidStep :=
  dict_get FALLBACK_FIRST_AID emergency_type DEFAULT_FIRST_AID.

Definition get_critical_warnings (emergency_type : EmergencyType) : list str :=
  let common_warnings := [
    $"Always call 911 for serious emergencies";
    $"Do not provide care beyond your training level";
    $"Prioritize scene safety for yourself and others" ] in
  let type_specific_warnings := [
    (MEDICAL, [ $"Do not give medications unless prescribed";
                $"Do not give food or drink to unconscious persons" ]);
    (FIRE, [ $"Never re-enter a burning building"; $"Crawl low under smoke" ]);
    (VIOLENCE, [ $"Your safety is the top priority";
                 $"Do not confront violent individuals" ]) ] in
  common_warnings ++ dict_get type_specific_warnings emergency_type [].

End FallbackService.

(* ================================================================== *)
(** ** hashlib.md5 (RFC 1321), on 32-bit words held in [Z] *)
(* ================================================================== *)

Module MD5.
Local Open Scope Z_scope.

Definition wrap32 (x : Z) : Z := x mod 2 ^ 32.
Definition add32 (a b : Z) : Z := wrap32 (a + b).
Definition not32 (x : Z) : Z := Z.lxor x 0xffffffff.
Definition rotl32 (x n : Z) : Z :=
  Z.lor (wrap32 (Z.shiftl x n)) (Z.shiftr x (32 - n)).

Definition K : list Z := [
  0xd76aa478; 0xe8c7b756; 0x242070db; 0xc1bdceee; 0xf57c0faf; 0x4787c62a; 0xa8304613; 0xfd469501;
  0x698098d8; 0x8b44f7af; 0xffff5bb1; 0x895cd7be; 0x6b901122; 0xfd987193; 0xa679438e; 0x49b40821;
  0xf61e2562; 0xc040b340; 0x265e5a51; 0xe9b6c7aa; 0xd62f105d; 0x02441453; 0xd8a1e681; 0xe7d3fbc8;
  0x21e1cde6; 0xc33707d6; 0xf4d50d87; 0x455a14ed; 0xa9e3e905; 0xfcefa3f8; 0x676f02d9; 0x8d2a4c8a;
  0xfffa3942; 0x8771f681; 0x6d9d6122; 0xfde5380c; 0xa4beea44; 0x4bdecfa9; 0xf6bb4b60; 0xbebfbc70;
  0x289b7ec6; 0xeaa127fa; 0xd4ef3085; 0x04881d05; 0xd9d4d039; 0xe6db99e5; 0x1fa27cf8; 0xc4ac5665;
  0xf4292244; 0x432aff97; 0xab9423a7; 0xfc93a039; 0x655b59c3; 0x8f0ccc92; 0xffeff47d; 0x85845dd1;
  0x6fa87e4f; 0xfe2ce6e0; 0xa3014314; 0x4e0811a1; 0xf7537e82; 0xbd3af235; 0x2ad7d2bb; 0xeb86d391 ].

Definition SHIFTS : list Z := [
  7; 12; 17; 22; 7; 12; 17; 22; 7; 12; 17; 22; 7; 12; 17; 22;
  5; 9; 14; 20; 5; 9; 14; 20; 5; 9; 14; 20; 5; 9; 14; 20;
  4; 11; 16; 23; 4; 11; 16; 23; 4; 11; 16; 23; 4; 11; 16; 23;
  6; 10; 15; 21; 6; 10; 15; 21; 6; 10; 15; 21; 6; 10; 15; 21 ].

Definition state : Type := Z * Z * Z * Z.

Definition INIT : state := (0x67452301, 0xefcdab89, 0x98badcfe, 0x10325476).

(** One of the 64 operations of a block. *)
Definition round (block : list Z) (st : state) (i : nat) : state :=
  let '(a, b, c, d) := st in
  let iz := Z.of_nat i in
  let '(f, g) :=
    if iz <? 16 then (Z.lor (Z.land b c) (Z.land (not32 b) d), iz)
    else if iz <? 32 then (Z.lor (Z.land d b) (Z.land (not32 d) c), (5 * iz + 1) mod 16)
    else if iz <? 48 then (Z.lxor (Z.lxor b c) d, (3 * iz + 5) mod 16)
    else (Z.lxor c (Z.lor b (not32 d)), (7 * iz) mod 16) in
  let f := add32 (add32 (add32 f a) (nth i K 0)) (nth (Z.to_nat g) block 0) in
  (d, add32 b (rotl32 f (nth i SHIFTS 0)), b, c).

Definition compress (st : state) (block : list Z) : state :=
  let '(a0, b0, c0, d0) := st in
  let '(a, b, c, d) := fold_left (round block) (seq 0 64) st in
  (add32 a0 a, add32 b0 b, add32 c0 c, add32 d0 d).

(** Little-endian bytes of a word and back. *)
Definition word_bytes (w : Z) : list Z :=
  [w mod 256; (w / 256) mod 256; (w / 65536) mod 256; (w / 16777216) mod 256].

Fixpoint words_of (n : nat) (bytes : list Z) : list Z :=
  match n with
  | O => []
  | S m =>
      match bytes with
      | b0 :: b1 :: b2 :: b3 :: rest =>
          (b0 + 256 * b1 + 65536 * b2 + 16777216 * b3) :: words_of m rest
      | _ => []
      end
  end.

Fixpoint blocks_of (n : nat) (bytes : list Z) : list (list Z) :=
  match n with
  | O => []
  | S m => words_of 16 (firstn 64 bytes) :: blocks_of m (skipn 64 bytes)
  end.

(** The message, one [1] bit, zeros up to 56 modulo 64, and the length in
    bits on 64 bits. *)
Definition pad (msg : list Z) : list Z :=
  let len := Z.of_nat (length msg) in
  let zeros := Z.to_nat ((55 - len) mod 64) in
  let bits := (8 * len) mod 2 ^ 64 in
  msg ++ [128] ++ repeat 0 zeros
      ++ word_bytes (bits mod 2 ^ 32) ++ word_bytes (bits / 2 ^ 32).

Definition digest (msg : list Z) : list Z :=
  let padded := pad msg in
  let '(a, b, c, d) :=
    fold_left compress (blocks_of (length padded / 64) padded) INIT in
  word_bytes a ++ word_bytes b ++ word_bytes c ++ word_bytes d.

Definition hex_digit (n : Z) : ascii :=
  nth (Z.to_nat n) $"0123456789abcdef" "0"%char.

Definition hex_byte (b : Z) : str := [hex_digit (b / 16 mod 16); hex_digit (b mod 16)].

Definition hexdigest (msg : list Z) : str := concat (map hex_byte (digest msg)).

End MD5.

(* ================================================================== *)
(** ** app/cache/redis_cache.py: the cache key *)
(* ================================================================== *)

Module CacheKey.
Import PyStr.

(** Order of [str]: by code point, a proper prefix first. *)
Fixpoint str_compare (a b : str) : comparison :=
  match a, b with
  | [], [] => Eq
  | [], _ :: _ => Lt
  | _ :: _, [] => Gt
  | x :: a', y :: b' =>
      match N.compare (code x) (code y) with
      | Eq => str_compare a' b'
      | c => c
      end
  end.

(** Order of the [(name, value)] tuples. *)
Definition item_compare (p q : str * str) : comparison :=
  match str_compare (fst p) (fst q) with
  | Eq => str_compare (snd p) (snd q)
  | c => c
  end.

Definition item_le (p q : str * str) : Prop := item_compare p q <> Gt.

#[global] Instance item_le_dec : RelDecision item_le.
Proof. intros p q. unfold item_le. destruct (item_compare p q); [left|left|right]; congruence. Defined.

(** [sorted(kwargs.items())] *)
Definition sorted (items : list (str * str)) : list (str * str) :=
  merge_sort item_le items.

Definition hex4 (n : N) : str :=
  let z := Z.of_N n in
  [MD5.hex_digit (z / 4096 mod 16); MD5.hex_digit (z / 256 mod 16);
   MD5.hex_digit (z / 16 mod 16); MD5.hex_digit (z mod 16)]%Z.

(** One character of a JSON string with [ensure_ascii]. *)
Definition json_escape_char (c : ascii) : str :=
  let n := code c in
  if (n =? 34)%N then ["092"%char; c]
  else if (n =? 92)%N then $"\\"
  else if (n =? 10)%N then $"\n"
  else if (n =? 13)%N then $"\r"
  else if (n =? 9)%N then $"\t"
  else if (n =? 8)%N then $"\b"
  else if (n =? 12)%N then $"\f"
  else if in_range 32 126 c then [c]
  else $"\u" ++ hex4 n.

Definition json_string (s : str) : str :=
  ["034"%char] ++ concat (map json_escape_char s) ++ ["034"%char].

Definition json_pair (p : str * str) : str :=
  $"[" ++ json_string (fst p) ++ $", " ++ json_string (snd p) ++ $"]".

(** [json.dumps] of a list of pairs of strings. *)
Definition json_dumps (items : list (str * str)) : str :=
  $"[" ++ join $", " (map json_pair items) ++ $"]".

(** [s.encode()] of a text within ASCII. *)
Definition encode (s : str) : list Z := map (fun c => Z.of_N (code c)) s.

(** [RedisCache._generate_cache_key]; [kwargs] is the keyword dictionary,
    its items in insertion order. *)
Definition _generate_cache_key (prefix : str) (kwargs : list (str * str)) : str :=
  let sorted_params := sorted kwargs in
  let params_str := json_dumps sorted_params in
  let params_hash := MD5.hexdigest (encode params_str) in
  $"llm:" ++ prefix ++ $":" ++ params_hash.

End CacheKey.

(* ================================================================== *)
(** ** Objects, exceptions and the state of the process *)
(* ================================================================== *)

Module Runtime.
Import PyStr Models.

(** The dictionaries built by the two parsers and kept in the cache. *)
Record AssessmentData : Type := {
  ad_success : bool;
  ad_emergency_id : str;
  ad_data : Assessment
}.

Record FirstAidData : Type := {
  fd_success : bool;
  fd_emergency_id : str;
  fd_emergency_type : EmergencyType;
  fd_steps : list FirstAidStep;
  fd_critical_warnings : list str;
  fd_when_to_stop : str
}.

Inductive CacheValue : Type :=
| CachedAssessment (d : AssessmentData)
| CachedFirstAid (d : FirstAidData).

Inductive Message : Type :=
| SystemMessage (content : str)
| HumanMessage (content : str).

Inductive Exn : Type :=
| Exception (msg : str)
| HTTPException (status_code : Z) (detail : str).

(** The two provider slots of the orchestrator. *)
Inductive Slot : Type := PRIMARY | SECONDARY.

#[global] Instance Slot_eq_dec : EqDecision Slot.
Proof. solve_decision. Defined.

Section WithCoord.
Variable coord : Type.

Inductive Obj : Type :=
| OContext (c : EmergencyContext)
| OLocation (l : Location coord)
| OMedical (m : MedicalProfile).

(** What a request can read or change: the objects, the Redis server
    (entries with their time to live, and whether it answers), and the
    provider calls made so far. *)
Record World : Type := {
  heap : gmap ref Obj;
  redis : gmap str (Z * CacheValue);
  redis_up : bool;
  calls : list (Slot * list Message)
}.

Definition with_heap (f : gmap ref Obj -> gmap ref Obj) (w : World) : World :=
  {| heap := f (heap w); redis := redis w; redis_up := redis_up w; calls := calls w |}.

Definition with_redis (f : gmap str (Z * CacheValue) -> gmap str (Z * CacheValue))
  (w : World) : World :=
  {| heap := heap w; redis := f (redis w); redis_up := redis_up w; calls := calls w |}.

Definition with_calls (f : list (Slot * list Message) -> list (Slot * list Message))
  (w : World) : World :=
  {| heap := heap w; redis := redis w; redis_up := redis_up w; calls := f (calls w) |}.

(** A computation: it returns or raises, and leaves a state. *)
Definition Py (A : Type) : Type := World -> (Exn + A) * World.

Definition ret {A : Type} (a : A) : Py A := fun w => (inr a, w).

Definition bind {A B : Type} (m : Py A) (f : A -> Py B) : Py B :=
  fun w =>
    match m w with
    | (inr a, w') => f a w'
    | (inl e, w') => (inl e, w')
    end.

Definition raise {A : Type} (e : Exn) : Py A := fun w => (inl e, w).

(** [try: m  except Exception as e: h e] *)
Definition try_except {A : Type} (m : Py A) (h : Exn -> Py A) : Py A :=
  fun w =>
    match m w with
    | (inr a, w') => (inr a, w')
    | (inl e, w') => h e w'
    end.

Definition when_ (b : bool) (m : Py unit) : Py unit := if b then m else ret tt.

End WithCoord.

Arguments ret {coord A}.
Arguments bind {coord A B}.
Arguments raise {coord A}.
Arguments try_except {coord A}.
Arguments when_ {coord}.
Arguments OContext {coord}.
Arguments OLocation {coord}.
Arguments OMedical {coord}.
Arguments heap {coord}.
Arguments redis {coord}.
Arguments redis_up {coord}.
Arguments calls {coord}.
Arguments with_heap {coord}.
Arguments with_redis {coord}.
Arguments with_calls {coord}.

Notation "'let*' x := m 'in' k" := (bind m (fun x => k))
  (at level 10, x name, m at level 100, k at level 200).
Notation "m >> k" := (bind m (fun _ => k))
  (at level 100, k at level 200, right associativity).

Section Heap.
Context {coord : Type}.

Definition AttributeError : Exn := Exception $"AttributeError".

Definition read_context (r : ref) : Py coord EmergencyContext :=
  fun w =>
    match heap w !! r with
    | Some (OContext c) => (inr c, w)
    | _ => (inl AttributeError, w)
    end.

Definition read_location (r : ref) : Py coord (Location coord) :=
  fun w =>
    match heap w !! r with
    | Some (OLocation l) => (inr l, w)
    | _ => (inl AttributeError, w)
    end.

Definition read_medical (r : ref) : Py coord MedicalProfile :=
  fun w =>
    match heap w !! r with
    | Some (OMedical m) => (inr m, w)
    | _ => (inl AttributeError, w)
    end.

(** A new object, at a reference no object has. *)
Definition alloc (o : Obj coord) : Py coord ref :=
  fun w =>
    let r := fresh (dom (heap w)) in
    (inr r, with_heap (insert r o) w).

Definition write (r : ref) (o : Obj coord) : Py coord unit :=
  fun w => (inr tt, with_heap (insert r o) w).

(** [obj.location], which must be there. *)
Definition location_of (r : ref) : Py coord ref :=
  let* c := read_context r in
  match location c with
  | Some l => ret l
  | None => raise AttributeError
  end.

Definition set_description (r : ref) (v : str) : Py coord unit :=
  let* c := read_context r in
  write r (OContext {| emergency_id := emergency_id c; emergency_type := emergency_type c;
                       description := v; location := location c;
                       medical_profile := medical_profile c; timestamp := timestamp c;
                       additional_info := additional_info c |}).

Definition set_additional_info (r : ref) (v : option str) : Py coord unit :=
  let* c := read_context r in
  write r (OContext {| emergency_id := emergency_id c; emergency_type := emergency_type c;
                       description := description c; location := location c;
                       medical_profile := medical_profile c; timestamp := timestamp c;
                       additional_info := v |}).

Definition set_address (r : ref) (v : option str) : Py coord unit :=
  let* l := read_location r in
  write r (OLocation {| latitude := latitude l; longitude := longitude l; address := v;
                        city := city l; country := country l |}).

Definition set_latitude (r : ref) (v : option coord) : Py coord unit :=
  let* l := read_location r in
  write r (OLocation {| latitude := v; longitude := longitude l; address := address l;
                        city := city l; country := country l |}).

Definition set_longitude (r : ref) (v : option coord) : Py coord unit :=
  let* l := read_location r in
  write r (OLocation {| latitude := latitude l; longitude := v; address := address l;
                        city := city l; country := country l |}).

(** [context.model_copy(deep=True)]: the context and the models it holds
    are copied into new objects. *)
Definition model_copy_deep (context : ref) : Py coord ref :=
  let* c := read_context context in
  let* l' := match location c with
             | Some l => let* v := read_location l in
                         let* r := alloc (OLocation v) in ret (Some r)
             | None => ret None
             end in
  let* m' := match medical_profile c with
             | Some m => let* v := read_medical m in
                         let* r := alloc (OMedical v) in ret (Some r)
             | None => ret None
             end in
  alloc (OContext {| emergency_id := emergency_id c; emergency_type := emergency_type c;
                     description := description c; location := l';
                     medical_profile := m'; timestamp := timestamp c;
                     additional_info := additional_info c |}).

(** app/utils/anonymizer.py *)
Definition anonymize_emergency_context (context : ref) : Py coord ref :=
  let* anonymized := model_copy_deep context in
  let* c := read_context context in
  set_description anonymized (Anonymizer.anonymize_text (description c)) >>
  when_ (truthy_opt (additional_info c))
    (set_additional_info anonymized
       (Some (Anonymizer.anonymize_text (default [] (additional_info c))))) >>
  match location c with
  | Some l =>
      let* lv := read_location l in
      when_ (truthy_opt (address lv))
        (let* al := location_of anonymized in set_address al (Some $"[ADDRESS]")) >>
      (let* al := location_of anonymized in set_latitude al None) >>
      (let* al := location_of anonymized in set_longitude al None)
  | None => ret tt
  end >>
  ret anonymized.

End Heap.

End Runtime.

(* ================================================================== *)
(** ** app/services/llm_orchestrator.py *)
(* ================================================================== *)

Module Orchestrator.
Import PyStr Models Runtime.

(** A chat model client: its [ainvoke] on a list of messages gives the
    content of the answer, or raises. *)
Record Provider : Type := { ainvoke : list Message -> Exn + str }.

Record LLMOrchestrator : Type := {
  primary_llm : option Provider;
  fallback_llm : option Provider
}.

Section WithCoord.
Context {coord : Type}.

(** [await llm.ainvoke(messages)], recorded in the call log. *)
Definition invoke (slot : Slot) (llm : Provider) (messages : list Message)
  : Py coord str :=
  fun w =>
    let w' := with_calls (fun cs => cs ++ [(slot, messages)]) w in
    match ainvoke llm messages with
    | inr content => (inr content, w')
    | inl e => (inl e, w')
    end.

(** The first [if] of [generate_response]: [Some] text when the primary
    model was tried and answered (the function returns it), [None] when
    control goes on to the second [if]. *)
Definition try_primary (self : LLMOrchestrator) (messages : list Message)
  (use_fallback : bool) : Py coord (option str) :=
  if negb use_fallback then
    match primary_llm self with
    | Some llm =>
        try_except (let* content := invoke PRIMARY llm messages in ret (Some content))
          (fun _ => ret None)
    | None => ret None
    end
  else ret None.

Definition generate_response (self : LLMOrchestrator) (system_prompt user_prompt : str)
  (use_fallback : bool) : Py coord str :=
  let messages := [SystemMessage system_prompt; HumanMessage user_prompt] in
  let* answered := try_primary self messages use_fallback in
  match answered with
  | Some content => ret content
  | None =>
      match fallback_llm self with
      | Some llm =>
          try_except (invoke SECONDARY llm messages)
            (fun _ => raise (Exception $"All LLM providers failed"))
      | None => raise (Exception $"No LLM providers available")
      end
  end.

(** The dictionary [check_availability] returns. *)
Record Availability : Type := {
  status_primary : bool;
  status_fallback : bool;
  status_available : bool
}.

(** One health check: [ainvoke([HumanMessage(content="test")])] on a
    provider that is configured, any exception meaning [False]. *)
Definition probe (slot : Slot) (llm : option Provider) : Py coord bool :=
  match llm with
  | Some p =>
      try_except (invoke slot p [HumanMessage $"test"] >> ret true) (fun _ => ret false)
  | None => ret false
  end.

Definition check_availability (self : LLMOrchestrator) : Py coord Availability :=
  let* primary := probe PRIMARY (primary_llm self) in
  let* fallback := probe SECONDARY (fallback_llm self) in
  ret {| status_primary := primary; status_fallback := fallback;
         status_available := primary || fallback |}.

End WithCoord.
End Orchestrator.

(* ================================================================== *)
(** ** app/cache/redis_cache.py: the cache object *)
(* ================================================================== *)

Module RedisCache.
Import PyStr Models Runtime CacheKey.

Record Settings : Type := {
  CACHE_TTL : Z;
  ENABLE_CACHING : bool;
  ENABLE_PII_ANONYMIZATION : bool;
  ENABLE_FALLBACK_RESPONSES : bool
}.

(** The fields of a [RedisCache]; [client] tells whether there is one. *)
Record RedisCache : Type := { client : bool; enabled : bool }.

Section WithCoord.
Context {coord : Type}.
Variable settings : Settings.

Definition ConnectionError : Exn := Exception $"ConnectionError".

(** [await self.client.get(key)] *)
Definition client_get (key : str) : Py coord (option CacheValue) :=
  fun w =>
    if redis_up w then (inr (snd <$> redis w !! key), w)
    else (inl ConnectionError, w).

(** [await self.client.setex(key, ttl, value)] *)
Definition client_setex (key : str) (ttl : Z) (value : CacheValue) : Py coord unit :=
  fun w =>
    if redis_up w then (inr tt, with_redis (insert key (ttl, value)) w)
    else (inl ConnectionError, w).

Definition get (self : RedisCache) (key : str) : Py coord (option CacheValue) :=
  if negb (enabled self) || negb (client self) then ret None
  else try_except (client_get key) (fun _ => ret None).

(** [ttl or settings.CACHE_TTL] *)
Definition ttl_or_default (ttl : option Z) : Z :=
  match ttl with
  | Some t => if (t =? 0)%Z then CACHE_TTL settings else t
  | None => CACHE_TTL settings
  end.

Definition set (self : RedisCache) (key : str) (value : CacheValue) (ttl : option Z)
  : Py coord bool :=
  if negb (enabled self) || negb (client self) then ret false
  else try_except (client_setex key (ttl_or_default ttl) value >> ret true)
         (fun _ => ret false).

(** [await self.client.delete(key)] *)
Definition client_delete (key : str) : Py coord unit :=
  fun w =>
    if redis_up w then (inr tt, with_redis (base.delete key) w)
    else (inl ConnectionError, w).

Definition delete (self : RedisCache) (key : str) : Py coord bool :=
  if negb (enabled self) || negb (client self) then ret false
  else try_except (client_delete key >> ret true) (fun _ => ret false).

Definition assessment_key (emergency_type description : str) : str :=
  _generate_cache_key $"assessment"
    [($"type", emergency_type); ($"desc", firstn 100 description)].

Definition first_aid_key (emergency_type description : str) : str :=
  _generate_cache_key $"first_aid"
    [($"type", emergency_type); ($"desc", firstn 100 description)].

Definition get_assessment_cache (self : RedisCache) (emergency_type description : str)
  : Py coord (option CacheValue) :=
  get self (assessment_key emergency_type description).

Definition set_assessment_cache (self : RedisCache) (emergency_type description : str)
  (response : AssessmentData) : Py coord bool :=
  set self (assessment_key emergency_type description) (CachedAssessment response) None.

Definition get_first_aid_cache (self : RedisCache) (emergency_type description : str)
  : Py coord (option CacheValue) :=
  get self (first_aid_key emergency_type description).

Definition set_first_aid_cache (self : RedisCache) (emergency_type description : str)
  (response : FirstAidData) : Py coord bool :=
  set self (first_aid_key emergency_type description) (CachedFirstAid response) None.

End WithCoord.
End RedisCache.

(* ================================================================== *)
(** ** app/prompts *)
(* ================================================================== *)

Module Prompts.
Import PyStr Models Runtime.

Definition NL : ascii := "010"%char.
Definition QUOTE : ascii := "034"%char.

Definition EMERGENCY_ASSESSMENT_SYSTEM_PROMPT : str :=
  $"You are an AI emergency assessment assistant for the SOS App. Your role is to analyze emergency situations and provide severity assessments with appropriate recommendations.

**CRITICAL GUIDELINES:**
1. You are NOT a substitute for professional medical advice or emergency services
2. ALWAYS recommend calling 911/emergency services for life-threatening situations
3. Provide clear, actionable recommendations
4. Be concise but thorough
5. Include appropriate disclaimers
6. Consider the context: location, medical profile, emergency type
7. Assess severity as: CRITICAL, HIGH, MEDIUM, or LOW

**RESPONSE FORMAT:**
- Severity Level: [CRITICAL/HIGH/MEDIUM/LOW]
- Assessment: [2-3 sentence assessment of the situation]
- Immediate Actions: [List 3-5 specific recommendations]
- Call Emergency Services: [YES/NO with justification]

**MEDICAL DISCLAIMER:**
This assessment is AI-generated and should not replace professional medical advice. Always call emergency services (911) for life-threatening emergencies or when in doubt.
".

Definition FIRST_AID_SYSTEM_PROMPT : str :=
  $"You are an AI first aid guidance assistant for the SOS App. Your role is to provide step-by-step first aid instructions for emergency situations.

**CRITICAL GUIDELINES:**
1. You are NOT a substitute for professional medical care
2. ALWAYS emphasize calling 911/emergency services first for serious injuries
3. Provide clear, sequential, numbered steps
4. Include safety warnings for each step when relevant
5. Use simple, easy-to-understand language
6. Focus on immediate stabilization until professional help arrives
7. Never provide instructions that could cause harm
8. Include " ++ [QUOTE] ++ $"when to stop" ++ [QUOTE] ++ $" criteria

**RESPONSE FORMAT:**
Step 1: [Instruction]
- Warning: [Any safety warnings]
- Duration: [How long to perform this step]

Step 2: [Instruction]
...

**CRITICAL WARNINGS:**
[List any critical warnings specific to this emergency]

**WHEN TO STOP:**
[Criteria for when to stop first aid and what to do next]

**MEDICAL DISCLAIMER:**
This first aid guidance is AI-generated and for informational purposes only. Always prioritize calling emergency services and obtaining professional medical help for serious injuries or emergencies.
".

(** [parts.append(f"{label}{value}")] when [value] is truthy. *)
Definition labelled (label : str) (value : option str) : list str :=
  match value with
  | Some v => if truthy v then [label ++ v] else []
  | None => []
  end.

Definition labelled_list (label : str) (values : list str) : list str :=
  match values with
  | [] => []
  | _ => [label ++ join $", " values]
  end.

Definition section_of (label sep : str) (parts : list str) : list str :=
  match parts with
  | [] => []
  | _ => [label ++ join sep parts]
  end.

Section WithCoord.
Context {coord : Type}.

Definition create_assessment_prompt (context : ref) : Py coord str :=
  let* c := read_context context in
  let prompt_parts := [
    $"**Emergency Type:** " ++ upper (type_value (emergency_type c));
    $"**Description:** " ++ description c ] in
  let* location_section :=
    match location c with
    | Some l =>
        let* lv := read_location l in
        ret (section_of $"**Location:** " $", "
               (labelled $"City: " (city lv) ++ labelled $"Country: " (country lv)))
    | None => ret []
    end in
  let* medical_section :=
    match medical_profile c with
    | Some m =>
        let* mv := read_medical m in
        ret (section_of $"**Medical Profile:** " $"; "
               (labelled $"Age: " (age_range mv)
                ++ labelled $"Blood Type: " (blood_type mv)
                ++ labelled_list $"Allergies: " (allergies mv)
                ++ labelled_list $"Conditions: " (medical_conditions mv)))
    | None => ret []
    end in
  ret (join [NL; NL]
         (prompt_parts ++ location_section ++ medical_section
          ++ labelled $"**Additional Information:** " (additional_info c)
          ++ [NL :: $"Provide your emergency assessment following the response format guidelines."])).

Definition create_first_aid_prompt (context : ref) (specific_concern : option str)
  : Py coord str :=
  let* c := read_context context in
  let prompt_parts := [
    $"**Emergency Type:** " ++ upper (type_value (emergency_type c));
    $"**Situation:** " ++ description c ] in
  let* medical_section :=
    match medical_profile c with
    | Some m =>
        let* mv := read_medical m in
        ret (section_of $"**Medical Considerations:** " $"; "
               (labelled $"Patient age range: " (age_range mv)
                ++ labelled_list $"Known allergies: " (allergies mv)
                ++ labelled_list $"Medical conditions: " (medical_conditions mv)
                ++ labelled_list $"Current medications: " (medications mv)))
    | None => ret []
    end in
  let* location_section :=
    match location c with
    | Some l => let* lv := read_location l in ret (labelled $"**Location:** " (city lv))
    | None => ret []
    end in
  ret (join [NL; NL]
         (prompt_parts ++ labelled $"**Specific Concern:** " specific_concern
          ++ medical_section ++ location_section
          ++ labelled $"**Additional Context:** " (additional_info c)
          ++ [NL :: $"Provide step-by-step first aid instructions following the response format guidelines. Focus on immediate actions that can be safely performed by a layperson until professional help arrives. Include all relevant safety warnings."])).

End WithCoord.
End Prompts.

(* ================================================================== *)
(** ** app/routes/llm_routes.py *)
(* ================================================================== *)

Module Routes.
Import PyStr Models Runtime Prompts.

(** The parsers only read [context.emergency_id] and
    [context.emergency_type]; they take the context by its fields.  The
    bullet U+2022 tested by the assessment parser is outside the text
    model, so that test is never met and is left out. *)

Definition is_recommendation_line (line : str) : bool :=
  truthy line
  && (startswith $"-" line
      || match line with c :: _ => isdigit_char c | [] => false end).

(** [line.lstrip("-...0123456789. ").strip()] *)
Definition clean_recommendation (line : str) : str :=
  strip (lstrip_by (fun c => mem_char c $"-0123456789. ") line).

Definition recommendation_step (recommendations : list str) (line : str) : list str :=
  let line := strip line in
  if is_recommendation_line line then
    let clean_line := clean_recommendation line in
    if truthy clean_line then recommendations ++ [clean_line] else recommendations
  else recommendations.

Definition DEFAULT_RECOMMENDATIONS : list str := [
  $"Call emergency services if the situation worsens";
  $"Monitor the person's condition closely";
  $"Keep the person calm and comfortable" ].

Definition _parse_assessment_response (llm_response : str) (context : EmergencyContext)
  : AssessmentData :=
  let severity :=
    if contains $"CRITICAL" (upper llm_response) then CRITICAL
    else if contains $"MEDIUM" (upper llm_response) then MEDIUM
    else if contains $"LOW" (upper llm_response) then LOW
    else HIGH in
  let call_emergency :=
    contains $"YES" (upper llm_response) || contains $"911" llm_response in
  let lines := split_on NL llm_response in
  let recommendations := fold_left recommendation_step lines [] in
  let recommendations :=
    match recommendations with
    | [] => DEFAULT_RECOMMENDATIONS
    | _ => recommendations
    end in
  {| ad_success := true;
     ad_emergency_id := emergency_id context;
     ad_data := {| a_severity := severity;
                   a_assessment := firstn 500 llm_response;
                   a_recommendations := firstn 5 recommendations;
                   a_call_emergency_services := call_emergency |} |}.

(** The local variables of the scan of [_parse_first_aid_response]. *)
Record Scan : Type := {
  steps : list FirstAidStep;
  warnings : list str;
  current_step : option FirstAidStep
}.

(** [line.split(":", 1)[1].strip() if ":" in line else line] *)
Definition text_after_colon (line : str) : str :=
  match after_first ":"%char line with
  | Some rest => strip rest
  | None => line
  end.

Definition close_step (st : Scan) : list FirstAidStep :=
  match current_step st with
  | Some s => steps st ++ [s]
  | None => steps st
  end.

Definition is_open (st : Scan) : bool :=
  match current_step st with Some _ => true | None => false end.

(** An update of the step [current_step] refers to. *)
Definition with_current (f : FirstAidStep -> FirstAidStep) (st : Scan) : Scan :=
  {| steps := steps st; warnings := warnings st; current_step := f <$> current_step st |}.

Definition append_warning (w : str) (s : FirstAidStep) : FirstAidStep :=
  {| step_number := step_number s; instruction := instruction s;
     step_warnings := step_warnings s ++ [w]; duration := duration s |}.

Definition set_duration (d : str) (s : FirstAidStep) : FirstAidStep :=
  {| step_number := step_number s; instruction := instruction s;
     step_warnings := step_warnings s; duration := Some d |}.

(** Body of the [for line in lines] loop. *)
Definition scan_line (st : Scan) (line : str) : Scan :=
  let line := strip line in
  if contains $"step" (lower line) && contains $":" line then
    let steps' := close_step st in
    let step_number := (Z.of_nat (length steps') + 1)%Z in
    {| steps := steps'; warnings := warnings st;
       current_step := Some {| step_number := step_number;
                               instruction := text_after_colon line;
                               step_warnings := []; duration := None |} |}
  else if contains $"warning" (lower line) && is_open st then
    with_current (append_warning (text_after_colon line)) st
  else if contains $"duration" (lower line) && is_open st then
    with_current (set_duration (text_after_colon line)) st
  else if contains $"critical warning" (lower line) then
    {| steps := steps st; warnings := warnings st ++ [line];
       current_step := current_step st |}
  else st.

Definition scan_lines (llm_response : str) : Scan :=
  fold_left scan_line (split_on NL llm_response)
    {| steps := []; warnings := []; current_step := None |}.

Definition _parse_first_aid_response (llm_response : str) (context : EmergencyContext)
  : FirstAidData :=
  let st := scan_lines llm_response in
  let steps := close_step st in
  let steps :=
    match steps with
    | [] => FallbackService.get_fallback_first_aid (emergency_type context)
    | _ => steps
    end in
  {| fd_success := true;
     fd_emergency_id := emergency_id context;
     fd_emergency_type := emergency_type context;
     fd_steps := firstn 10 steps;
     fd_critical_warnings :=
       match warnings st with
       | [] => [$"Always prioritize safety"]
       | ws => firstn 5 ws
       end;
     fd_when_to_stop :=
       $"Stop immediately if the person's condition worsens or you feel unsafe." |}.

(** Which [return] of a handler produced the response. *)
Inductive Source : Type := FROM_CACHE | FROM_LLM | FROM_FALLBACK.

#[global] Instance Source_eq_dec : EqDecision Source.
Proof. solve_decision. Defined.

Definition assessment_response (success : bool) (id : str) (a : Assessment)
  : EmergencyAssessmentResponse :=
  {| ar_success := success; ar_emergency_id := id; ar_severity := a_severity a;
     ar_assessment := a_assessment a; ar_recommendations := a_recommendations a;
     ar_call_emergency_services := a_call_emergency_services a;
     ar_disclaimer := ASSESSMENT_DISCLAIMER |}.

Definition first_aid_response (d : FirstAidData) : FirstAidResponse :=
  {| fr_success := fd_success d; fr_emergency_id := fd_emergency_id d;
     fr_emergency_type := fd_emergency_type d; fr_steps := fd_steps d;
     fr_critical_warnings := fd_critical_warnings d;
     fr_when_to_stop := fd_when_to_stop d; fr_disclaimer := FIRST_AID_DISCLAIMER |}.

Definition ValidationError : Exn := Exception $"ValidationError".

Section Handlers.
Context {coord : Type}.
Variable settings : RedisCache.Settings.
Variable cache : RedisCache.RedisCache.
Variable orchestrator : Orchestrator.LLMOrchestrator.

(** The outer [try] of a handler: an [HTTPException] passes, any other
    exception becomes a 500. *)
Definition http_guard {A : Type} (failed : str) (m : Py coord A) : Py coord A :=
  try_except m
    (fun e =>
       match e with
       | HTTPException _ _ => raise e
       | Exception msg => raise (HTTPException 500 (failed ++ msg))
       end).

Definition anonymized_or_same (context : ref) : Py coord ref :=
  if RedisCache.ENABLE_PII_ANONYMIZATION settings
  then anonymize_emergency_context context
  else ret context.

(** [assess_emergency(request)]; [request] is the request's
    [emergency_context]. *)
Definition assess_emergency (request : ref)
  : Py coord (Source * EmergencyAssessmentResponse) :=
  http_guard $"Failed to assess emergency: "
    (let* anonymized_context := anonymized_or_same request in
     let* ac := read_context anonymized_context in
     let* cached_response :=
       RedisCache.get_assessment_cache cache
         (type_value (emergency_type ac)) (description ac) in
     match cached_response with
     | Some (CachedAssessment d) =>
         ret (FROM_CACHE, assessment_response (ad_success d) (ad_emergency_id d) (ad_data d))
     | Some (CachedFirstAid _) => raise ValidationError
     | None =>
         try_except
           (let* user_prompt := create_assessment_prompt anonymized_context in
            let* llm_response :=
              Orchestrator.generate_response orchestrator
                EMERGENCY_ASSESSMENT_SYSTEM_PROMPT user_prompt false in
            let validation_result :=
              Validator.validate_llm_response llm_response $"assessment" true in
            if negb (Validator.is_valid validation_result)
            then raise (Exception $"LLM response validation failed")
            else
              let llm_response := Validator.sanitize_response llm_response in
              let* ac := read_context anonymized_context in
              let assessment_data := _parse_assessment_response llm_response ac in
              RedisCache.set_assessment_cache settings cache
                (type_value (emergency_type ac)) (description ac) assessment_data >>
              ret (FROM_LLM,
                   assessment_response (ad_success assessment_data)
                     (ad_emergency_id assessment_data) (ad_data assessment_data)))
           (fun _ =>
              if RedisCache.ENABLE_FALLBACK_RESPONSES settings then
                let* ac := read_context anonymized_context in
                let fallback_data :=
                  FallbackService.get_fallback_assessment (emergency_type ac) in
                let* rc := read_context request in
                ret (FROM_FALLBACK,
                     assessment_response true (emergency_id rc) fallback_data)
              else
                raise (HTTPException 503
                         $"LLM service unavailable and fallback is disabled"))
     end).

(** [get_first_aid_guidance(request)]; the request is given by its
    [emergency_context] and [specific_concern]. *)
Definition get_first_aid_guidance (request : ref) (specific_concern : option str)
  : Py coord (Source * FirstAidResponse) :=
  http_guard $"Failed to get first aid guidance: "
    (let* anonymized_context := anonymized_or_same request in
     let* ac := read_context anonymized_context in
     let* cached_response :=
       RedisCache.get_first_aid_cache cache
         (type_value (emergency_type ac)) (description ac) in
     match cached_response with
     | Some (CachedFirstAid d) => ret (FROM_CACHE, first_aid_response d)
     | Some (CachedAssessment _) => raise ValidationError
     | None =>
         try_except
           (let* user_prompt :=
              create_first_aid_prompt anonymized_context specific_concern in
            let* llm_response :=
              Orchestrator.generate_response orchestrator
                FIRST_AID_SYSTEM_PROMPT user_prompt false in
            let validation_result :=
              Validator.validate_llm_response llm_response $"first_aid" true in
            if negb (Validator.is_valid validation_result)
            then raise (Exception $"LLM response validation failed")
            else
              let llm_response := Validator.sanitize_response llm_response in
              let* ac := read_context anonymized_context in
              let first_aid_data := _parse_first_aid_response llm_response ac in
              RedisCache.set_first_aid_cache settings cache
                (type_value (emergency_type ac)) (description ac) first_aid_data >>
              ret (FROM_LLM, first_aid_response first_aid_data))
           (fun _ =>
              if RedisCache.ENABLE_FALLBACK_RESPONSES settings then
                let* ac := read_context anonymized_context in
                let fallback_steps :=
                  FallbackService.get_fallback_first_aid (emergency_type ac) in
                let fallback_warnings :=
                  FallbackService.get_critical_warnings (emergency_type ac) in
                let* rc := read_context request in
                ret (FROM_FALLBACK,
                     {| fr_success := true;
                        fr_emergency_id := emergency_id rc;
                        fr_emergency_type := emergency_type ac;
                        fr_steps := fallback_steps;
                        fr_critical_warnings := fallback_warnings;
                        fr_when_to_stop :=
                          $"Stop and seek immediate professional help if the person's condition worsens or you feel unsafe continuing.";
                        fr_disclaimer := FIRST_AID_DISCLAIMER |})
              else
                raise (HTTPException 503
                         $"LLM service unavailable and fallback is disabled"))
     end).

End Handlers.

End Routes.

(* ================================================================== *)
(** * Properties *)
(* ================================================================== *)

(** ** The fallback knowledge base *)

Section FallbackFacts.
Import Models FallbackService.

(** C6. [get_fallback_assessment] is a total function of the category:
    every category, the unmapped [OTHER] included, has exactly one
    assessment, a row of the table or the generic default, which asks to
    call the emergency services and has recommendations; [OTHER] resolves
    to the generic default; for [MEDICAL] the severity is high, the
    emergency services are to be called and there are exactly five
    recommendations. *)
Theorem get_fallback_assessment_total :
  (forall emergency_type : EmergencyType,
      exists! a : Assessment,
        get_fallback_assessment emergency_type = a
        /\ (In (emergency_type, a) FALLBACK_ASSESSMENTS
            \/ (~ In emergency_type (map fst FALLBACK_ASSESSMENTS)
                /\ a = DEFAULT_ASSESSMENT))
        /\ a_call_emergency_services a = true
        /\ a_recommendations a <> [])
  /\ get_fallback_assessment OTHER = DEFAULT_ASSESSMENT
  /\ a_severity (get_fallback_assessment MEDICAL) = HIGH
  /\ a_call_emergency_services (get_fallback_assessment MEDICAL) = true
  /\ length (a_recommendations (get_fallback_assessment MEDICAL)) = 5.
Proof.
  split; [| repeat split; reflexivity].
  intros et. exists (get_fallback_assessment et). split.
  - split; [reflexivity|].
    destruct et; cbn; (split; [| split; [reflexivity | discriminate]]);
      try (left; repeat (first [left; reflexivity | right]); fail).
    right. split; [| reflexivity].
    intros H. repeat (destruct H as [H | H]; [discriminate H|]). exact H.
  - intros a' [H _]. exact H.
Qed.

End FallbackFacts.

(** ** The response safety gate *)

Module ValidatorFacts.
Import PyStr Re Validator.

(** Validity and the error list go together. *)
Definition coherent (r : ResponseValidationResult) : Prop :=
  is_valid r = false <-> errors r <> [].

Lemma harmful_step_coherent text r p :
  coherent r -> coherent (harmful_step text r p).
Proof.
  unfold coherent, harmful_step. intros H.
  destruct (re_search p text); [| exact H].
  cbn. split; [| reflexivity].
  intros _ E. apply app_eq_nil in E. destruct E as [_ E]. discriminate E.
Qed.

Lemma harmful_fold_coherent text ps r :
  coherent r -> coherent (fold_left (harmful_step text) ps r).
Proof.
  revert r. induction ps as [| p ps IH]; intros r H; cbn; [exact H|].
  apply IH, harmful_step_coherent, H.
Qed.

(** The steps that append warnings other than the disclaimer's leave
    validity, errors and severity alone, and neither add nor remove the
    disclaimer warning. *)
Definition same_verdict (r r' : ResponseValidationResult) : Prop :=
  is_valid r' = is_valid r /\ errors r' = errors r.

Definition same_disclaimer (r r' : ResponseValidationResult) : Prop :=
  severity r' = severity r
  /\ (In DISCLAIMER_WARNING (warnings r') <-> In DISCLAIMER_WARNING (warnings r)).

Definition untouched (r r' : ResponseValidationResult) : Prop :=
  same_verdict r r' /\ same_disclaimer r r'.

Lemma untouched_refl r : untouched r r.
Proof. repeat split; auto. Qed.

Lemma untouched_trans r1 r2 r3 :
  untouched r1 r2 -> untouched r2 r3 -> untouched r1 r3.
Proof.
  intros [[A B] [C D]] [[A' B'] [C' D']].
  repeat split; try congruence; tauto.
Qed.

Lemma add_other_warning_untouched w r :
  w <> DISCLAIMER_WARNING -> untouched r (add_warning w r).
Proof.
  intros Hw. repeat split; cbn; auto.
  - intros H. apply in_app_or in H. destruct H as [H | [H | []]]; [exact H | contradiction].
  - intros H. apply in_or_app. left. exact H.
Qed.

Lemma length_step_untouched text r : untouched r (length_step text r).
Proof.
  unfold length_step.
  destruct (length text <? 50)%nat;
    [apply add_other_warning_untouched; vm_compute; discriminate|].
  destruct (5000 <? length text)%nat;
    [apply add_other_warning_untouched; vm_compute; discriminate | apply untouched_refl].
Qed.

Lemma misinformation_step_untouched text r p :
  untouched r (misinformation_step text r p).
Proof.
  unfold misinformation_step. destruct (re_search p text); [| apply untouched_refl].
  apply add_other_warning_untouched. vm_compute. discriminate.
Qed.

Lemma misinformation_fold_untouched text ps r :
  untouched r (fold_left (misinformation_step text) ps r).
Proof.
  revert r. induction ps as [| p ps IH]; intros r; cbn; [apply untouched_refl|].
  eapply untouched_trans; [apply misinformation_step_untouched | apply IH].
Qed.

Lemma call_to_action_step_untouched ty text r :
  untouched r (call_to_action_step ty text r).
Proof.
  unfold call_to_action_step.
  destruct (str_eqb ty _); [| apply untouched_refl].
  destruct (search severe_pattern text); [| apply untouched_refl].
  destruct (negb _); [| apply untouched_refl].
  apply add_other_warning_untouched. vm_compute. discriminate.
Qed.

(** The three steps after the disclaimer check, together. *)
Definition later_steps (response_type text : str) (r : ResponseValidationResult)
  : ResponseValidationResult :=
  call_to_action_step response_type text
    (fold_left (misinformation_step text) misinformation_patterns (length_step text r)).

Lemma later_steps_untouched ty text r : untouched r (later_steps ty text r).
Proof.
  unfold later_steps.
  eapply untouched_trans; [apply length_step_untouched|].
  eapply untouched_trans; [apply misinformation_fold_untouched|].
  apply call_to_action_step_untouched.
Qed.

Lemma disclaimer_step_verdict b text r : same_verdict r (disclaimer_step b text r).
Proof.
  unfold disclaimer_step. destruct b; [| split; reflexivity].
  destruct (negb (has_disclaimer text)); split; reflexivity.
Qed.

Lemma coherent_same_verdict r r' : same_verdict r r' -> coherent r -> coherent r'.
Proof. unfold coherent. intros [A B]. rewrite A, B. auto. Qed.

(** The harmful-content loop appends no warning. *)
Lemma harmful_fold_warnings text ps r :
  warnings (fold_left (harmful_step text) ps r) = warnings r.
Proof.
  revert r. induction ps as [| p ps IH]; intros r; cbn; [reflexivity|].
  rewrite IH. unfold harmful_step. destruct (re_search p text); reflexivity.
Qed.

(** The guard of the first rule. *)
Definition is_blank (text : str) : bool :=
  negb (truthy text) || Nat.eqb (length (strip text)) 0.

Lemma validate_blank text ty rd :
  is_blank text = true ->
  validate_llm_response text ty rd
  = {| is_valid := false; errors := [$"Response is empty"]; warnings := [];
       severity := $"error" |}.
Proof.
  unfold validate_llm_response, is_blank. intros ->. reflexivity.
Qed.

Lemma validate_not_blank text ty rd :
  is_blank text = false ->
  validate_llm_response text ty rd
  = later_steps ty text
      (disclaimer_step rd text
         (fold_left (harmful_step text) HARMFUL_PATTERNS
            {| is_valid := true; errors := []; warnings := []; severity := $"info" |})).
Proof.
  unfold validate_llm_response, is_blank. intros ->. reflexivity.
Qed.

(** How many of the keywords of a list occur in a text, case-insensitively. *)
Definition keyword_hits (keywords : list str) (text : str) : nat :=
  length (List.filter (fun keyword => contains (lower keyword) (lower text)) keywords).

Lemma has_disclaimer_hits text :
  has_disclaimer text = negb (Nat.eqb (keyword_hits (firstn 2 REQUIRED_DISCLAIMER_KEYWORDS) text) 0).
Proof.
  unfold has_disclaimer, keyword_hits.
  generalize (firstn 2 REQUIRED_DISCLAIMER_KEYWORDS). intros l.
  induction l as [| k l IH]; [reflexivity|].
  cbn [existsb List.filter]. destruct (contains (lower k) (lower text)); [reflexivity|].
  exact IH.
Qed.

End ValidatorFacts.

Section ValidatorClaims.
Import PyStr Validator ValidatorFacts.

(** C7. For every response text, response type and [require_disclaimer]
    flag, the result of [validate_llm_response] has [is_valid] false
    exactly when its error list is not empty; and each of the steps that
    append warnings (disclaimer, length, overly definitive language, call
    to action) returns the validity flag and the error list it was
    given. *)
Theorem validate_is_valid_iff_no_errors :
  (forall (response_text response_type : str) (require_disclaimer : bool),
      let r := validate_llm_response response_text response_type require_disclaimer in
      is_valid r = false <-> errors r <> [])
  /\ (forall (response_text response_type : str) (require_disclaimer : bool)
        (r : ResponseValidationResult),
        let warned :=
          call_to_action_step response_type response_text
            (fold_left (misinformation_step response_text) misinformation_patterns
               (length_step response_text
                  (disclaimer_step require_disclaimer response_text r))) in
        is_valid warned = is_valid r /\ errors warned = errors r).
Proof.
  assert (W : forall text ty rd r,
             same_verdict r (later_steps ty text (disclaimer_step rd text r))).
  { intros text ty rd r.
    destruct (disclaimer_step_verdict rd text r) as [A B].
    destruct (later_steps_untouched ty text (disclaimer_step rd text r)) as [[C D] _].
    split; congruence. }
  split.
  - intros text ty rd. cbv zeta. fold (coherent (validate_llm_response text ty rd)).
    destruct (is_blank text) eqn:Hb.
    + rewrite (validate_blank _ _ _ Hb). unfold coherent. cbn.
      split; [discriminate | reflexivity].
    + rewrite (validate_not_blank _ _ _ Hb).
      eapply coherent_same_verdict; [apply W|].
      apply harmful_fold_coherent. unfold coherent. cbn. split; [discriminate | congruence].
  - intros text ty rd r. apply W.
Qed.

(** C1, the claim as stated fails.  A blank text has none of the four
    keywords and gets no disclaimer warning (the first rule returns
    early); a text with two keywords, [emergency services] and [911], gets
    the warning; a text with one keyword, [not a substitute], gets none. *)
Lemma disclaimer_two_of_four_counterexamples :
  (keyword_hits REQUIRED_DISCLAIMER_KEYWORDS $"   " = 0
   /\ warnings (validate_llm_response $"   " $"assessment" true) = [])
  /\ (keyword_hits REQUIRED_DISCLAIMER_KEYWORDS
        $"Please contact emergency services or dial 911 right away." = 2
      /\ warnings (validate_llm_response
                     $"Please contact emergency services or dial 911 right away."
                     $"first_aid" true)
         = [DISCLAIMER_WARNING])
  /\ (keyword_hits REQUIRED_DISCLAIMER_KEYWORDS
        $"This guidance is not a substitute for the care of a trained doctor." = 1
      /\ warnings (validate_llm_response
                     $"This guidance is not a substitute for the care of a trained doctor."
                     $"first_aid" true)
         = []).
Proof. vm_compute. repeat split. Qed.

(** C1, amended.  With [require_disclaimer] set: a blank text gets the
    error [Response is empty] and no disclaimer warning; a text that is
    not blank and has, case-insensitively, fewer than two of the four
    keywords and neither of the first two gets the disclaimer warning, and
    its severity is [warning] or [error]; a text that is not blank and has
    at least two of the four keywords, one of the first two among them,
    gets no disclaimer warning; and in every case [is_valid] is what it is
    without the disclaimer check. *)
Theorem disclaimer_warning_where_keywords_agree :
  forall response_text response_type : str,
    let r := validate_llm_response response_text response_type true in
    let hits := keyword_hits REQUIRED_DISCLAIMER_KEYWORDS response_text in
    let leading := keyword_hits (firstn 2 REQUIRED_DISCLAIMER_KEYWORDS) response_text in
    (is_blank response_text = true ->
       ~ In DISCLAIMER_WARNING (warnings r) /\ errors r = [$"Response is empty"])
    /\ (is_blank response_text = false -> hits < 2 -> leading = 0 ->
          In DISCLAIMER_WARNING (warnings r)
          /\ (severity r = $"warning" \/ severity r = $"error"))
    /\ (is_blank response_text = false -> 2 <= hits -> 0 < leading ->
          ~ In DISCLAIMER_WARNING (warnings r))
    /\ is_valid r = is_valid (validate_llm_response response_text response_type false).
Proof.
  intros text ty. cbv zeta.
  destruct (is_blank text) eqn:Hb.
  - rewrite !(validate_blank _ _ _ Hb). cbn.
    repeat split; try discriminate; auto.
  - rewrite !(validate_not_blank _ _ _ Hb).
    set (r0 := fold_left (harmful_step text) HARMFUL_PATTERNS _).
    assert (W0 : warnings r0 = []) by (unfold r0; rewrite harmful_fold_warnings; reflexivity).
    clearbody r0.
    destruct (later_steps_untouched ty text (disclaimer_step true text r0))
      as [[V1 _] [S1 D1]].
    destruct (later_steps_untouched ty text (disclaimer_step false text r0))
      as [[V2 _] _].
    split; [discriminate|].
    split; [| split].
    + intros _ _ Hlead. rewrite D1, S1.
      unfold disclaimer_step. rewrite has_disclaimer_hits, Hlead. cbn.
      rewrite W0. split; [left; reflexivity|].
      destruct (str_eqb (severity r0) _); cbn; auto.
    + intros _ _ Hlead. rewrite D1.
      unfold disclaimer_step. rewrite has_disclaimer_hits.
      destruct (keyword_hits _ text) as [| n]; [lia|]. cbn. rewrite W0. intros [].
    + rewrite V1, V2.
      destruct (disclaimer_step_verdict true text r0) as [A _].
      destruct (disclaimer_step_verdict false text r0) as [B _]. congruence.
Qed.

(** The amended statement at a text with no keyword and at a text with
    the first and the last keyword. *)
Lemma disclaimer_warning_where_keywords_agree_witness :
  (In DISCLAIMER_WARNING
     (warnings (validate_llm_response $"Keep the arm still." $"first_aid" true))
   /\ (severity (validate_llm_response $"Keep the arm still." $"first_aid" true) = $"warning"
       \/ severity (validate_llm_response $"Keep the arm still." $"first_aid" true) = $"error"))
  /\ ~ In DISCLAIMER_WARNING
        (warnings (validate_llm_response $"Not a substitute for a doctor: call 911."
                     $"first_aid" true)).
Proof.
  split.
  - apply (disclaimer_warning_where_keywords_agree $"Keep the arm still." $"first_aid");
      vm_compute; auto.
  - apply (disclaimer_warning_where_keywords_agree
             $"Not a substitute for a doctor: call 911." $"first_aid");
      vm_compute; auto.
Defined.

End ValidatorClaims.

Section AnonymizerExamples.
Import PyStr Anonymizer.

(** C10. There is a text, [123 Maple Drive], in which [detect_pii] finds
    nothing ([has_pii] false, every counter zero) and which
    [anonymize_text] rewrites to [[ADDRESS]]: the suffix [Drive] is among
    the street suffixes of [anonymize_text] and not among those of
    [detect_pii], which are the first six of them. *)
Theorem detect_pii_misses_address_anonymize_rewrites :
  exists text : str,
    detect_pii text
    = {| has_pii := false; phone_numbers := 0; emails := 0; ssn := 0;
         credit_cards := 0; urls := 0; addresses := 0 |}
    /\ anonymize_text text = $"[ADDRESS]"
    /\ anonymize_text text <> text
    /\ detect_suffixes = firstn 6 anonymize_suffixes
    /\ In $"Drive" anonymize_suffixes
    /\ ~ In $"Drive" detect_suffixes.
Proof.
  exists $"123 Maple Drive".
  split; [vm_compute; reflexivity|].
  split; [vm_compute; reflexivity|].
  split; [vm_compute; discriminate|].
  split; [reflexivity|].
  split; [vm_compute; tauto|].
  vm_compute. intros H.
  repeat (destruct H as [H | H]; [discriminate H|]). exact H.
Qed.

End AnonymizerExamples.

(** ** The first-aid parser *)

Module ParserFacts.
Import PyStr Models Runtime Prompts Routes.

Lemma startswith_app p s : startswith p (p ++ s) = true.
Proof.
  induction p as [| a p IH]; [destruct s; reflexivity|].
  cbn. unfold ascii_eqb. rewrite Ascii.eqb_refl. exact IH.
Qed.

Lemma startswith_inv p s : startswith p s = true -> exists t, s = p ++ t.
Proof.
  revert s. induction p as [| a p IH]; intros s H; [exists s; reflexivity|].
  destruct s as [| b s]; [discriminate H|].
  cbn in H. apply andb_prop in H. destruct H as [E H].
  apply Ascii.eqb_eq in E. subst b.
  destruct (IH _ H) as [t ->]. exists t. reflexivity.
Qed.

Lemma contains_cons needle c s : contains needle s = true -> contains needle (c :: s) = true.
Proof. intros H. cbn. rewrite H. apply orb_true_r. Qed.

Lemma contains_skip needle u s : contains needle s = true -> contains needle (u ++ s) = true.
Proof. induction u as [| c u IH]; intros H; [exact H|]. apply contains_cons, IH, H. Qed.

Lemma contains_prefix needle s : startswith needle s = true -> contains needle s = true.
Proof. intros H. destruct s; cbn in *; rewrite H; reflexivity. Qed.

Lemma contains_intro needle u v : contains needle (u ++ needle ++ v) = true.
Proof. apply contains_skip, contains_prefix, startswith_app. Qed.

Lemma contains_inv needle s :
  contains needle s = true -> exists u v, s = u ++ needle ++ v.
Proof.
  induction s as [| c s IH]; cbn; intros H.
  - apply orb_prop in H. destruct H as [H | H]; [| discriminate H].
    destruct (startswith_inv _ _ H) as [t E]. exists [], t. exact E.
  - apply orb_prop in H. destruct H as [H | H].
    + destruct (startswith_inv _ _ H) as [t E]. exists [], t. exact E.
    + destruct (IH H) as (u & v & ->). exists (c :: u), v. reflexivity.
Qed.

(** A text that has [a ++ b] has [b]. *)
Lemma contains_suffix_of_needle a b s :
  contains (a ++ b) s = true -> contains b s = true.
Proof.
  intros H. destruct (contains_inv _ _ H) as (u & v & ->).
  rewrite <- app_assoc, app_assoc. apply contains_intro.
Qed.

(** With a step open, a line with [critical warning] that is not a step
    header takes the branch of the step warnings: the text after its
    colon goes to the open step and the top-level list stays as it is. *)
Lemma scan_line_critical_warning_open st s line :
  current_step st = Some s ->
  contains $"critical warning" (lower (strip line)) = true ->
  contains $"step" (lower (strip line)) && contains $":" (strip line) = false ->
  scan_line st line
  = {| steps := steps st; warnings := warnings st;
       current_step := Some (append_warning (text_after_colon (strip line)) s) |}.
Proof.
  intros Hs Hc Hh. unfold scan_line. rewrite Hh.
  rewrite (contains_suffix_of_needle $"critical " $"warning" _ Hc).
  unfold is_open, with_current. rewrite Hs. reflexivity.
Qed.

(** With no step open, such a line is collected in the top-level list. *)
Lemma scan_line_critical_warning_closed st line :
  current_step st = None ->
  contains $"critical warning" (lower (strip line)) = true ->
  contains $"step" (lower (strip line)) && contains $":" (strip line) = false ->
  scan_line st line
  = {| steps := steps st; warnings := warnings st ++ [strip line];
       current_step := None |}.
Proof.
  intros Hs Hc Hh. unfold scan_line. rewrite Hh.
  unfold is_open. rewrite Hs, !andb_false_r, Hc. reflexivity.
Qed.

Definition sample_context : EmergencyContext :=
  {| emergency_id := $"emergency-1"; emergency_type := FIRE;
     description := $"smoke in the kitchen"; location := None;
     medical_profile := None; timestamp := 0; additional_info := None |}.

Definition step_then_critical_warning : str :=
  $"Step 1: Apply pressure to the wound" ++ [NL]
  ++ $"Critical warning: do not remove embedded objects".

End ParserFacts.

Section ParserClaims.
Import PyStr Models Runtime Prompts Routes ParserFacts.

(** C2, the code at an input where the claim fails.  For the two lines
    [Step 1: Apply pressure to the wound] and
    [Critical warning: do not remove embedded objects], the parser
    attaches [do not remove embedded objects] to step 1 and collects
    nothing at the top level, so the critical warnings are the default
    [Always prioritize safety]. *)
Theorem critical_warning_after_step_is_attached_to_step :
  let d := _parse_first_aid_response step_then_critical_warning sample_context in
  fd_steps d
  = [ {| step_number := 1; instruction := $"Apply pressure to the wound";
         step_warnings := [$"do not remove embedded objects"]; duration := None |} ]
  /\ fd_critical_warnings d = [$"Always prioritize safety"]
  /\ warnings (scan_lines step_then_critical_warning) = [].
Proof. vm_compute. repeat split. Qed.

End ParserClaims.

(** ** The provider orchestrator *)

Module OrchestratorFacts.
Import PyStr Models Runtime Orchestrator.

(** The providers a call goes through, in order: the primary one unless
    it is absent or [use_fallback] is set, then the secondary one unless
    it is absent. *)
Definition attempts (self : LLMOrchestrator) (use_fallback : bool)
  : list (Slot * Provider) :=
  (if use_fallback then []
   else match primary_llm self with Some p => [(PRIMARY, p)] | None => [] end)
  ++ match fallback_llm self with Some p => [(SECONDARY, p)] | None => [] end.

Definition fails (messages : list Message) (sp : Slot * Provider) : Prop :=
  exists e, ainvoke (snd sp) messages = inl e.

Definition raises {coord A : Type} (out : (Exn + A) * World coord) : Prop :=
  exists e, fst out = inl e.

(** Going through a list of providers in order, up to the first one that
    answers: the slots of the providers invoked, and the answer, if there
    is one. *)
Fixpoint go_through (messages : list Message) (plan : list (Slot * Provider))
  : list Slot * option str :=
  match plan with
  | [] => ([], None)
  | (slot, p) :: rest =>
      match ainvoke p messages with
      | inr text => ([slot], Some text)
      | inl _ => (slot :: fst (go_through messages rest), snd (go_through messages rest))
      end
  end.

(** The exception of a call that no provider answers. *)
Definition exhausted (self : LLMOrchestrator) : Exn :=
  Exception match fallback_llm self with
            | Some _ => $"All LLM providers failed"
            | None => $"No LLM providers available"
            end.

(** The entries a call adds to the call log. *)
Definition logged (messages : list Message) (invoked : list Slot)
  : list (Slot * list Message) :=
  map (fun slot => (slot, messages)) invoked.

Lemma go_through_first messages before slot p after text :
  Forall (fails messages) before -> ainvoke p messages = inr text ->
  go_through messages (before ++ (slot, p) :: after)
  = (map fst before ++ [slot], Some text).
Proof.
  intros Hb Hp. induction Hb as [| [s q] before [e He] _ IH]; cbn.
  - rewrite Hp. reflexivity.
  - cbn in He. rewrite He, IH. reflexivity.
Qed.

Lemma go_through_none messages plan :
  snd (go_through messages plan) = None <-> Forall (fails messages) plan.
Proof.
  induction plan as [| [s q] plan IH]; cbn.
  - split; [constructor | reflexivity].
  - destruct (ainvoke q messages) as [e | text] eqn:E; cbn.
    + rewrite IH. split.
      * intros H. constructor; [exists e; exact E | exact H].
      * intros H. inversion H; assumption.
    + split; [discriminate|]. intros H. inversion H as [| ? ? [e He] _]; subst.
      cbn in He. congruence.
Qed.

Lemma go_through_all messages plan :
  Forall (fails messages) plan -> fst (go_through messages plan) = map fst plan.
Proof.
  induction 1 as [| [s q] plan [e He] _ IH]; cbn; [reflexivity|].
  cbn in He. rewrite He. cbn. rewrite IH. reflexivity.
Qed.

(** The slots invoked are slots of the list, in its order. *)
Lemma go_through_prefix messages plan :
  exists rest, map fst plan = fst (go_through messages plan) ++ rest.
Proof.
  induction plan as [| [s q] plan [rest IH]]; cbn; [exists []; reflexivity|].
  destruct (ainvoke q messages); cbn.
  - exists rest. rewrite IH. reflexivity.
  - exists (map fst plan). reflexivity.
Qed.

End OrchestratorFacts.

Section OrchestratorClaims.
Import PyStr Models Runtime Orchestrator OrchestratorFacts.

(** C8. For every pair of prompts, [generate_response] goes through the
    configured providers in order, the primary one being skipped when
    [use_fallback] is set, up to the first one that answers: it returns
    the text of that provider, and the providers it has invoked are those
    before it, which failed, and that one, in order; when no provider
    answers it raises, having invoked every one of them.  So: the text of
    a provider is returned whenever all those before it fail and it
    answers, and no later provider is invoked; the call raises exactly
    when every provider on the list fails, which includes there being
    none; with [use_fallback] set the primary provider is not invoked;
    and nothing but the call log changes. *)
Theorem generate_response_first_success :
  forall (coord : Type) (self : LLMOrchestrator) (system_prompt user_prompt : str)
         (use_fallback : bool) (w : World coord),
    let messages := [SystemMessage system_prompt; HumanMessage user_prompt] in
    let out := generate_response self system_prompt user_prompt use_fallback w in
    let plan := attempts self use_fallback in
    fst out = match snd (go_through messages plan) with
              | Some text => inr text
              | None => inl (exhausted self)
              end
    /\ calls (snd out) = calls w ++ logged messages (fst (go_through messages plan))
    /\ (forall before slot p after text,
           plan = before ++ (slot, p) :: after ->
           Forall (fails messages) before -> ainvoke p messages = inr text ->
           fst out = inr text
           /\ calls (snd out) = calls w ++ logged messages (map fst before ++ [slot]))
    /\ (raises out <-> Forall (fails messages) plan)
    /\ (raises out -> calls (snd out) = calls w ++ logged messages (map fst plan))
    /\ (use_fallback = true -> ~ In PRIMARY (fst (go_through messages plan)))
    /\ heap (snd out) = heap w /\ redis (snd out) = redis w
    /\ redis_up (snd out) = redis_up w.
Proof.
  intros coord self sp up uf w. cbv zeta.
  set (messages := [SystemMessage sp; HumanMessage up]).
  set (plan := attempts self uf).
  set (out := generate_response self sp up uf w).
  assert (R : fst out = match snd (go_through messages plan) with
                        | Some text => inr text
                        | None => inl (exhausted self)
                        end
              /\ calls (snd out) = calls w ++ logged messages (fst (go_through messages plan))
              /\ heap (snd out) = heap w /\ redis (snd out) = redis w
              /\ redis_up (snd out) = redis_up w).
  { unfold out, plan, generate_response, try_primary, attempts, exhausted, logged,
      bind, try_except, invoke, ret, raise.
    fold messages.
    destruct self as [[p |] [q |]]; destruct uf; cbn;
      try destruct (ainvoke p messages) as [e1 | t1] eqn:E1; cbn;
      try destruct (ainvoke q messages) as [e2 | t2] eqn:E2; cbn;
      rewrite <- ?app_assoc, ?app_nil_r; repeat split. }
  destruct R as (Rres & Rcalls & Rheap & Rredis & Rup).
  split; [exact Rres|]. split; [exact Rcalls|].
  split; [| split; [| split; [| split; [| auto]]]].
  - intros before slot p after text Hplan Hb Hp.
    rewrite Rres, Rcalls, Hplan, (go_through_first _ _ _ _ _ _ Hb Hp). split; reflexivity.
  - unfold raises. rewrite Rres, <- go_through_none.
    destruct (snd (go_through messages plan)); split.
    + intros [e He]. discriminate He.
    + discriminate.
    + reflexivity.
    + intros _. eexists. reflexivity.
  - unfold raises. rewrite Rres, Rcalls. intros [e He].
    destruct (snd (go_through messages plan)) eqn:E; [discriminate He|].
    apply go_through_none in E. rewrite (go_through_all _ _ E). reflexivity.
  - intros -> Hin. destruct (go_through_prefix messages plan) as [rest Hrest].
    assert (Hp : In PRIMARY (map fst plan)) by (rewrite Hrest; apply in_or_app; auto).
    unfold plan, attempts in Hp. destruct (fallback_llm self); cbn in Hp.
    + destruct Hp as [Hp | []]. discriminate Hp.
    + destruct Hp.
Qed.


(** A primary provider that fails and a secondary one that answers: the
    answer of the secondary one is returned, after one call to each. *)
Lemma generate_response_fails_over :
  let failing := {| ainvoke := fun _ => inl (Exception $"timeout") |} in
  let answering := {| ainvoke := fun _ => inr $"Call 911." |} in
  let self := {| primary_llm := Some failing; fallback_llm := Some answering |} in
  let w := {| heap := ∅; redis := ∅; redis_up := true; calls := [] |} : World Z in
  generate_response self $"system" $"user" false w
  = (inr $"Call 911.",
     with_calls (fun _ => [(PRIMARY, [SystemMessage $"system"; HumanMessage $"user"]);
                           (SECONDARY, [SystemMessage $"system"; HumanMessage $"user"])]) w)
  /\ fst (generate_response self $"system" $"user" true w) = inr $"Call 911."
  /\ fst (generate_response
            {| primary_llm := Some answering; fallback_llm := None |}
            $"system" $"user" true w)
     = inl (Exception $"No LLM providers available")
  /\ fst (generate_response
            {| primary_llm := Some failing; fallback_llm := Some failing |}
            $"system" $"user" false w)
     = inl (Exception $"All LLM providers failed").
Proof. repeat split. Qed.

End OrchestratorClaims.

(** ** The pipeline controller and the cache *)

Module PipelineFacts.
Import PyStr Models Runtime Prompts Routes.

Section WithCoord.
Context {coord : Type}.

(** A computation that leaves the cache entries as they are, whether it
    returns or raises. *)
Definition keeps_redis {A : Type} (m : Py coord A) : Prop :=
  forall w, redis (snd (m w)) = redis w.

Lemma keeps_ret {A : Type} (a : A) : keeps_redis (ret a).
Proof. intros w. reflexivity. Qed.

Lemma keeps_raise {A : Type} (e : Exn) : keeps_redis (@raise coord A e).
Proof. intros w. reflexivity. Qed.

Lemma keeps_bind {A B : Type} (m : Py coord A) (f : A -> Py coord B) :
  keeps_redis m -> (forall a, keeps_redis (f a)) -> keeps_redis (bind m f).
Proof.
  intros Hm Hf w. unfold bind. specialize (Hm w).
  destruct (m w) as [[e | a] w1]; cbn in *; [exact Hm|].
  rewrite (Hf a w1). exact Hm.
Qed.

Lemma keeps_try {A : Type} (m : Py coord A) (h : Exn -> Py coord A) :
  keeps_redis m -> (forall e, keeps_redis (h e)) -> keeps_redis (try_except m h).
Proof.
  intros Hm Hh w. unfold try_except. specialize (Hm w).
  destruct (m w) as [[e | a] w1]; cbn in *; [| exact Hm].
  rewrite (Hh e w1). exact Hm.
Qed.

Lemma keeps_read_context r : keeps_redis (@read_context coord r).
Proof. intros w. unfold read_context. destruct (heap w !! r) as [[]|]; reflexivity. Qed.

Lemma keeps_read_location r : keeps_redis (@read_location coord r).
Proof. intros w. unfold read_location. destruct (heap w !! r) as [[]|]; reflexivity. Qed.

Lemma keeps_read_medical r : keeps_redis (@read_medical coord r).
Proof. intros w. unfold read_medical. destruct (heap w !! r) as [[]|]; reflexivity. Qed.

Lemma keeps_alloc o : keeps_redis (@alloc coord o).
Proof. intros w. reflexivity. Qed.

Lemma keeps_write r o : keeps_redis (@write coord r o).
Proof. intros w. reflexivity. Qed.

Lemma keeps_invoke slot llm messages :
  keeps_redis (@Orchestrator.invoke coord slot llm messages).
Proof.
  intros w. unfold Orchestrator.invoke.
  destruct (Orchestrator.ainvoke llm messages); reflexivity.
Qed.

Lemma keeps_client_get key : keeps_redis (@RedisCache.client_get coord key).
Proof. intros w. unfold RedisCache.client_get. destruct (redis_up w); reflexivity. Qed.

(** Composite computations, by their shape. *)
Ltac keeps :=
  repeat first
    [ apply keeps_ret | apply keeps_raise | apply keeps_read_context
    | apply keeps_read_location | apply keeps_read_medical | apply keeps_alloc
    | apply keeps_write | apply keeps_invoke | apply keeps_client_get
    | apply keeps_bind; [| intros ?] | apply keeps_try; [| intros ?]
    | match goal with
      | |- keeps_redis (match ?x with _ => _ end) => destruct x
      | |- keeps_redis (when_ ?b _) => unfold when_; destruct b
      end ].

Lemma keeps_anonymize context : keeps_redis (@anonymize_emergency_context coord context).
Proof.
  unfold anonymize_emergency_context, model_copy_deep, set_description,
    set_additional_info, set_address, set_latitude, set_longitude, location_of.
  keeps.
Qed.

Lemma keeps_assessment_prompt context :
  keeps_redis (@create_assessment_prompt coord context).
Proof. unfold create_assessment_prompt. keeps. Qed.

Lemma keeps_first_aid_prompt context concern :
  keeps_redis (@create_first_aid_prompt coord context concern).
Proof. unfold create_first_aid_prompt. keeps. Qed.

Lemma keeps_generate_response self sp up uf :
  keeps_redis (@Orchestrator.generate_response coord self sp up uf).
Proof.
  unfold Orchestrator.generate_response, Orchestrator.try_primary. keeps.
Qed.

Lemma keeps_cache_get self key : keeps_redis (@RedisCache.get coord self key).
Proof. unfold RedisCache.get. keeps. Qed.

(** A computation that, when it raises, has stored nothing, and when it
    returns, returns a result of the model. *)
Definition stores_only_with_llm_result {R : Type} (m : Py coord (Source * R)) : Prop :=
  forall w,
    match m w with
    | (inl _, w') => redis w' = redis w
    | (inr (source, _), _) => source = FROM_LLM
    end.

Lemma stores_bind {A R : Type} (m : Py coord A) (f : A -> Py coord (Source * R)) :
  keeps_redis m -> (forall a, stores_only_with_llm_result (f a)) ->
  stores_only_with_llm_result (bind m f).
Proof.
  intros Hm Hf w. unfold bind. specialize (Hm w).
  destruct (m w) as [[e | a] w1]; cbn in *; [exact Hm|].
  specialize (Hf a w1). destruct (f a w1) as [[e | [s r]] w2]; [congruence | exact Hf].
Qed.

Lemma stores_raise {R : Type} (e : Exn) :
  stores_only_with_llm_result (@raise coord (Source * R) e).
Proof. intros w. reflexivity. Qed.

(** [RedisCache.set] does not raise. *)
Lemma cache_set_returns settings self key value ttl (w : World coord) :
  exists b w', RedisCache.set settings self key value ttl w = (inr b, w').
Proof.
  unfold RedisCache.set, RedisCache.client_setex, try_except, bind, ret.
  destruct (negb (RedisCache.enabled self) || negb (RedisCache.client self));
    [eauto|].
  destruct (redis_up w); eauto.
Qed.

Lemma stores_after_set {R : Type} settings self key value ttl (r : R) :
  stores_only_with_llm_result
    (RedisCache.set settings self key value ttl >> ret (FROM_LLM, r)).
Proof.
  intros w. unfold bind.
  destruct (cache_set_returns settings self key value ttl w) as (b & w' & ->).
  reflexivity.
Qed.

(** A computation whose fallback results come with the cache entries it
    started from. *)
Definition no_store_on_fallback {R : Type} (m : Py coord (Source * R)) : Prop :=
  forall w r w', m w = (inr (FROM_FALLBACK, r), w') -> redis w' = redis w.

Lemma no_store_bind {A R : Type} (m : Py coord A) (f : A -> Py coord (Source * R)) :
  keeps_redis m -> (forall a, no_store_on_fallback (f a)) ->
  no_store_on_fallback (bind m f).
Proof.
  intros Hm Hf w r w'. unfold bind. specialize (Hm w).
  destruct (m w) as [[e | a] w1]; cbn in *; [discriminate|].
  intros H. rewrite (Hf a w1 r w' H). exact Hm.
Qed.

Lemma no_store_try {R : Type} (m : Py coord (Source * R)) (h : Exn -> Py coord (Source * R)) :
  stores_only_with_llm_result m -> (forall e, keeps_redis (h e)) ->
  no_store_on_fallback (try_except m h).
Proof.
  intros Hm Hh w r w'. unfold try_except. specialize (Hm w).
  destruct (m w) as [[e | [s a]] w1].
  - intros H. specialize (Hh e w1). rewrite H in Hh. cbn in Hh. congruence.
  - intros H. inversion H; subst. discriminate.
Qed.

Lemma no_store_http_guard {R : Type} msg (m : Py coord (Source * R)) :
  no_store_on_fallback m -> no_store_on_fallback (http_guard msg m).
Proof.
  intros Hm w r w'. unfold http_guard, try_except. specialize (Hm w).
  destruct (m w) as [[e | a] w1].
  - destruct e; cbn; discriminate.
  - intros H. inversion H; subst. eapply Hm. reflexivity.
Qed.

Lemma no_store_ret_cache {R : Type} (r : R) :
  no_store_on_fallback (@ret coord _ (FROM_CACHE, r)).
Proof. intros w r' w' H. inversion H. Qed.

Lemma no_store_raise {R : Type} e :
  no_store_on_fallback (@raise coord (Source * R) e).
Proof. intros w r' w' H. inversion H. Qed.

Lemma assess_emergency_no_store settings cache orchestrator request :
  no_store_on_fallback (@assess_emergency coord settings cache orchestrator request).
Proof.
  unfold assess_emergency.
  apply no_store_http_guard.
  apply no_store_bind;
    [unfold anonymized_or_same; destruct (RedisCache.ENABLE_PII_ANONYMIZATION _);
     [apply keeps_anonymize | apply keeps_ret] | intros anonymized_context].
  apply no_store_bind; [apply keeps_read_context | intros ac].
  apply no_store_bind; [apply keeps_cache_get | intros [[d | d] |]].
  - apply no_store_ret_cache.
  - apply no_store_raise.
  - apply no_store_try.
    + apply stores_bind; [apply keeps_assessment_prompt | intros user_prompt].
      apply stores_bind; [apply keeps_generate_response | intros llm_response].
      destruct (negb _); [apply stores_raise|].
      apply stores_bind; [apply keeps_read_context | intros ac'].
      apply stores_after_set.
    + intros e. destruct (RedisCache.ENABLE_FALLBACK_RESPONSES _); keeps.
Qed.

Lemma first_aid_no_store settings cache orchestrator request concern :
  no_store_on_fallback
    (@get_first_aid_guidance coord settings cache orchestrator request concern).
Proof.
  unfold get_first_aid_guidance.
  apply no_store_http_guard.
  apply no_store_bind;
    [unfold anonymized_or_same; destruct (RedisCache.ENABLE_PII_ANONYMIZATION _);
     [apply keeps_anonymize | apply keeps_ret] | intros anonymized_context].
  apply no_store_bind; [apply keeps_read_context | intros ac].
  apply no_store_bind; [apply keeps_cache_get | intros [[d | d] |]].
  - apply no_store_raise.
  - apply no_store_ret_cache.
  - apply no_store_try.
    + apply stores_bind; [apply keeps_first_aid_prompt | intros user_prompt].
      apply stores_bind; [apply keeps_generate_response | intros llm_response].
      destruct (negb _); [apply stores_raise|].
      apply stores_bind; [apply keeps_read_context | intros ac'].
      apply stores_after_set.
    + intros e. destruct (RedisCache.ENABLE_FALLBACK_RESPONSES _); keeps.
Qed.

End WithCoord.
End PipelineFacts.

Section PipelineClaims.
Import PyStr Models Runtime Routes PipelineFacts.

(** C9. Whenever a request is answered from the fallback knowledge base,
    the cache entries after the request are those before it (and so those
    before the orchestrator stage, as the lookup stores nothing): no
    fallback result is stored.  This holds for the assessment handler and
    for the first-aid handler, whatever the settings, the cache object,
    the providers and the state. *)
Theorem fallback_result_leaves_cache_unchanged :
  forall (coord : Type) (settings : RedisCache.Settings) (cache : RedisCache.RedisCache)
         (orchestrator : Orchestrator.LLMOrchestrator) (request : ref)
         (specific_concern : option str) (w : World coord),
    (forall response w',
        assess_emergency settings cache orchestrator request w
        = (inr (FROM_FALLBACK, response), w') ->
        redis w' = redis w)
    /\ (forall response w',
           get_first_aid_guidance settings cache orchestrator request specific_concern w
           = (inr (FROM_FALLBACK, response), w') ->
           redis w' = redis w).
Proof.
  intros coord settings cache orchestrator request concern w. split.
  - intros response w'. apply assess_emergency_no_store.
  - intros response w'. apply first_aid_no_store.
Qed.

(** Both outcomes are reached.  A request held at reference 1, an empty
    cache that is up, every setting on. *)
Definition request_context : EmergencyContext :=
  {| emergency_id := $"123"; emergency_type := MEDICAL;
     description := $"John Doe fell at 123 Main Street. Call 555-123-4567.";
     location := None; medical_profile := None; timestamp := 0;
     additional_info := None |}.

Definition request_world : World Z :=
  {| heap := <[1%positive := OContext request_context]> ∅;
     redis := ∅; redis_up := true; calls := [] |}.

Definition all_on : RedisCache.Settings :=
  {| RedisCache.CACHE_TTL := 3600; RedisCache.ENABLE_CACHING := true;
     RedisCache.ENABLE_PII_ANONYMIZATION := true;
     RedisCache.ENABLE_FALLBACK_RESPONSES := true |}.

Definition live_cache : RedisCache.RedisCache :=
  {| RedisCache.client := true; RedisCache.enabled := true |}.

Definition no_providers : Orchestrator.LLMOrchestrator :=
  {| Orchestrator.primary_llm := None; Orchestrator.fallback_llm := None |}.

Definition answering (content : str) : Orchestrator.LLMOrchestrator :=
  {| Orchestrator.primary_llm := Some {| Orchestrator.ainvoke := fun _ => inr content |};
     Orchestrator.fallback_llm := None |}.

Definition source_and_keys {A : Type} (out : (Exn + Source * A) * World Z)
  : option Source * list str :=
  (match fst out with inr (source, _) => Some source | inl _ => None end,
   fst <$> map_to_list (redis (snd out))).

(** With no provider the two handlers answer from the knowledge base and
    the cache stays empty. *)
Lemma fallback_path_reached :
  source_and_keys (assess_emergency all_on live_cache no_providers 1%positive request_world)
  = (Some FROM_FALLBACK, [])
  /\ source_and_keys
       (get_first_aid_guidance all_on live_cache no_providers 1%positive None request_world)
     = (Some FROM_FALLBACK, []).
Proof. split; vm_compute; reflexivity. Qed.

(** With a provider whose answer passes validation, the result is stored
    under the key of the anonymized description. *)
Lemma llm_path_stores :
  source_and_keys
    (assess_emergency all_on live_cache
       (answering $"Severity Level: HIGH. Call 911 now. This is not a substitute for professional medical advice.")
       1%positive request_world)
  = (Some FROM_LLM, [$"llm:assessment:52e48092c5be8418bf1c0537c4a4c4b3"]).
Proof. vm_compute. reflexivity. Qed.

End PipelineClaims.

(** ** The anonymizer on objects *)

Module HeapFacts.
Import PyStr Models Runtime.

Section WithCoord.
Context {coord : Type}.

(** What a context holds: its fields and the objects its two references
    lead to. *)
Definition snapshot (h : gmap ref (Obj coord)) (r : ref)
  : option (EmergencyContext * option (Obj coord) * option (Obj coord)) :=
  match h !! r with
  | Some (OContext c) =>
      Some (c,
            match location c with Some l => h !! l | None => None end,
            match medical_profile c with Some m => h !! m | None => None end)
  | _ => None
  end.

(** The location of the anonymized copy. *)
Definition anonymized_location (lv : Location coord) : Location coord :=
  {| latitude := None; longitude := None;
     address := if truthy_opt (address lv) then Some $"[ADDRESS]" else address lv;
     city := city lv; country := country lv |}.

Definition anonymized_object (o : Obj coord) : Obj coord :=
  match o with
  | OLocation lv => OLocation (anonymized_location lv)
  | other => other
  end.

(** The fields of the anonymized copy, given its two references. *)
Definition anonymized_fields (c : EmergencyContext) (l' m' : option ref)
  : EmergencyContext :=
  {| emergency_id := emergency_id c; emergency_type := emergency_type c;
     description := Anonymizer.anonymize_text (description c);
     location := l'; medical_profile := m'; timestamp := timestamp c;
     additional_info :=
       if truthy_opt (additional_info c)
       then Some (Anonymizer.anonymize_text (default [] (additional_info c)))
       else additional_info c |}.

Lemma run_bind {A B : Type} (m : Py coord A) (f : A -> Py coord B) w a w1 :
  m w = (inr a, w1) -> bind m f w = f a w1.
Proof. intros H. unfold bind. rewrite H. reflexivity. Qed.

Lemma run_read_context (w : World coord) r c :
  heap w !! r = Some (OContext c) -> read_context r w = (inr c, w).
Proof. intros H. unfold read_context. rewrite H. reflexivity. Qed.

Lemma run_read_location (w : World coord) r l :
  heap w !! r = Some (OLocation l) -> read_location r w = (inr l, w).
Proof. intros H. unfold read_location. rewrite H. reflexivity. Qed.

Lemma run_read_medical (w : World coord) r m :
  heap w !! r = Some (OMedical m) -> read_medical r w = (inr m, w).
Proof. intros H. unfold read_medical. rewrite H. reflexivity. Qed.

Lemma fresh_free (h : gmap ref (Obj coord)) : h !! fresh (dom h) = None.
Proof. apply not_elem_of_dom, is_fresh. Qed.

(** The state after [n] allocations and writes that touch only
    references the first heap does not have. *)
Definition grown (h : gmap ref (Obj coord)) (w w' : World coord) : Prop :=
  (forall r o, h !! r = Some o -> heap w' !! r = Some o)
  /\ redis w' = redis w /\ redis_up w' = redis_up w /\ calls w' = calls w.

Lemma grown_refl (w : World coord) : grown (heap w) w w.
Proof. repeat split; auto. Qed.

Lemma grown_insert h (w w' : World coord) r o :
  grown h w w' -> h !! r = None -> grown h w (with_heap (insert r o) w').
Proof.
  intros (F & A & B & C) Hr. repeat split; cbn; auto.
  intros r' o' H. rewrite lookup_insert_ne; [auto|]. intros ->. congruence.
Qed.

End WithCoord.
End HeapFacts.

Module HeapExec.
Import PyStr Models Runtime HeapFacts.

(** Symbolic execution of a computation on the heap: name the reference
    an allocation returns, with what its freshness tells; resolve the
    lookups; split on the truth tests. *)
Ltac name_fresh :=
  match goal with
  | |- context [fresh (dom ?h)] =>
      lazymatch h with context [fresh _] => fail | _ => idtac end;
      let F := fresh "F" in
      let r := fresh "r" in
      pose proof (fresh_free h) as F;
      set (r := fresh (dom h)) in *; clearbody r;
      cbn beta iota delta [heap with_heap] in F;
      repeat (rewrite lookup_insert_None in F;
              let D := fresh "D" in destruct F as [F D])
  end.

Ltac distinct := solve [ congruence | intros ->; congruence | intros <-; congruence ].

Ltac lookups :=
  repeat first
    [ rewrite lookup_insert_eq
    | rewrite lookup_insert_ne by distinct
    | match goal with
      | H : ?h !! ?x = Some _ |- context [?h !! ?x] => rewrite H
      | H : location ?c = _ |- context [location ?c] => rewrite H
      | H : medical_profile ?c = _ |- context [medical_profile ?c] => rewrite H
      end ].

Ltac heap_step :=
  unfold bind, ret, alloc, write, read_context, read_location, read_medical,
    when_, raise, location_of, set_description, set_additional_info, set_address,
    set_latitude, set_longitude;
  cbn beta iota zeta delta
    [heap redis redis_up calls with_heap fst snd
     emergency_id emergency_type description location medical_profile timestamp
     additional_info latitude longitude address city country];
  lookups.

Ltac heap_exec :=
  repeat (heap_step; try name_fresh;
          try match goal with
            | |- context [truthy_opt ?x] => destruct (truthy_opt x) eqn:?
            end).

End HeapExec.

Section AnonymizerObjectClaims.
Import PyStr Models Runtime HeapFacts HeapExec.

(** C5. For every emergency context whose references lead to a location
    and a medical profile, [anonymize_emergency_context] returns, without
    raising, a reference to a new object, distinct from the context, whose
    location and medical profile are new objects too; every object that
    existed before is as it was, so the original context still has every
    one of its fields (identifier, category, description, location with
    coordinates and address, medical profile, additional information,
    timestamp); the copy holds the same values with the description and
    the additional information anonymized, the address replaced and the
    coordinates cleared; the cache and the call log are untouched. *)
Theorem anonymize_emergency_context_leaves_original :
  forall (coord : Type) (w : World coord) (context : ref) (c : EmergencyContext),
    heap w !! context = Some (OContext c) ->
    (forall l, location c = Some l -> exists lv, heap w !! l = Some (OLocation lv)) ->
    (forall m, medical_profile c = Some m -> exists mv, heap w !! m = Some (OMedical mv)) ->
    exists (anonymized : ref) (w' : World coord) (l' m' : option ref),
      anonymize_emergency_context context w = (inr anonymized, w')
      /\ anonymized <> context
      /\ heap w !! anonymized = None
      /\ (forall x, l' = Some x -> heap w !! x = None)
      /\ (forall x, m' = Some x -> heap w !! x = None)
      /\ (forall x o, heap w !! x = Some o -> heap w' !! x = Some o)
      /\ snapshot (heap w') context = snapshot (heap w) context
      /\ snapshot (heap w') anonymized
         = Some (anonymized_fields c l' m',
                 anonymized_object
                   <$> match location c with Some l => heap w !! l | None => None end,
                 match medical_profile c with Some m => heap w !! m | None => None end)
      /\ redis w' = redis w /\ redis_up w' = redis_up w /\ calls w' = calls w.
Proof.
  intros coord w context c Hc Hl Hm.
  unfold anonymize_emergency_context, model_copy_deep.
  destruct (location c) as [l |] eqn:El; [destruct (Hl l eq_refl) as [lv Hlv] |];
    (destruct (medical_profile c) as [m |] eqn:Em;
     [destruct (Hm m eq_refl) as [mv Hmv] |]);
    clear Hl Hm; heap_exec.
  all: match goal with
       | |- exists a w' l' m', (inr ?r, ?W) = _ /\ _ =>
           match W with
           | context [Build_EmergencyContext _ _ _ ?lo ?mo _ _] =>
               exists r, W, lo, mo
           end
       end.
  all: split; [reflexivity|].
  all: split; [distinct|].
  all: split; [assumption|].
  all: split; [intros x [= <-]; assumption || (intros x; discriminate)|].
  all: split; [intros x [= <-]; assumption || (intros x; discriminate)|].
  all: split; [intros x o Hx; cbn [heap with_heap]; lookups; first [reflexivity | exact Hx]|].
  all: split; [unfold snapshot; cbn [heap with_heap]; lookups; reflexivity|].
  all: split; [| repeat split].
  all: unfold snapshot, anonymized_fields, anonymized_location; cbn [heap with_heap];
    lookups;
    cbn beta iota zeta delta
      [emergency_id emergency_type description location medical_profile timestamp
       additional_info latitude longitude address city country fmap option_fmap
       option_map anonymized_object];
    lookups; unfold anonymized_location;
    repeat match goal with
      | H : truthy_opt _ = _ |- _ => rewrite H
      end;
    reflexivity.
Qed.

End AnonymizerObjectClaims.

Section AnonymizerObjectWitness.
Import PyStr Models Runtime HeapFacts.

Definition witness_context : EmergencyContext :=
  {| emergency_id := $"123"; emergency_type := MEDICAL;
     description := $"John Doe fell at 123 Main Street. Call 555-123-4567.";
     location := Some 2%positive; medical_profile := None; timestamp := 0;
     additional_info := None |}.

Definition witness_location : Location Z :=
  {| latitude := Some 377749%Z; longitude := Some (-1224194)%Z;
     address := Some $"123 Main Street"; city := Some $"San Francisco";
     country := None |}.

Definition witness_world : World Z :=
  {| heap := <[1%positive := OContext witness_context]>
               (<[2%positive := OLocation witness_location]> ∅);
     redis := ∅; redis_up := true; calls := [] |}.

(** The statement of C5 at a context with a location, held at reference
    1 of a heap of two objects. *)
Lemma anonymize_emergency_context_leaves_original_witness :
  exists (anonymized : ref) (w' : World Z) (l' m' : option ref),
    anonymize_emergency_context 1%positive witness_world = (inr anonymized, w')
    /\ anonymized <> 1%positive
    /\ heap witness_world !! anonymized = None
    /\ (forall x, l' = Some x -> heap witness_world !! x = None)
    /\ (forall x, m' = Some x -> heap witness_world !! x = None)
    /\ (forall x o, heap witness_world !! x = Some o -> heap w' !! x = Some o)
    /\ snapshot (heap w') 1%positive = snapshot (heap witness_world) 1%positive
    /\ snapshot (heap w') anonymized
       = Some (anonymized_fields witness_context l' m',
               anonymized_object
                 <$> match location witness_context with
                     | Some l => heap witness_world !! l
                     | None => None
                     end,
               match medical_profile witness_context with
               | Some m => heap witness_world !! m
               | None => None
               end)
    /\ redis w' = redis witness_world /\ redis_up w' = redis_up witness_world
    /\ calls w' = calls witness_world.
Proof.
  apply (anonymize_emergency_context_leaves_original Z witness_world 1%positive
           witness_context).
  - reflexivity.
  - intros l [= <-]. exists witness_location. reflexivity.
  - intros m H. discriminate H.
Defined.

End AnonymizerObjectWitness.

(** ** The cache key *)

Module CacheKeyFacts.
Import PyStr CacheKey.

Lemma code_inj a b : code a = code b -> a = b.
Proof.
  unfold code. intros H.
  rewrite <- (ascii_N_embedding a), <- (ascii_N_embedding b), H. reflexivity.
Qed.

Lemma str_compare_eq a b : str_compare a b = Eq -> a = b.
Proof.
  revert b. induction a as [| x a IH]; intros [| y b]; cbn; try discriminate; auto.
  destruct (N.compare (code x) (code y)) eqn:E; try discriminate.
  intros H. apply N.compare_eq in E. apply code_inj in E. rewrite (IH _ H), E.
  reflexivity.
Qed.

Lemma str_compare_refl a : str_compare a a = Eq.
Proof. induction a as [| x a IH]; cbn; [reflexivity|]. rewrite N.compare_refl. exact IH. Qed.

Lemma str_compare_antisym a b : str_compare b a = CompOpp (str_compare a b).
Proof.
  revert b. induction a as [| x a IH]; intros [| y b]; cbn; try reflexivity.
  rewrite (N.compare_antisym (code x) (code y)).
  destruct (N.compare (code x) (code y)); cbn; auto.
Qed.

Lemma str_compare_lt_trans a b c :
  str_compare a b = Lt -> str_compare b c = Lt -> str_compare a c = Lt.
Proof.
  revert b c. induction a as [| x a IH]; intros [| y b] [| z c]; cbn;
    try discriminate; auto.
  destruct (N.compare (code x) (code y)) eqn:E1; try discriminate;
    destruct (N.compare (code y) (code z)) eqn:E2; try discriminate; intros H1 H2.
  - apply N.compare_eq in E1, E2. rewrite E1, E2, N.compare_refl. eapply IH; eauto.
  - apply N.compare_eq in E1. rewrite E1, E2. reflexivity.
  - apply N.compare_eq in E2. rewrite <- E2, E1. reflexivity.
  - rewrite N.compare_lt_iff in E1, E2.
    assert (E : (code x ?= code z)%N = Lt) by (apply N.compare_lt_iff; lia).
    rewrite E. reflexivity.
Qed.

Lemma item_compare_eq p q : item_compare p q = Eq -> p = q.
Proof.
  destruct p as [a b], q as [a' b']. unfold item_compare. cbn.
  destruct (str_compare a a') eqn:E; try discriminate.
  intros H. rewrite (str_compare_eq _ _ E), (str_compare_eq _ _ H). reflexivity.
Qed.

Lemma item_compare_antisym p q : item_compare q p = CompOpp (item_compare p q).
Proof.
  destruct p as [a b], q as [a' b']. unfold item_compare. cbn.
  rewrite (str_compare_antisym a a').
  destruct (str_compare a a'); cbn; auto. apply str_compare_antisym.
Qed.

Lemma item_compare_lt_trans p q r :
  item_compare p q = Lt -> item_compare q r = Lt -> item_compare p r = Lt.
Proof.
  destruct p as [a b], q as [a' b'], r as [a'' b'']. unfold item_compare. cbn.
  destruct (str_compare a a') eqn:E1; try discriminate;
    destruct (str_compare a' a'') eqn:E2; try discriminate; intros H1 H2.
  - apply str_compare_eq in E1, E2. subst. rewrite str_compare_refl.
    eapply str_compare_lt_trans; eauto.
  - apply str_compare_eq in E1. subst. rewrite E2. reflexivity.
  - apply str_compare_eq in E2. subst. rewrite E1. reflexivity.
  - rewrite (str_compare_lt_trans _ _ _ E1 E2). reflexivity.
Qed.

#[global] Instance item_le_total : Total item_le.
Proof.
  intros p q. unfold item_le. rewrite (item_compare_antisym p q).
  destruct (item_compare p q); cbn; [left | left | right]; discriminate.
Qed.

#[global] Instance item_le_antisymm : AntiSymm (=) item_le.
Proof.
  intros p q. unfold item_le. rewrite (item_compare_antisym p q).
  destruct (item_compare p q) eqn:E; cbn; intros H1 H2; try congruence.
  apply item_compare_eq, E.
Qed.

#[global] Instance item_le_trans : Transitive item_le.
Proof.
  intros p q r. unfold item_le.
  destruct (item_compare p q) eqn:E1; intros H1; try congruence;
    destruct (item_compare q r) eqn:E2; intros H2; try congruence.
  - apply item_compare_eq in E1. subst. congruence.
  - apply item_compare_eq in E1. subst. congruence.
  - apply item_compare_eq in E2. subst. congruence.
  - rewrite (item_compare_lt_trans _ _ _ E1 E2). discriminate.
Qed.

(** The sorted items do not depend on the order of insertion. *)
Lemma sorted_permutation l1 l2 : l1 ≡ₚ l2 -> sorted l1 = sorted l2.
Proof.
  intros H. unfold sorted.
  apply (Sorted_unique item_le); try apply Sorted_merge_sort; try apply _.
  rewrite !merge_sort_Permutation. exact H.
Qed.

Definition is_hex (c : ascii) : Prop := In c $"0123456789abcdef".

Lemma hex_digit_is_hex n : is_hex (MD5.hex_digit n).
Proof.
  unfold MD5.hex_digit, is_hex.
  destruct (nth_in_or_default (Z.to_nat n) $"0123456789abcdef" "0"%char) as [H | ->];
    [exact H | left; reflexivity].
Qed.

(** The digest is printed on 32 hexadecimal digits. *)
Lemma hexdigest_width msg :
  length (MD5.hexdigest msg) = 32 /\ Forall is_hex (MD5.hexdigest msg).
Proof.
  unfold MD5.hexdigest, MD5.digest.
  destruct (fold_left MD5.compress _ MD5.INIT) as [[[a b] c] d].
  split; [reflexivity|].
  cbn [MD5.word_bytes app map concat MD5.hex_byte].
  repeat (apply Forall_cons; split; [apply hex_digit_is_hex|]).
  apply Forall_nil. exact I.
Qed.

End CacheKeyFacts.

Section CacheKeyClaims.
Import PyStr CacheKey CacheKeyFacts.

(** C3. For every namespace and every two listings of the same
    name/value pairs, in any order, [_generate_cache_key] gives the same
    key; and the key is [llm:], the namespace, [:] and a digest of 32
    hexadecimal digits. *)
Theorem cache_key_order_independent :
  forall (prefix : str) (kwargs kwargs' : list (str * str)),
    kwargs ≡ₚ kwargs' ->
    _generate_cache_key prefix kwargs = _generate_cache_key prefix kwargs'
    /\ exists digest : str,
        _generate_cache_key prefix kwargs = $"llm:" ++ prefix ++ $":" ++ digest
        /\ length digest = 32
        /\ Forall is_hex digest.
Proof.
  intros prefix kwargs kwargs' H. unfold _generate_cache_key.
  rewrite (sorted_permutation _ _ H). split; [reflexivity|].
  eexists. split; [reflexivity|]. apply hexdigest_width.
Qed.

(** C3 at the fields of an assessment key, given in the two orders. *)
Lemma cache_key_order_independent_witness :
  _generate_cache_key $"assessment" [($"type", $"medical"); ($"desc", $"chest pain")]
  = _generate_cache_key $"assessment" [($"desc", $"chest pain"); ($"type", $"medical")]
  /\ exists digest : str,
      _generate_cache_key $"assessment" [($"type", $"medical"); ($"desc", $"chest pain")]
      = $"llm:" ++ $"assessment" ++ $":" ++ digest
      /\ length digest = 32
      /\ Forall is_hex digest.
Proof.
  apply (cache_key_order_independent $"assessment"
           [($"type", $"medical"); ($"desc", $"chest pain")]
           [($"desc", $"chest pain"); ($"type", $"medical")]).
  apply perm_swap.
Defined.

End CacheKeyClaims.

(** ** What the matcher computes *)

Module ReFacts.
Import PyStr Re.

(** Whether the last character read is a word character, after reading
    [u] from a position whose previous character had status [pw]. *)
Definition last_word (pw : bool) (u : str) : bool :=
  fold_left (fun _ ch => is_word ch) u pw.

(** Whether the next character is a word character, when [v] is followed
    by a text whose first character has status [nxt]. *)
Definition next_word (v : str) (nxt : bool) : bool :=
  match v with
  | [] => nxt
  | ch :: _ => is_word ch
  end.

(** [M r pw u nxt]: the pattern [r] matches the text [u] placed after a
    character of status [pw] and before a character of status [nxt]. *)
Inductive M : regex -> bool -> str -> bool -> Prop :=
| M_eps pw nxt : M Eps pw [] nxt
| M_cls p a pw nxt : p a = true -> M (Cls p) pw [a] nxt
| M_cat a b pw u v nxt :
    M a pw u (next_word v nxt) -> M b (last_word pw u) v nxt ->
    M (Cat a b) pw (u ++ v) nxt
| M_alt_l a b pw u nxt : M a pw u nxt -> M (Alt a b) pw u nxt
| M_alt_r a b pw u nxt : M b pw u nxt -> M (Alt a b) pw u nxt
| M_star_nil a pw nxt : M (Star a) pw [] nxt
| M_star_cons a pw u v nxt :
    u <> [] -> M a pw u (next_word v nxt) -> M (Star a) (last_word pw u) v nxt ->
    M (Star a) pw (u ++ v) nxt
| M_bnd pw nxt : xorb pw nxt = true -> M Bnd pw [] nxt.

Lemma last_word_app pw u v : last_word pw (u ++ v) = last_word (last_word pw u) v.
Proof. unfold last_word. apply fold_left_app. Qed.

Lemma head_word_app v s : head_word (v ++ s) = next_word v (head_word s).
Proof. destruct v; reflexivity. Qed.

Lemma next_word_app u v nxt : next_word (u ++ v) nxt = next_word u (next_word v nxt).
Proof. destruct u; reflexivity. Qed.

(** Every result of the matcher is a match. *)
Lemma star_loop_sound a
  (IH : forall pw s k x, run a (pw, s) k = Some x ->
        exists u s', s = u ++ s' /\ M a pw u (head_word s')
                     /\ k (last_word pw u, s') = Some x) :
  forall fuel pw s k x,
    star_loop (run a) fuel (pw, s) k = Some x ->
    exists u s', s = u ++ s' /\ M (Star a) pw u (head_word s')
                 /\ k (last_word pw u, s') = Some x.
Proof.
  induction fuel as [| f IHf]; intros pw s k x H; cbn [star_loop snd] in H.
  - exists [], s. repeat split; [constructor | exact H].
  - destruct (run a (pw, s) _) as [y |] eqn:E.
    + inversion H; subst y; clear H.
      apply IH in E. destruct E as (u & s1 & -> & Hu & E). cbn [snd] in E.
      destruct (length s1 <? length (u ++ s1))%nat eqn:L; [| discriminate E].
      apply IHf in E. destruct E as (v & s' & -> & Hv & E).
      exists (u ++ v), s'. rewrite <- app_assoc, last_word_app.
      repeat split; [| exact E].
      apply M_star_cons; [| rewrite <- head_word_app; exact Hu | exact Hv].
      intros ->. apply Nat.ltb_lt in L. cbn in L. lia.
    + exists [], s. repeat split; [constructor | exact H].
Qed.

Lemma run_sound r :
  forall pw s k x,
    run r (pw, s) k = Some x ->
    exists u s', s = u ++ s' /\ M r pw u (head_word s')
                 /\ k (last_word pw u, s') = Some x.
Proof.
  induction r as [| p | a IHa b IHb | a IHa b IHb | a IHa |]; intros pw s k x H;
    cbn [run snd] in H.
  - exists [], s. repeat split; [constructor | exact H].
  - destruct s as [| c t]; [discriminate H|].
    destruct (p c) eqn:Hp; [| discriminate H].
    exists [c], t. repeat split; [constructor; exact Hp | exact H].
  - apply IHa in H. destruct H as (u & s1 & -> & Hu & H).
    apply IHb in H. destruct H as (v & s' & -> & Hv & H).
    exists (u ++ v), s'. rewrite <- app_assoc, last_word_app.
    repeat split; [| exact H].
    constructor; [rewrite <- head_word_app; exact Hu | exact Hv].
  - destruct (run a (pw, s) k) as [y |] eqn:E.
    + inversion H; subst y. apply IHa in E. destruct E as (u & s' & -> & Hu & E).
      exists u, s'. repeat split; [apply M_alt_l; exact Hu | exact E].
    + apply IHb in H. destruct H as (u & s' & -> & Hu & E').
      exists u, s'. repeat split; [apply M_alt_r; exact Hu | exact E'].
  - eapply star_loop_sound; eauto.
  - unfold at_boundary in H. cbn in H.
    destruct (xorb pw (head_word s)) eqn:B; [| discriminate H].
    exists [], s. repeat split; [constructor; exact B | exact H].
Qed.

(** Every match is found, as far as finding one goes: when what follows
    accepts the position after a match, the matcher returns a result. *)
Definition found (r : regex) (pw : bool) (u s' : str) (k : kont) : Prop :=
  is_Some (run r (pw, u ++ s') k)
  /\ match r with
     | Star a =>
         forall fuel, length (u ++ s') <= fuel ->
                      is_Some (star_loop (run a) fuel (pw, u ++ s') k)
     | _ => True
     end.

Lemma run_complete r pw u nxt :
  M r pw u nxt ->
  forall s' k, nxt = head_word s' -> is_Some (k (last_word pw u, s')) ->
               found r pw u s' k.
Proof.
  induction 1 as [pw nxt | p a pw nxt Hp | a b pw u v nxt Ha IHa Hb IHb
                 | a b pw u nxt Ha IHa | a b pw u nxt Hb IHb | a pw nxt
                 | a pw u v nxt Hne Ha IHa Hs IHs | pw nxt B];
    intros s' k -> Hk; unfold found.
  - split; [exact Hk | exact I].
  - split; [| exact I]. cbn. rewrite Hp. exact Hk.
  - split; [| exact I]. cbn [run]. rewrite <- app_assoc.
    apply IHa; [symmetry; apply head_word_app|].
    apply IHb; [reflexivity|]. rewrite <- last_word_app. exact Hk.
  - split; [| exact I]. cbn [run].
    destruct (IHa s' k eq_refl Hk) as [[y ->] _]. eauto.
  - split; [| exact I]. cbn [run].
    destruct (run a (pw, u ++ s') k); [eauto|].
    apply IHb; auto.
  - assert (F : forall fuel, is_Some (star_loop (run a) fuel (pw, [] ++ s') k)).
    { intros [| f]; cbn; [exact Hk|].
      destruct (run a (pw, s') _); [eauto | exact Hk]. }
    split; [apply F | intros fuel _; apply F].
  - assert (F : forall fuel, length ((u ++ v) ++ s') <= fuel ->
                             is_Some (star_loop (run a) fuel (pw, (u ++ v) ++ s') k)).
    { intros fuel Hf. rewrite <- app_assoc in *.
      destruct fuel as [| f];
        [destruct u; [congruence | cbn in Hf; lia]|].
      cbn [star_loop].
      match goal with
      | |- is_Some (match ?e with _ => _ end) =>
          assert (E : is_Some e); [| destruct E as [y ->]; eauto]
      end.
      apply IHa; [symmetry; apply head_word_app|].
      cbn [snd].
      assert (L : (length (v ++ s') <? length (u ++ v ++ s'))%nat = true).
      { apply Nat.ltb_lt. rewrite (length_app u). destruct u; [congruence | cbn; lia]. }
      rewrite L.
      apply (IHs s' k eq_refl); [rewrite <- last_word_app; exact Hk|].
      rewrite (length_app u) in Hf. destruct u; [congruence | cbn in Hf; lia]. }
    split; [apply F; reflexivity | exact F].
  - split; [| exact I]. cbn. unfold at_boundary. cbn. rewrite B. exact Hk.
Qed.

Lemma match_at_sound r pw s pw' rest :
  match_at r (pw, s) = Some (pw', rest) ->
  exists u, s = u ++ rest /\ M r pw u (head_word rest) /\ pw' = last_word pw u.
Proof.
  intros H. apply run_sound in H. destruct H as (u & s' & -> & Hu & E).
  inversion E; subst. eauto.
Qed.

Lemma match_at_complete r pw u rest :
  M r pw u (head_word rest) -> is_Some (match_at r (pw, u ++ rest)).
Proof.
  intros H. apply (run_complete _ _ _ _ H rest Some eq_refl). eauto.
Qed.

Lemma match_at_none r pw u rest :
  match_at r (pw, u ++ rest) = None -> ~ M r pw u (head_word rest).
Proof.
  intros E H. destruct (match_at_complete _ _ _ _ H) as [y Hy]. congruence.
Qed.

End ReFacts.

(** ** Checks on patterns, decided by computation *)

Module ReChecks.
Import PyStr Re ReFacts.

Definition all_chars : list ascii := map ascii_of_nat (seq 0 256).

Lemma in_all_chars a : In a all_chars.
Proof.
  unfold all_chars. rewrite <- (ascii_nat_embedding a).
  apply in_map, in_seq. pose proof (nat_ascii_bounded a). lia.
Qed.

(** Every character of the class [p] is in the class [q]. *)
Definition cls_sub (p q : ascii -> bool) : bool :=
  forallb (fun a => implb (p a) (q a)) all_chars.

Lemma cls_sub_sound p q a : cls_sub p q = true -> p a = true -> q a = true.
Proof.
  unfold cls_sub. rewrite forallb_forall. intros H Hp.
  specialize (H a (in_all_chars a)). rewrite Hp in H. exact H.
Qed.

(** All the characters a match reads are in [q]. *)
Fixpoint chars_in (q : ascii -> bool) (r : regex) : bool :=
  match r with
  | Cls p => cls_sub p q
  | Cat a b | Alt a b => chars_in q a && chars_in q b
  | Star a => chars_in q a
  | Eps | Bnd => true
  end.

(** No match is empty. *)
Fixpoint nonempty (r : regex) : bool :=
  match r with
  | Cls _ => true
  | Cat a b => nonempty a || nonempty b
  | Alt a b => nonempty a && nonempty b
  | Star _ | Eps | Bnd => false
  end.

(** The first character of a match, when it has one, is in [q]. *)
Fixpoint first_in (q : ascii -> bool) (r : regex) : bool :=
  match r with
  | Cls p => cls_sub p q
  | Cat a b => first_in q a && (nonempty a || first_in q b)
  | Alt a b => first_in q a && first_in q b
  | Star a => first_in q a
  | Eps | Bnd => true
  end.

(** The last character of a match, when it has one, is in [q]. *)
Fixpoint last_in (q : ascii -> bool) (r : regex) : bool :=
  match r with
  | Cls p => cls_sub p q
  | Cat a b => last_in q b && (nonempty b || last_in q a)
  | Alt a b => last_in q a && last_in q b
  | Star a => last_in q a
  | Eps | Bnd => true
  end.

(** The body of a pattern of the form [\b body \b]. *)
Definition unwrap (r : regex) : option regex :=
  match r with
  | Cat Bnd (Cat body Bnd) => Some body
  | _ => None
  end.

Ltac andb_hyp C :=
  lazymatch type of C with
  | (_ && _ = true) =>
      let C1 := fresh "C1" in
      let C2 := fresh "C2" in
      apply andb_prop in C; destruct C as [C1 C2]
  end.

Lemma chars_in_sound q r pw u nxt :
  chars_in q r = true -> M r pw u nxt -> Forall (fun a => q a = true) u.
Proof.
  intros C H. induction H; cbn [chars_in] in C;
    try andb_hyp C.
  - constructor.
  - repeat constructor. eapply cls_sub_sound; eauto.
  - apply Forall_app. split; auto.
  - auto.
  - auto.
  - constructor.
  - apply Forall_app. split; auto.
  - constructor.
Qed.

Lemma nonempty_sound r pw u nxt : nonempty r = true -> M r pw u nxt -> u <> [].
Proof.
  intros C H. induction H; cbn [nonempty] in C; try discriminate C.
  - discriminate.
  - apply orb_prop in C. intros E. apply app_eq_nil in E. destruct E as [-> ->].
    destruct C as [C | C]; [apply IHM1 | apply IHM2]; auto.
  - apply andb_prop in C. destruct C. auto.
  - apply andb_prop in C. destruct C. auto.
Qed.

Definition head_in (q : ascii -> bool) (u : str) : Prop :=
  match u with
  | [] => True
  | a :: _ => q a = true
  end.

Lemma head_in_app q u v : head_in q u -> (u = [] -> head_in q v) -> head_in q (u ++ v).
Proof. destruct u; cbn; auto. Qed.

Lemma first_in_sound q r pw u nxt : first_in q r = true -> M r pw u nxt -> head_in q u.
Proof.
  intros C H. induction H; cbn [first_in] in C;
    try andb_hyp C; cbn [head_in]; auto.
  - eapply cls_sub_sound; eauto.
  - apply head_in_app; [auto|]. intros ->.
    apply orb_prop in C2. destruct C2 as [C2 | C2]; [| auto].
    exfalso. eapply nonempty_sound; eauto.
  - apply head_in_app; [auto|]. intros ->. congruence.
Qed.

Definition tail_in (q : ascii -> bool) (u : str) : Prop :=
  u = [] \/ exists u' a, u = u' ++ [a] /\ q a = true.

Lemma tail_in_app q u v : tail_in q v -> (v = [] -> tail_in q u) -> tail_in q (u ++ v).
Proof.
  intros [-> | (v' & a & -> & Ha)] H.
  - rewrite app_nil_r. auto.
  - right. exists (u ++ v'), a. rewrite app_assoc. auto.
Qed.

Lemma last_in_sound q r pw u nxt : last_in q r = true -> M r pw u nxt -> tail_in q u.
Proof.
  intros C H. induction H; cbn [last_in] in C;
    try andb_hyp C; auto;
    try (left; reflexivity).
  - right. exists [], a. split; [reflexivity | eapply cls_sub_sound; eauto].
  - apply tail_in_app; [auto|]. intros ->.
    apply orb_prop in C2. destruct C2 as [C2 | C2]; [| auto].
    exfalso. eapply nonempty_sound; eauto.
  - apply tail_in_app; [auto|]. intros ->. apply IHM1. exact C.
Qed.

Lemma last_word_tail pw u : tail_in is_word u -> u <> [] -> last_word pw u = true.
Proof.
  intros [-> | (u' & a & -> & Ha)] Hne; [congruence|].
  rewrite last_word_app. exact Ha.
Qed.

Lemma unwrap_inv r body pw u nxt :
  unwrap r = Some body -> M r pw u nxt ->
  xorb pw (next_word u nxt) = true /\ M body pw u nxt
  /\ xorb (last_word pw u) nxt = true.
Proof.
  intros U H. destruct r as [| | a b | | |]; try discriminate U.
  destruct a; try discriminate U. destruct b as [| | body' c | | |]; try discriminate U.
  destruct c; try discriminate U. cbn in U. inversion U; subst body'; clear U.
  inversion H as [| | a0 b0 pw0 u0 v0 nxt0 H1 H2 | | | | |]; subst.
  inversion H1; subst. cbn [app last_word fold_left] in *.
  inversion H2 as [| | a0 b0 pw0 u1 v1 nxt0 H3 H4 | | | | |]; subst.
  inversion H4; subst. rewrite app_nil_r in *. cbn [next_word] in *.
  auto.
Qed.

End ReChecks.

(** ** What a substitution pass computes *)

Module ScanFacts.
Import PyStr Re ReFacts ReChecks.

Lemma match_at_shorter r pw s pw' rest :
  match_at r (pw, s) = Some (pw', rest) -> length rest <= length s.
Proof.
  intros H. apply match_at_sound in H. destruct H as (u & -> & _).
  rewrite length_app. lia.
Qed.

(** The result of a pass does not depend on the fuel, once there is
    enough. *)
Lemma sub_aux_fuel r repl n :
  forall f1 f2 pw s,
    length s <= n -> length s < f1 -> length s < f2 ->
    sub_aux r repl f1 pw s = sub_aux r repl f2 pw s.
Proof.
  induction n as [| n IH]; intros [| f1] [| f2] pw s Hn H1 H2; try lia;
    cbn [sub_aux].
  - destruct s; [| cbn in Hn; lia].
    destruct (match_at r (pw, [])) as [[pw' rest] |] eqn:E; [| reflexivity].
    pose proof (match_at_shorter _ _ _ _ _ E) as L. cbn in L.
    assert (Hr : (length rest <? length (@nil ascii))%nat = false)
      by (apply Nat.ltb_ge; cbn; lia).
    rewrite Hr. reflexivity.
  - destruct (match_at r (pw, s)) as [[pw' rest] |] eqn:E.
    + destruct (length rest <? length s)%nat eqn:L.
      * apply Nat.ltb_lt in L. f_equal. apply IH; lia.
      * destruct s as [| c t]; [reflexivity|]. cbn in *. do 2 f_equal. apply IH; lia.
    + destruct s as [| c t]; [reflexivity|]. cbn in *. f_equal. apply IH; lia.
Qed.

Lemma sub_from_step r repl pw s f :
  length s < f -> sub_aux r repl f pw s = sub_from r repl pw s.
Proof. intros H. apply (sub_aux_fuel r repl (length s)); lia. Qed.

Lemma search_from_unfold r pw s :
  search_from r pw s
  = match match_at r (pw, s) with
    | Some _ => true
    | None => match s with [] => false | c :: t => search_from r (is_word c) t end
    end.
Proof. destruct s; reflexivity. Qed.

(** A later match is a match of the whole text. *)
Lemma search_from_skip r pw u rest :
  search_from r (last_word pw u) rest = true -> search_from r pw (u ++ rest) = true.
Proof.
  revert pw. induction u as [| c u IH]; intros pw H; [exact H|].
  rewrite search_from_unfold. destruct (match_at r (pw, (c :: u) ++ rest)); [reflexivity|].
  cbn. apply IH. exact H.
Qed.

Lemma sub_from_nil r tok pw : match_at r (pw, []) = None -> sub_from r tok pw [] = [].
Proof. intros H. unfold sub_from. cbn [sub_aux length]. rewrite H. reflexivity. Qed.

Lemma sub_from_copy r tok pw c x :
  match_at r (pw, c :: x) = None ->
  sub_from r tok pw (c :: x) = c :: sub_from r tok (is_word c) x.
Proof. intros H. unfold sub_from at 1. cbn [sub_aux]. rewrite H. reflexivity. Qed.

(** When the pattern is not found, the pass changes nothing. *)
Lemma sub_from_identity r tok pw s :
  search_from r pw s = false -> sub_from r tok pw s = s.
Proof.
  revert pw. induction s as [| c x IH]; intros pw H; rewrite search_from_unfold in H.
  - apply sub_from_nil. destruct (match_at r (pw, [])); [discriminate H | reflexivity].
  - destruct (match_at r (pw, c :: x)) eqn:E; [discriminate H|].
    rewrite (sub_from_copy _ _ _ _ _ E), (IH _ H). reflexivity.
Qed.

Section Pass.
(** One pass: a pattern of the form [\b body \b] whose matches are not
    empty, and its replacement. *)
Variables (r body : regex) (tok : str).
Hypothesis r_wrapped : unwrap r = Some body.
Hypothesis body_nonempty : nonempty body = true.

Lemma pass_match_inv pw u nxt :
  M r pw u nxt ->
  u <> [] /\ M body pw u nxt /\ xorb pw (next_word u nxt) = true
  /\ xorb (last_word pw u) nxt = true.
Proof.
  intros H. destruct (unwrap_inv _ _ _ _ _ r_wrapped H) as (A & B & C).
  repeat split; auto. eapply nonempty_sound; eauto.
Qed.

(** The three ways a pass goes on from a position. *)
Inductive pass_step (pw : bool) (s : str) : Prop :=
| pass_end :
    s = [] -> match_at r (pw, s) = None -> sub_from r tok pw s = [] -> pass_step pw s
| pass_copy c t :
    s = c :: t -> match_at r (pw, s) = None ->
    sub_from r tok pw s = c :: sub_from r tok (is_word c) t -> pass_step pw s
| pass_replace u rest :
    s = u ++ rest -> u <> [] -> M r pw u (head_word rest) ->
    sub_from r tok pw s = tok ++ sub_from r tok (last_word pw u) rest ->
    pass_step pw s.

Lemma pass_cases pw s : pass_step pw s.
Proof.
  destruct (match_at r (pw, s)) as [[pw' rest] |] eqn:E.
  - destruct (match_at_sound _ _ _ _ _ E) as (u & -> & Hu & ->).
    destruct (pass_match_inv _ _ _ Hu) as (Hne & _).
    apply (pass_replace pw (u ++ rest) u rest); auto.
    unfold sub_from at 1. cbn [sub_aux]. rewrite E.
    assert (L : (length rest <? length (u ++ rest))%nat = true).
    { apply Nat.ltb_lt. rewrite length_app. destruct u; [congruence | cbn; lia]. }
    rewrite L. f_equal. apply sub_from_step. apply Nat.ltb_lt in L. lia.
  - destruct s as [| c t].
    + apply pass_end; auto. unfold sub_from. cbn [sub_aux]. rewrite E. reflexivity.
    + apply (pass_copy pw (c :: t) c t); auto.
      unfold sub_from at 1. cbn [sub_aux]. rewrite E. reflexivity.
Qed.

(** Induction along a pass. *)
Lemma pass_ind' (P : bool -> str -> Prop) :
  (forall pw, sub_from r tok pw [] = [] -> P pw []) ->
  (forall pw c t,
      match_at r (pw, c :: t) = None ->
      sub_from r tok pw (c :: t) = c :: sub_from r tok (is_word c) t ->
      P (is_word c) t -> P pw (c :: t)) ->
  (forall pw u rest,
      u <> [] -> M r pw u (head_word rest) ->
      sub_from r tok pw (u ++ rest) = tok ++ sub_from r tok (last_word pw u) rest ->
      P (last_word pw u) rest -> P pw (u ++ rest)) ->
  forall pw s, P pw s.
Proof.
  intros Hend Hcopy Hrep pw s.
  remember (length s) as n eqn:Hn. revert pw s Hn.
  induction n as [n IH] using lt_wf_ind. intros pw s Hn.
  destruct (pass_cases pw s) as [-> _ E | c t -> Hm E | u rest -> Hne Hu E].
  - apply Hend, E.
  - apply Hcopy; auto. apply (IH (length t)); [cbn in Hn; lia | reflexivity].
  - apply Hrep; auto. apply (IH (length rest)); [| reflexivity].
    rewrite Hn, length_app. destruct u; [congruence | cbn; lia].
Qed.

(** When the pattern is found, the replacement is in the result. *)
Lemma sub_from_has_token pw s :
  search_from r pw s = true ->
  exists x y, sub_from r tok pw s = x ++ tok ++ y.
Proof.
  revert pw s. apply (pass_ind' (fun pw s =>
    search_from r pw s = true -> exists x y, sub_from r tok pw s = x ++ tok ++ y)).
  - intros pw E H. rewrite search_from_unfold in H.
    destruct (match_at r (pw, [])) as [[pw' rest] |] eqn:Em; [| discriminate H].
    apply match_at_sound in Em. destruct Em as (u & Hu & Hm & _).
    symmetry in Hu. apply app_eq_nil in Hu. destruct Hu as [-> _].
    apply pass_match_inv in Hm. destruct Hm as [Hne _]. congruence.
  - intros pw c t Hm E IH H. rewrite search_from_unfold, Hm in H.
    destruct (IH H) as (x & y & Exy). exists (c :: x), y. rewrite E, Exy. reflexivity.
  - intros pw u rest Hne Hu E _ _. exists [], (sub_from r tok (last_word pw u) rest).
    exact E.
Qed.

End Pass.
End ScanFacts.

(** ** A pattern to be kept out of the result of a pass *)

Module TargetFacts.
Import PyStr Re ReFacts ReChecks ScanFacts.

Section Target.
(** The target: a pattern [\b tbody \b] whose matches are not empty, are
    made of characters of [D], and begin and end with a word character. *)
Variables (t tbody : regex) (D : ascii -> bool).
Hypothesis t_wrapped : unwrap t = Some tbody.
Hypothesis t_nonempty : nonempty tbody = true.
Hypothesis t_chars : chars_in D tbody = true.
Hypothesis t_first : first_in is_word tbody = true.
Hypothesis t_last : last_in is_word tbody = true.

Lemma target_inv q w nxt :
  M t q w nxt ->
  q = false /\ nxt = false /\ Forall (fun a => D a = true) w
  /\ (exists a w', w = a :: w' /\ is_word a = true)
  /\ last_word q w = true.
Proof.
  intros H.
  destruct (pass_match_inv _ _ t_wrapped t_nonempty _ _ _ H) as (Hne & Hb & B1 & B2).
  pose proof (chars_in_sound _ _ _ _ _ t_chars Hb) as Hc.
  pose proof (first_in_sound _ _ _ _ _ t_first Hb) as Hf.
  pose proof (last_word_tail q w (last_in_sound _ _ _ _ _ t_last Hb) Hne) as Hl.
  destruct w as [| a w']; [congruence|]. cbn in Hf, B1.
  rewrite Hf in B1. rewrite Hl in B2.
  destruct q; [discriminate B1|]. destruct nxt; [discriminate B2|].
  repeat split; eauto.
Qed.

Definition outside (x : str) : Prop :=
  match x with
  | [] => True
  | a :: _ => D a = false
  end.

(** No match of the target begins with a character that is not in [D]. *)
Lemma no_target_at q x : outside x -> match_at t (q, x) = None.
Proof.
  intros Hx. destruct (match_at t (q, x)) as [[q' rest] |] eqn:E; [| reflexivity].
  apply match_at_sound in E. destruct E as (w & -> & Hw & _).
  apply target_inv in Hw. destruct Hw as (_ & _ & Hc & (a & w' & -> & _) & _).
  inversion Hc; subst. cbn in Hx. congruence.
Qed.

Lemma search_through q junk x :
  Forall (fun a => D a = false) junk ->
  search_from t q (junk ++ x) = search_from t (last_word q junk) x.
Proof.
  revert q. induction junk as [| a junk IH]; intros q H; [reflexivity|].
  inversion H; subst. rewrite search_from_unfold, no_target_at; [| assumption].
  cbn. apply IH. assumption.
Qed.

Lemma search_from_nil q : search_from t q [] = false.
Proof. rewrite search_from_unfold, no_target_at; [reflexivity | exact I]. Qed.

(** The pass: a pattern [\b body \b] whose matches are not empty, and a
    replacement that has no character of [D] and begins and ends with a
    character that is not a word character. *)
Variables (r body : regex) (tok : str).
Hypothesis r_wrapped : unwrap r = Some body.
Hypothesis body_nonempty : nonempty body = true.
Hypothesis tok_outside : Forall (fun a => D a = false) tok.
Hypothesis tok_head : exists a tok', tok = a :: tok' /\ is_word a = false.
Hypothesis tok_last : forall q, last_word q tok = false.

(** A text made of characters of [D] at the head of the result was at the
    head of the subject, and was copied. *)
Lemma prefix_copied w :
  Forall (fun a => D a = true) w ->
  forall pw s out,
    sub_from r tok pw s = w ++ out ->
    exists rest, s = w ++ rest /\ out = sub_from r tok (last_word pw w) rest.
Proof using r_wrapped body_nonempty tok_outside tok_head.
  clear - r_wrapped body_nonempty tok_outside tok_head.
  induction 1 as [| a w Ha Hw IH]; intros pw s out E.
  - exists s. split; [reflexivity | symmetry; exact E].
  - destruct (pass_cases r body tok r_wrapped body_nonempty pw s)
      as [-> _ E' | c x -> Hm E' | u rest -> Hne Hu E']; rewrite E' in E.
    + discriminate E.
    + inversion E; subst c. destruct (IH _ _ _ H1) as (rest & -> & ->).
      exists rest. split; reflexivity.
    + destruct tok_head as (b & tok' & Et & _).
      pose proof tok_outside as To. rewrite Et in E, To.
      inversion E as [[Eb Er]]. inversion To as [| ? ? Hb _]. congruence.
Qed.

(** After a word character, the result begins with a word character
    exactly when the subject does. *)
Lemma head_after_word x : head_word (sub_from r tok true x) = head_word x.
Proof.
  destruct (pass_cases r body tok r_wrapped body_nonempty true x)
    as [-> _ E | c y -> Hm E | u rest -> Hne Hu E]; rewrite E; try reflexivity.
  destruct (pass_match_inv _ _ r_wrapped body_nonempty _ _ _ Hu) as (_ & _ & B & _).
  destruct tok_head as (b & tok' & -> & Hb).
  destruct u as [| a u]; [congruence|]. cbn in *. rewrite Hb.
  destruct (is_word a); [discriminate B | reflexivity].
Qed.

(** The contexts before a position of the result and before the position
    of the subject it comes from. *)
Definition aligned (q pw : bool) (s : str) : Prop :=
  q = pw \/ (q = false /\ head_word s = false).

(** A match of the target at the head of the result is a match at the
    head of the subject. *)
Lemma head_transfer q pw s :
  aligned q pw s ->
  is_Some (match_at t (q, sub_from r tok pw s)) -> is_Some (match_at t (pw, s)).
Proof.
  intros A [[q' out] E].
  destruct (match_at_sound _ _ _ _ _ E) as (w & Eo & Hw & _).
  destruct (target_inv _ _ _ Hw) as (-> & Hn & Hc & (a & w' & -> & Ha) & Hl).
  destruct (prefix_copied _ Hc _ _ _ Eo) as (rest & -> & ->).
  assert (pw = false) as ->.
  { destruct A as [<- | [_ A]]; [reflexivity|]. cbn in A. congruence. }
  rewrite Hl, head_after_word in Hw.
  apply match_at_complete. exact Hw.
Qed.

(** After a replacement, the contexts are aligned. *)
Lemma aligned_after pw u rest :
  M r pw u (head_word rest) -> aligned false (last_word pw u) rest.
Proof.
  intros Hu.
  destruct (pass_match_inv _ _ r_wrapped body_nonempty _ _ _ Hu) as (_ & _ & _ & B).
  unfold aligned. destruct (last_word pw u); [right | left; reflexivity].
  destruct (head_word rest); [discriminate B | auto].
Qed.

(** A pass creates no match of the target. *)
Lemma pass_creates_no_target pw s :
  forall q, aligned q pw s ->
            search_from t q (sub_from r tok pw s) = true -> search_from t pw s = true.
Proof.
  revert pw s.
  apply (pass_ind' r body tok r_wrapped body_nonempty (fun pw s =>
    forall q, aligned q pw s ->
              search_from t q (sub_from r tok pw s) = true ->
              search_from t pw s = true)).
  - intros pw E q _ H. rewrite E, search_from_nil in H. discriminate H.
  - intros pw c x Hm E IH q A H.
    rewrite (search_from_unfold t pw).
    destruct (match_at t (pw, c :: x)) as [y |] eqn:Et; [reflexivity|].
    rewrite search_from_unfold in H.
    destruct (match_at t (q, sub_from r tok pw (c :: x))) as [y |] eqn:Eq.
    + destruct (head_transfer q pw (c :: x) A) as [z Hz]; [rewrite Eq; eauto|].
      congruence.
    + rewrite E in H. apply (IH (is_word c)); [left; reflexivity | exact H].
  - intros pw u rest Hne Hu E IH q A H.
    rewrite E, search_through, tok_last in H by exact tok_outside.
    apply search_from_skip. apply (IH false); [| exact H].
    apply aligned_after. exact Hu.
Qed.

(** The pass of the target itself leaves no match of it. *)
Lemma own_pass_leaves_no_target :
  r = t ->
  forall pw s q, aligned q pw s -> search_from t q (sub_from r tok pw s) = false.
Proof.
  intros Hrt.
  apply (pass_ind' r body tok r_wrapped body_nonempty (fun pw s =>
    forall q, aligned q pw s -> search_from t q (sub_from r tok pw s) = false)).
  - intros pw E q _. rewrite E. apply search_from_nil.
  - intros pw c x Hm E IH q A.
    rewrite search_from_unfold.
    destruct (match_at t (q, sub_from r tok pw (c :: x))) as [y |] eqn:Eq.
    + destruct (head_transfer q pw (c :: x) A) as [z Hz]; [rewrite Eq; eauto|].
      rewrite <- Hrt in Hz. congruence.
    + rewrite E. apply IH. left. reflexivity.
  - intros pw u rest Hne Hu E IH q A.
    rewrite E, search_through, tok_last by exact tok_outside.
    apply IH. apply aligned_after. exact Hu.
Qed.

End Target.
End TargetFacts.

(** ** A bracketed token that a pass leaves in place *)

Module KeepFacts.
Import PyStr Re ReFacts ReChecks ScanFacts.

(** The pattern does not match [word] between two characters that are not
    word characters, as the matcher finds on [word] followed by [rb]. *)
Definition misses (body : regex) (word : str) (rb : ascii) : bool :=
  match run body (false, word ++ [rb])
          (fun c => if bool_decide (snd c = [rb]) then Some c else None) with
  | None => true
  | Some _ => false
  end.

Lemma misses_sound body word rb :
  misses body word rb = true -> is_word rb = false -> ~ M body false word false.
Proof.
  unfold misses. intros C Hrb H.
  assert (F : found body false word [rb]
                (fun c => if bool_decide (snd c = [rb]) then Some c else None)).
  { apply (run_complete _ _ _ _ H); [cbn; rewrite Hrb; reflexivity|].
    cbn. rewrite bool_decide_eq_true_2; eauto. }
  destruct F as [[y Hy] _]. rewrite Hy in C. discriminate C.
Qed.

Definition avoids (lb rb : ascii) (a : ascii) : bool :=
  negb (ascii_eqb a lb) && negb (ascii_eqb a rb).

Section Keep.
Variables (r body : regex) (tok : str).
Hypothesis r_wrapped : unwrap r = Some body.
Hypothesis body_nonempty : nonempty body = true.

(** The token [lb word rb]: a word between two characters that are not
    word characters and that the pattern never reads. *)
Variables (lb rb w0 : ascii) (word' : str).
Let word : str := w0 :: word'.
Let keep : str := lb :: word ++ [rb].
Hypothesis body_avoids : chars_in (avoids lb rb) body = true.
Hypothesis lb_not_word : is_word lb = false.
Hypothesis rb_not_word : is_word rb = false.
Hypothesis word_chars : Forall (fun a => is_word a = true) word.
Hypothesis body_misses : ~ M body false word false.

Lemma match_avoids pw u nxt :
  M r pw u nxt -> Forall (fun a => a <> lb /\ a <> rb) u.
Proof.
  intros H. destruct (pass_match_inv _ _ r_wrapped body_nonempty _ _ _ H) as (_ & Hb & _).
  apply chars_in_sound with (q := avoids lb rb) in Hb; [| exact body_avoids].
  eapply Forall_impl; [exact Hb|]. cbn. intros a Ha.
  unfold avoids, ascii_eqb in Ha. apply andb_prop in Ha. destruct Ha as [A B].
  split; intros ->; rewrite Ascii.eqb_refl in *; discriminate.
Qed.

Lemma no_match_at_bracket pw c x :
  c = lb \/ c = rb -> match_at r (pw, c :: x) = None.
Proof.
  intros Hc. destruct (match_at r (pw, c :: x)) as [[pw' rest] |] eqn:E; [| reflexivity].
  apply match_at_sound in E. destruct E as (u & Eu & Hu & _).
  pose proof (match_avoids _ _ _ Hu) as Ha.
  destruct (pass_match_inv _ _ r_wrapped body_nonempty _ _ _ Hu) as (Hne & _).
  destruct u as [| a u]; [congruence|]. inversion Eu; subst a.
  inversion Ha as [| ? ? [A B] _]; subst. destruct Hc; congruence.
Qed.

Lemma no_match_inside a x : is_word a = true -> match_at r (true, a :: x) = None.
Proof.
  intros Ha. destruct (match_at r (true, a :: x)) as [[pw' rest] |] eqn:E; [| reflexivity].
  apply match_at_sound in E. destruct E as (u & Eu & Hu & _).
  destruct (pass_match_inv _ _ r_wrapped body_nonempty _ _ _ Hu) as (Hne & _ & B & _).
  destruct u as [| b u]; [congruence|]. inversion Eu; subst b.
  cbn in B. rewrite Ha in B. discriminate B.
Qed.

Lemma inside_copied w2 y :
  Forall (fun a => is_word a = true) w2 ->
  sub_from r tok true (w2 ++ rb :: y) = w2 ++ rb :: sub_from r tok false y.
Proof.
  induction 1 as [| a w2 Ha Hw IH]; cbn [app].
  - rewrite sub_from_copy, rb_not_word; [reflexivity|].
    apply no_match_at_bracket. auto.
  - rewrite sub_from_copy, Ha, IH; [reflexivity|]. apply no_match_inside, Ha.
Qed.

(** A text without [rb] at the head of [word rb y] is a part of [word]. *)
Lemma split_in_word (w u y rest : str) :
  w ++ rb :: y = u ++ rest -> Forall (fun a => a <> lb /\ a <> rb) u ->
  exists w2, w = u ++ w2 /\ rest = w2 ++ rb :: y.
Proof.
  revert w. induction u as [| a u IH]; intros w E Hu.
  - exists w. split; [reflexivity | symmetry; exact E].
  - inversion Hu as [| ? ? [_ Ha] Hu']; subst.
    destruct w as [| b w]; cbn in E; inversion E; subst; [congruence|].
    destruct (IH w H1 Hu') as (w2 & -> & ->). exists w2. split; reflexivity.
Qed.

Lemma last_word_of_word pw u : u <> [] -> Forall (fun a => is_word a = true) u ->
  last_word pw u = true.
Proof.
  revert pw. induction u as [| a u IH]; intros pw Hne H; [congruence|].
  inversion H; subst. destruct u as [| b u]; [assumption|].
  change (last_word pw (a :: b :: u)) with (last_word (is_word a) (b :: u)).
  apply IH; [discriminate | assumption].
Qed.

Lemma no_match_at_word y : match_at r (false, word ++ rb :: y) = None.
Proof.
  destruct (match_at r (false, word ++ rb :: y)) as [[pw' rest] |] eqn:E; [| reflexivity].
  exfalso. apply match_at_sound in E. destruct E as (u & Eu & Hu & _).
  pose proof (match_avoids _ _ _ Hu) as Ha.
  destruct (pass_match_inv _ _ r_wrapped body_nonempty _ _ _ Hu) as (Hne & Hb & _ & B).
  destruct (split_in_word _ _ _ _ Eu Ha) as (w2 & Ew & ->).
  assert (Hw : Forall (fun a => is_word a = true) u).
  { pose proof word_chars as Hwc. rewrite Ew in Hwc.
    apply Forall_app in Hwc. tauto. }
  rewrite (last_word_of_word false u Hne Hw) in B.
  destruct w2 as [| a w2].
  - rewrite app_nil_r in Ew. subst u. cbn in B, Hb. rewrite rb_not_word in Hb.
    exact (body_misses Hb).
  - pose proof word_chars as Hwc. rewrite Ew in Hwc.
    apply Forall_app in Hwc. destruct Hwc as [_ Hwc]. inversion Hwc; subst.
    cbn in B. rewrite H1 in B. discriminate B.
Qed.

(** The pass copies the token. *)
Lemma token_copied pw y :
  sub_from r tok pw (keep ++ y) = keep ++ sub_from r tok false y.
Proof.
  unfold keep. cbn [app].
  rewrite sub_from_copy, lb_not_word by (apply no_match_at_bracket; auto).
  f_equal. rewrite <- app_assoc. cbn [app].
  pose proof (no_match_at_word y) as Hm. unfold word in *. cbn [app] in *.
  rewrite (sub_from_copy _ _ _ _ _ Hm).
  inversion word_chars; subst. rewrite H1. f_equal.
  rewrite inside_copied by assumption. rewrite <- app_assoc. reflexivity.
Qed.

Lemma contains_after u rest :
  Forall (fun a => a <> lb /\ a <> rb) u ->
  contains keep (u ++ rest) = true -> contains keep rest = true.
Proof.
  induction 1 as [| a u [Ha _] Hu IH]; intros H; [exact H|].
  apply IH. cbn in H. apply orb_prop in H. destruct H as [H | H]; [| exact H].
  apply andb_prop in H. destruct H as [H _].
  apply Ascii.eqb_eq in H. congruence.
Qed.

(** The pass keeps an occurrence of the token. *)
Lemma keep_survives pw s :
  contains keep s = true -> contains keep (sub_from r tok pw s) = true.
Proof.
  revert pw s.
  apply (pass_ind' r body tok r_wrapped body_nonempty (fun pw s =>
    contains keep s = true -> contains keep (sub_from r tok pw s) = true)).
  - intros pw E H. discriminate H.
  - intros pw c x Hm E IH H.
    change (contains keep (c :: x))
      with (startswith keep (c :: x) || contains keep x) in H.
    apply orb_prop in H. destruct H as [H | H].
    + apply ParserFacts.startswith_inv in H. destruct H as [y ->].
      rewrite token_copied. apply ParserFacts.contains_prefix.
      apply ParserFacts.startswith_app.
    + rewrite E. apply ParserFacts.contains_cons, IH, H.
  - intros pw u rest Hne Hu E IH H.
    rewrite E. apply ParserFacts.contains_skip, IH.
    eapply contains_after; [eapply match_avoids; eauto | exact H].
Qed.

End Keep.
End KeepFacts.

(** ** URLs and the passes that come before theirs *)

Module UrlFacts.
Import PyStr Re ReFacts ReChecks ScanFacts Anonymizer.

Lemma M_lit_inv w pw u nxt : M (lit w) pw u nxt -> u = w.
Proof.
  revert pw u. induction w as [| c w IH]; intros pw u H.
  - inversion H. reflexivity.
  - destruct w as [| d w].
    + inversion H; subst. unfold ascii_eqb in *.
      match goal with E : Ascii.eqb _ _ = true |- _ => apply Ascii.eqb_eq in E; subst end.
      reflexivity.
    + cbn [lit] in H. inversion H as [| | a b pw0 u0 v0 nxt0 H1 H2 | | | | |]; subst.
      inversion H1; subst. unfold ascii_eqb in *.
      match goal with E : Ascii.eqb _ _ = true |- _ => apply Ascii.eqb_eq in E; subst end.
      apply IH in H2. subst. reflexivity.
Qed.

Lemma M_lit w pw nxt : M (lit w) pw w nxt.
Proof.
  revert pw. induction w as [| c w IH]; intros pw; [constructor|].
  destruct w as [| d w].
  - constructor. apply Ascii.eqb_refl.
  - cbn [lit]. apply (M_cat _ _ pw [c] (d :: w)); [| apply IH].
    constructor. apply Ascii.eqb_refl.
Qed.

(** A text at whose head the URL pattern matches: [http://] or
    [https://] and one more character that is not a space. *)
Definition url_head (s : str) : Prop :=
  exists pre c rest,
    s = pre ++ c :: rest /\ (pre = $"http://" \/ pre = $"https://")
    /\ is_space c = false.

Lemma url_match_head pw u nxt rest : M URL_PATTERN pw u nxt -> url_head (u ++ rest).
Proof.
  unfold URL_PATTERN, opt, plus, not_space. intros H.
  inversion H as [| | a1 b1 pw1 u1 v1 nxt1 H1 H2 | | | | |]; subst; clear H.
  inversion H2 as [| | a2 b2 pw2 u2 v2 nxt2 H3 H4 | | | | |]; subst; clear H2.
  inversion H4 as [| | a3 b3 pw3 u3 v3 nxt3 H5 H6 | | | | |]; subst; clear H4.
  inversion H6 as [| | a4 b4 pw4 u4 v4 nxt4 H7 H8 | | | | |]; subst; clear H6.
  apply (M_lit_inv $"http") in H1. apply (M_lit_inv $"://") in H5. subst u1 u3.
  inversion H7; subst; clear H7.
  match goal with E : negb (is_space ?c) = true |- _ =>
    assert (Hc : is_space c = false) by (destruct (is_space c); [discriminate E | reflexivity])
  end.
  inversion H3 as [| | | a5 b5 pw5 u5 nxt5 Hs | a5 b5 pw5 u5 nxt5 Hs | | |]; subst; clear H3.
  - apply (M_lit_inv $"s") in Hs. subst u2.
    exists $"https://", a, (v4 ++ rest). repeat split; auto.
  - inversion Hs; subst.
    exists $"http://", a, (v4 ++ rest). repeat split; auto.
Qed.

Lemma url_head_match pw s : url_head s -> is_Some (match_at URL_PATTERN (pw, s)).
Proof.
  intros (pre & c & rest & -> & Hpre & Hc).
  assert (Hm : M URL_PATTERN pw (pre ++ [c]) (head_word rest)).
  { unfold URL_PATTERN, opt, plus, not_space.
    assert (Hn : negb (is_space c) = true) by (rewrite Hc; reflexivity).
    destruct Hpre as [-> | ->].
    - apply (M_cat _ _ pw $"http" ([] ++ $"://" ++ [c] ++ [])); [apply M_lit|].
      apply M_cat; [apply M_alt_r; constructor|].
      apply M_cat; [apply M_lit|].
      apply M_cat; [constructor; exact Hn | constructor].
    - apply (M_cat _ _ pw $"http" ($"s" ++ $"://" ++ [c] ++ [])); [apply M_lit|].
      apply M_cat; [apply M_alt_l; apply M_lit|].
      apply M_cat; [apply M_lit|].
      apply M_cat; [constructor; exact Hn | constructor]. }
  replace (pre ++ c :: rest) with ((pre ++ [c]) ++ rest)
    by (rewrite <- app_assoc; reflexivity).
  apply match_at_complete. exact Hm.
Qed.

Lemma url_match_at pw s :
  is_Some (match_at URL_PATTERN (pw, s)) -> url_head s.
Proof.
  intros [[pw' rest] E]. apply match_at_sound in E. destruct E as (u & -> & Hu & _).
  eapply url_match_head; eauto.
Qed.

(** The characters of [http://] and [https://]. *)
Definition url_char (a : ascii) : bool := mem_char a $"htps:/".

Lemma url_head_first s : url_head s -> exists a x, s = a :: x /\ url_char a = true.
Proof.
  intros (pre & c & rest & -> & [-> | ->] & _); cbn; eauto.
Qed.

(** What is asked of a pass for it to create no URL: the pattern is
    [\b body \b], its matches are not empty and begin with a character
    that is not a space; the replacement has no character of [http://]
    or [https://] and begins with a character that is not a word
    character. *)
Definition url_pass_ok (r : regex) (tok : str) : bool :=
  match unwrap r, tok with
  | Some body, a :: _ =>
      nonempty body && first_in (fun c => negb (is_space c)) body
      && forallb (fun c => negb (url_char c)) tok && negb (is_word a)
  | _, _ => false
  end.

Section UrlPass.
Variables (r body : regex) (tok : str).
Hypothesis r_wrapped : unwrap r = Some body.
Hypothesis body_nonempty : nonempty body = true.
Hypothesis body_first : first_in (fun c => negb (is_space c)) body = true.
Hypothesis tok_outside : Forall (fun a => url_char a = false) tok.
Hypothesis tok_head : exists a tok', tok = a :: tok' /\ is_word a = false.

(** A URL at the head of the result is a URL at the head of the
    subject. *)
Lemma url_head_transfer pw s : url_head (sub_from r tok pw s) -> url_head s.
Proof.
  intros (pre & c & out & E & Hpre & Hc).
  assert (Hp : Forall (fun a => url_char a = true) pre)
    by (destruct Hpre as [-> | ->]; repeat constructor).
  destruct (TargetFacts.prefix_copied url_char r body tok r_wrapped body_nonempty
              tok_outside tok_head pre Hp pw s (c :: out) E) as (rest & -> & Eo).
  destruct (pass_cases r body tok r_wrapped body_nonempty (last_word pw pre) rest)
    as [-> _ E' | c' x -> Hm E' | u rest' -> Hne Hu E']; rewrite E' in Eo.
  - discriminate Eo.
  - inversion Eo; subst c'. exists pre, c, x. auto.
  - destruct (pass_match_inv _ _ r_wrapped body_nonempty _ _ _ Hu) as (_ & Hb & _).
    pose proof (first_in_sound _ _ _ _ _ body_first Hb) as Hf.
    destruct u as [| a u]; [congruence|]. cbn in Hf.
    exists pre, a, (u ++ rest'). repeat split; auto.
    destruct (is_space a); [discriminate Hf | reflexivity].
Qed.

Lemma no_url_in_token q junk x :
  Forall (fun a => url_char a = false) junk ->
  search_from URL_PATTERN q (junk ++ x) = true ->
  search_from URL_PATTERN (last_word q junk) x = true.
Proof.
  revert q. induction junk as [| a junk IH]; intros q Hj H; [exact H|].
  inversion Hj; subst. rewrite search_from_unfold in H.
  destruct (match_at URL_PATTERN (q, (a :: junk) ++ x)) as [y |] eqn:E.
  - exfalso. destruct (url_head_first _ (url_match_at _ _ (ex_intro _ y E)))
      as (b & z & Eb & Hb). inversion Eb; subst. congruence.
  - apply IH; assumption.
Qed.

(** The pass creates no URL. *)
Lemma pass_creates_no_url pw s :
  forall q, search_from URL_PATTERN q (sub_from r tok pw s) = true ->
            search_from URL_PATTERN pw s = true.
Proof.
  revert pw s.
  apply (pass_ind' r body tok r_wrapped body_nonempty (fun pw s =>
    forall q, search_from URL_PATTERN q (sub_from r tok pw s) = true ->
              search_from URL_PATTERN pw s = true)).
  - intros pw E q H. rewrite E, search_from_unfold in H.
    destruct (match_at URL_PATTERN (q, [])) as [y |] eqn:Em; [| discriminate H].
    destruct (url_head_first _ (url_match_at _ _ (ex_intro _ y Em))) as (b & z & Eb & _).
    discriminate Eb.
  - intros pw c x Hm E IH q H.
    rewrite (search_from_unfold URL_PATTERN pw).
    destruct (match_at URL_PATTERN (pw, c :: x)) as [y |] eqn:Et; [reflexivity|].
    rewrite search_from_unfold in H.
    destruct (match_at URL_PATTERN (q, sub_from r tok pw (c :: x))) as [y |] eqn:Eq.
    + pose proof (url_head_transfer pw (c :: x) (url_match_at _ _ (ex_intro _ y Eq))) as Hh.
      destruct (url_head_match pw _ Hh) as [z Hz]. congruence.
    + rewrite E in H. apply (IH _ H).
  - intros pw u rest Hne Hu E IH q H.
    rewrite E in H. apply no_url_in_token in H; [| exact tok_outside].
    apply search_from_skip. apply (IH _ H).
Qed.

End UrlPass.

Lemma url_pass_keeps r tok x :
  url_pass_ok r tok = true -> search URL_PATTERN x = false ->
  search URL_PATTERN (sub r tok x) = false.
Proof.
  unfold url_pass_ok. destruct (unwrap r) as [body |] eqn:U; [| discriminate].
  destruct tok as [| a tok'] eqn:Et; [discriminate|]. intros H Hx.
  repeat (apply andb_prop in H; let H' := fresh "H" in destruct H as [H H']).
  unfold sub, search in *.
  destruct (search_from URL_PATTERN false (sub_from r (a :: tok') false x)) eqn:E;
    [| reflexivity].
  apply (pass_creates_no_url r body (a :: tok') U H H2) in E; [congruence | |].
  - apply List.Forall_forall. intros c Hc. rewrite forallb_forall in H1.
    specialize (H1 c Hc). destruct (url_char c); [discriminate H1 | reflexivity].
  - exists a, tok'. split; [reflexivity|]. destruct (is_word a); [discriminate | reflexivity].
Qed.

Lemma url_passes_ok :
  url_pass_ok PHONE_PATTERN $"[PHONE]" = true
  /\ url_pass_ok EMAIL_PATTERN $"[EMAIL]" = true
  /\ url_pass_ok SSN_PATTERN $"[SSN]" = true
  /\ url_pass_ok CREDIT_CARD_PATTERN $"[CREDIT_CARD]" = true.
Proof. vm_compute. repeat split. Qed.

End UrlFacts.

(** ** Phone numbers through [anonymize_text] *)

Module PhoneFacts.
Import PyStr Re ReFacts ReChecks ScanFacts Anonymizer.

(** The characters of a phone number. *)
Definition phone_char (a : ascii) : bool := is_digit a || mem_char a $"-.".

Definition PHONE_TOKEN : str := $"[PHONE]".

(** What is asked of a pass for it to keep [[PHONE]] and to create no
    phone number: the pattern is [\b body \b], its matches are not empty,
    have no bracket and are not the word [PHONE]; the replacement has no
    character of a phone number and begins and ends with a character that
    is not a word character. *)
Definition pass_ok (r : regex) (tok : str) : bool :=
  match unwrap r, tok with
  | Some body, a :: _ =>
      nonempty body
      && chars_in (KeepFacts.avoids "["%char "]"%char) body
      && KeepFacts.misses body $"PHONE" "]"%char
      && forallb (fun c => negb (phone_char c)) tok
      && negb (is_word a)
      && negb (last_word true tok) && negb (last_word false tok)
  | _, _ => false
  end.

Lemma pass_ok_inv r tok :
  pass_ok r tok = true ->
  exists body,
    unwrap r = Some body /\ nonempty body = true
    /\ chars_in (KeepFacts.avoids "["%char "]"%char) body = true
    /\ ~ M body false $"PHONE" false
    /\ Forall (fun a => phone_char a = false) tok
    /\ (exists a tok', tok = a :: tok' /\ is_word a = false)
    /\ (forall q, last_word q tok = false).
Proof.
  unfold pass_ok. destruct (unwrap r) as [body |]; [| discriminate].
  destruct tok as [| a tok']; [discriminate|]. intros H.
  repeat (apply andb_prop in H; let H' := fresh "H" in destruct H as [H H']).
  exists body. repeat split; auto.
  - apply KeepFacts.misses_sound with (rb := "]"%char); [assumption | reflexivity].
  - apply List.Forall_forall. intros c Hc. rewrite forallb_forall in H3.
    specialize (H3 c Hc). destruct (phone_char c); [discriminate H3 | reflexivity].
  - exists a, tok'. split; [reflexivity|]. destruct (is_word a); [discriminate | reflexivity].
  - intros [|]; [destruct (last_word true _) | destruct (last_word false _)];
      (discriminate || reflexivity).
Qed.

Lemma phone_target :
  unwrap PHONE_PATTERN = Some PHONE_BODY /\ nonempty PHONE_BODY = true
  /\ chars_in phone_char PHONE_BODY = true
  /\ first_in is_word PHONE_BODY = true /\ last_in is_word PHONE_BODY = true.
Proof. vm_compute. repeat split. Qed.

Lemma phone_pass_ok : pass_ok PHONE_PATTERN PHONE_TOKEN = true.
Proof. vm_compute. reflexivity. Qed.

(** The state of a text between two passes: it has the token and no phone
    number. *)
Definition scrubbed (x : str) : Prop :=
  contains PHONE_TOKEN x = true /\ search PHONE_PATTERN x = false.

(** After the pass of the phone numbers. *)
Lemma phone_pass_scrubs text :
  search PHONE_PATTERN text = true -> scrubbed (sub PHONE_PATTERN PHONE_TOKEN text).
Proof.
  intros H.
  destruct (pass_ok_inv _ _ phone_pass_ok) as (body & U & N & _ & _ & To & Th & Tl).
  destruct phone_target as (Tw & Tn & Tc & Tf & Tla).
  split.
  - destruct (sub_from_has_token _ _ PHONE_TOKEN U N false text H) as (x & y & E).
    unfold sub. rewrite E. apply ParserFacts.contains_intro.
  - unfold sub.
    apply (TargetFacts.own_pass_leaves_no_target PHONE_PATTERN PHONE_BODY phone_char
             Tw Tn Tc Tf Tla PHONE_PATTERN body PHONE_TOKEN U N To Th Tl eq_refl).
    left. reflexivity.
Qed.

(** A pass that meets [pass_ok] keeps a text scrubbed. *)
Lemma pass_keeps_scrubbed r tok x :
  pass_ok r tok = true -> scrubbed x -> scrubbed (sub r tok x).
Proof.
  intros Hok [Hc Hs].
  destruct (pass_ok_inv _ _ Hok) as (body & U & N & Av & Mi & To & Th & Tl).
  destruct phone_target as (Tw & Tn & Tc & Tf & Tla).
  split.
  - unfold sub.
    apply (KeepFacts.keep_survives r body tok U N "["%char "]"%char "P"%char $"HONE"
             Av eq_refl eq_refl); [| exact Mi | exact Hc].
    repeat constructor.
  - unfold sub. destruct (search_from PHONE_PATTERN false (sub_from r tok false x)) eqn:E;
      [| exact E].
    apply (TargetFacts.pass_creates_no_target PHONE_PATTERN PHONE_BODY phone_char
             Tw Tn Tc Tf Tla r body tok U N To Th Tl) in E;
      [| left; reflexivity].
    unfold search in Hs. congruence.
Qed.

(** A pass that finds nothing keeps a text as it is. *)
Lemma idle_pass_keeps_scrubbed r tok x :
  search r x = false -> scrubbed x -> scrubbed (sub r tok x).
Proof. intros H S. unfold sub. rewrite sub_from_identity; [exact S | exact H]. Qed.

Lemma passes_ok :
  pass_ok EMAIL_PATTERN $"[EMAIL]" = true
  /\ pass_ok SSN_PATTERN $"[SSN]" = true
  /\ pass_ok CREDIT_CARD_PATTERN $"[CREDIT_CARD]" = true
  /\ forallb (fun title => pass_ok (title_pattern title) (title_token title)) NAME_TITLES
     = true
  /\ pass_ok (address_regex anonymize_suffixes) $"[ADDRESS]" = true.
Proof. vm_compute. repeat split. Qed.

Lemma titles_keep_scrubbed titles x :
  forallb (fun title => pass_ok (title_pattern title) (title_token title)) titles = true ->
  scrubbed x ->
  scrubbed (fold_left (fun t title => sub (title_pattern title) (title_token title) t)
              titles x).
Proof.
  revert x. induction titles as [| title titles IH]; intros x H S; [exact S|].
  cbn in H. apply andb_prop in H. destruct H as [H1 H2].
  cbn [fold_left]. apply IH; [exact H2|]. apply pass_keeps_scrubbed; assumption.
Qed.

Lemma after_phone_scrubbed x :
  scrubbed x ->
  search URL_PATTERN
    (sub CREDIT_CARD_PATTERN $"[CREDIT_CARD]"
       (sub SSN_PATTERN $"[SSN]" (sub EMAIL_PATTERN $"[EMAIL]" x))) = false ->
  scrubbed (after_phone x).
Proof.
  intros S HU. destruct passes_ok as (E & N & C & T & A).
  unfold after_phone. cbv zeta.
  apply pass_keeps_scrubbed; [exact A|].
  unfold replace_titles. apply titles_keep_scrubbed; [exact T|].
  apply idle_pass_keeps_scrubbed; [exact HU|].
  repeat (apply pass_keeps_scrubbed; [assumption|]). exact S.
Qed.

Lemma search_nonempty text : search PHONE_PATTERN text = true -> truthy text = true.
Proof.
  destruct text; [| reflexivity]. intros H. vm_compute in H. discriminate H.
Qed.

End PhoneFacts.

Section PhoneClaims.
Import PyStr Re Anonymizer PhoneFacts.

(** C4, the claim as stated fails.  In [http://a/555-123-4567] the phone
    pattern matches, and the output is [[URL]], without [[PHONE]]: the
    pass of the URLs takes the token with the rest of the URL.  In
    [555-123-4567 555-123-4567http://x] the pattern matches the first
    number only (no word boundary between [7] and [h]); the output is
    [[PHONE] 555-123-4567[URL]], where the pattern matches. *)
Lemma phone_claim_counterexamples :
  (search PHONE_PATTERN $"http://a/555-123-4567" = true
   /\ anonymize_text $"http://a/555-123-4567" = $"[URL]"
   /\ contains $"[PHONE]" (anonymize_text $"http://a/555-123-4567") = false)
  /\ (search PHONE_PATTERN $"555-123-4567 555-123-4567http://x" = true
      /\ anonymize_text $"555-123-4567 555-123-4567http://x"
         = $"[PHONE] 555-123-4567[URL]"
      /\ search PHONE_PATTERN (anonymize_text $"555-123-4567 555-123-4567http://x")
         = true).
Proof. vm_compute. repeat split. Qed.

(** C4, amended.  For every text in which the phone pattern matches: the
    text after the substitution of the phone numbers, the first of
    [anonymize_text], contains [[PHONE]] and has no match of the phone
    pattern; and when the URL pattern matches nowhere in the text, the
    output of [anonymize_text] contains [[PHONE]] and has no match of the
    phone pattern. *)
Theorem phone_numbers_replaced :
  forall text : str,
    search PHONE_PATTERN text = true ->
    (contains $"[PHONE]" (sub PHONE_PATTERN $"[PHONE]" text) = true
     /\ search PHONE_PATTERN (sub PHONE_PATTERN $"[PHONE]" text) = false)
    /\ (search URL_PATTERN text = false ->
        contains $"[PHONE]" (anonymize_text text) = true
        /\ search PHONE_PATTERN (anonymize_text text) = false).
Proof.
  intros text H. pose proof (phone_pass_scrubs text H) as S.
  split; [exact S|]. intros HU.
  unfold anonymize_text. rewrite (search_nonempty text H). cbn [negb].
  apply after_phone_scrubbed; [exact S|].
  destruct UrlFacts.url_passes_ok as (P & E & N & C).
  repeat (apply UrlFacts.url_pass_keeps; [assumption|]). exact HU.
Qed.

(** C4 amended, at a text with a phone number and an e-mail address. *)
Lemma phone_numbers_replaced_witness :
  (contains $"[PHONE]"
     (sub PHONE_PATTERN $"[PHONE]" $"Call me at 555-123-4567 or email a@b.com") = true
   /\ search PHONE_PATTERN
        (sub PHONE_PATTERN $"[PHONE]" $"Call me at 555-123-4567 or email a@b.com") = false)
  /\ (contains $"[PHONE]" (anonymize_text $"Call me at 555-123-4567 or email a@b.com") = true
      /\ search PHONE_PATTERN
           (anonymize_text $"Call me at 555-123-4567 or email a@b.com") = false).
Proof.
  destruct (phone_numbers_replaced $"Call me at 555-123-4567 or email a@b.com")
    as [A B].
  - vm_compute. reflexivity.
  - split; [exact A|]. apply B. vm_compute. reflexivity.
Defined.

End PhoneClaims.

(* ================================================================== *)
(** * Further properties of the service *)
(* ================================================================== *)

(** ** The age range of a medical profile *)

Module AgeFacts.
Import PyStr Models.

Definition AGE_RANGES : list str := [$"0-18"; $"18-30"; $"30-50"; $"50-70"; $"70+"].

(** The range of an age, by the thresholds of the validator. *)
Definition range_of_age (age : Z) : str :=
  if (age <? 18)%Z then $"0-18"
  else if (age <? 30)%Z then $"18-30"
  else if (age <? 50)%Z then $"30-50"
  else if (age <? 70)%Z then $"50-70"
  else $"70+".

(** The number a text of decimal digits writes. *)
Definition decimal (s : str) : Z :=
  fold_left (fun acc c => (10 * acc + digit_value c)%Z) s 0%Z.

Lemma range_of_age_in age : In (range_of_age age) AGE_RANGES.
Proof.
  unfold range_of_age, AGE_RANGES.
  repeat match goal with |- context [if ?b then _ else _] => destruct b end;
    cbn; tauto.
Qed.

Lemma range_is_kept limit r : In r AGE_RANGES -> validate_age_range limit (Some r) = Some r.
Proof.
  intros H. cbn in H.
  repeat destruct H as [<- | H]; try reflexivity. destruct H.
Qed.

Lemma validate_some limit s :
  validate_age_range limit (Some s)
  = if truthy s && negb (existsb (fun char => contains char s) [$"-"; $"+"])
    then match int_of_str limit s with
         | Some age => Some (range_of_age age)
         | None => Some s
         end
    else Some s.
Proof. reflexivity. Qed.

Lemma lstrip_digits p s :
  Forall (fun c => p c = false) s -> lstrip_by p s = s.
Proof. destruct 1 as [| c s H _]; cbn; [reflexivity | rewrite H; reflexivity]. Qed.

Lemma digit_not_int_space c : is_digit c = true -> int_space c = false.
Proof.
  destruct c as [[] [] [] [] [] [] [] []]; vm_compute; intros H;
    first [reflexivity | discriminate H].
Qed.

Lemma digit_not_sign c :
  is_digit c = true -> ascii_eqb c "-"%char = false /\ ascii_eqb c "+"%char = false
                       /\ ascii_eqb c "_"%char = false.
Proof.
  destruct c as [[] [] [] [] [] [] [] []]; vm_compute; intros H;
    first [discriminate H | repeat split].
Qed.

Lemma int_digits_all s :
  Forall (fun c => is_digit c = true) s ->
  forall acc count after,
    s <> [] \/ after = true ->
    int_digits s acc count after
    = Some (fold_left (fun acc c => (10 * acc + digit_value c)%Z) s acc,
            (count + length s)%nat).
Proof.
  induction 1 as [| c s Hc Hs IH]; intros acc count after Ha.
  - destruct Ha as [Ha | ->]; [congruence|]. cbn. rewrite Nat.add_0_r. reflexivity.
  - cbn [int_digits fold_left length]. rewrite Hc. rewrite IH by (right; reflexivity).
    f_equal. f_equal. lia.
Qed.

Lemma int_of_digits limit s :
  s <> [] -> Forall (fun c => is_digit c = true) s ->
  limit = 0%nat \/ length s <= limit ->
  int_of_str limit s = Some (decimal s).
Proof.
  intros Hne Hd Hl. unfold int_of_str.
  assert (Hsp : Forall (fun c => int_space c = false) s).
  { eapply List.Forall_impl; [| exact Hd]. intros c. apply digit_not_int_space. }
  rewrite (lstrip_digits _ _ Hsp). unfold rstrip_by.
  rewrite lstrip_digits by (apply Forall_rev; exact Hsp). rewrite rev_involutive.
  destruct s as [| c t]; [congruence|].
  inversion Hd as [| ? ? Hc Ht]; subst.
  destruct (digit_not_sign c Hc) as (-> & -> & _). cbn [snd fst].
  rewrite (int_digits_all (c :: t) Hd) by (left; discriminate). cbn [Nat.add].
  fold (decimal (c :: t)).
  destruct Hl as [-> | Hl]; [reflexivity|].
  assert (E : (limit <? length (c :: t))%nat = false) by (apply Nat.ltb_ge; exact Hl).
  rewrite E, andb_false_r. reflexivity.
Qed.

Lemma no_sign_in_digits s :
  Forall (fun c => is_digit c = true) s ->
  contains $"-" s = false /\ contains $"+" s = false.
Proof.
  induction 1 as [| c s Hc _ [IH1 IH2]]; [split; reflexivity|].
  destruct (digit_not_sign c Hc) as (A & B & _). unfold ascii_eqb in *.
  rewrite Ascii.eqb_sym in A, B.
  change ($"-") with ["-"%char] in *. change ($"+") with ["+"%char] in *.
  split; cbn [contains startswith]; unfold ascii_eqb;
    [rewrite A, IH1 | rewrite B, IH2]; reflexivity.
Qed.

End AgeFacts.

Section AgeProperties.
Import PyStr Models AgeFacts.

(** X1. The validator of [age_range] leaves a value as it is or replaces it
    by one of the five ranges, and validating twice changes nothing more,
    whatever the limit on the digits of [int]. *)
Theorem validate_age_range_idempotent :
  forall (max_str_digits : nat) (v : option str),
    (validate_age_range max_str_digits v = v
     \/ exists r, In r AGE_RANGES /\ validate_age_range max_str_digits v = Some r)
    /\ validate_age_range max_str_digits (validate_age_range max_str_digits v)
       = validate_age_range max_str_digits v.
Proof.
  intros limit [s |]; [| split; [left |]; reflexivity].
  pose proof (validate_some limit s) as V.
  destruct (truthy s && negb (existsb (fun char => contains char s) [$"-"; $"+"])) eqn:C.
  - destruct (int_of_str limit s) as [age |] eqn:E; rewrite V.
    + split.
      * right. exists (range_of_age age). split; [apply range_of_age_in | reflexivity].
      * apply range_is_kept, range_of_age_in.
    + split; [left; reflexivity | exact V].
  - rewrite V. split; [left; reflexivity | exact V].
Qed.

(** X2. An age written as a number (decimal digits, within the limit of
    [int] when there is one) never stays: it becomes the range the
    thresholds 18, 30, 50 and 70 give. *)
Theorem validate_age_range_of_number :
  forall (max_str_digits : nat) (s : str),
    s <> [] -> Forall (fun c => is_digit c = true) s ->
    max_str_digits = 0%nat \/ length s <= max_str_digits ->
    validate_age_range max_str_digits (Some s) = Some (range_of_age (decimal s))
    /\ range_of_age (decimal s) <> s.
Proof.
  intros limit s Hne Hd Hl.
  assert (E : validate_age_range limit (Some s) = Some (range_of_age (decimal s))).
  { assert (T : truthy s = true) by (destruct s; [congruence | reflexivity]).
    destruct (no_sign_in_digits s Hd) as [S1 S2].
    rewrite validate_some, T. cbn [existsb]. rewrite S1, S2.
    cbn [orb negb andb]. rewrite (int_of_digits limit s Hne Hd Hl). reflexivity. }
  split; [exact E|]. intros Hr.
  pose proof (range_of_age_in (decimal s)) as Hin. rewrite Hr in Hin.
  assert (B : forallb is_digit s = true).
  { apply forallb_forall. intros c Hc. exact (proj1 (List.Forall_forall _ _) Hd c Hc). }
  cbn in Hin. repeat destruct Hin as [<- | Hin]; try destruct Hin;
    vm_compute in B; discriminate B.
Qed.

Lemma validate_age_range_of_number_witness :
  validate_age_range 4300 (Some $"042") = Some (range_of_age (decimal $"042"))
  /\ range_of_age (decimal $"042") <> $"042".
Proof.
  apply (validate_age_range_of_number 4300 $"042").
  - discriminate.
  - repeat constructor.
  - right. cbn. lia.
Defined.

End AgeProperties.

(** ** The disclaimer a response ends with *)

Module DisclaimerFacts.
Import PyStr Validator ParserFacts.

(** The test of [ensure_disclaimer]: one of its three keywords is in the
    text, whatever the case. *)
Definition has_keyword (text : str) : bool :=
  existsb (fun keyword => contains (lower keyword) (lower text)) disclaimer_keywords.

Lemma ensure_disclaimer_cases text disclaimer :
  ensure_disclaimer text disclaimer
  = if has_keyword text then text else text ++ DISCLAIMER_HEADING ++ disclaimer.
Proof. unfold ensure_disclaimer. fold (has_keyword text). destruct (has_keyword text); reflexivity. Qed.

Lemma heading_has_keyword text disclaimer :
  has_keyword (text ++ DISCLAIMER_HEADING ++ disclaimer) = true.
Proof.
  unfold has_keyword, disclaimer_keywords. cbn [existsb].
  apply orb_true_iff. left.
  unfold lower. rewrite !map_app.
  change (map lower_char DISCLAIMER_HEADING)
    with (["010"%char; "010"%char; "*"%char; "*"%char] ++ $"disclaimer" ++ $"**: ").
  change (map lower_char $"disclaimer") with ($"disclaimer").
  replace (map lower_char text
           ++ (["010"%char; "010"%char; "*"%char; "*"%char] ++ $"disclaimer" ++ $"**: ")
           ++ map lower_char disclaimer)
    with ((map lower_char text ++ ["010"%char; "010"%char; "*"%char; "*"%char])
          ++ $"disclaimer" ++ ($"**: " ++ map lower_char disclaimer))
    by (rewrite <- !app_assoc; reflexivity).
  apply contains_intro.
Qed.

End DisclaimerFacts.

Section DisclaimerProperties.
Import PyStr Validator DisclaimerFacts.

(** X3. [ensure_disclaimer] only ever appends: the response is a prefix of
    the result; the result always has one of the three keywords; and a
    second application, with any disclaimer, changes nothing. *)
Theorem ensure_disclaimer_idempotent :
  forall text disclaimer disclaimer' : str,
    has_keyword (ensure_disclaimer text disclaimer) = true
    /\ ensure_disclaimer (ensure_disclaimer text disclaimer) disclaimer'
       = ensure_disclaimer text disclaimer
    /\ (exists tail, ensure_disclaimer text disclaimer = text ++ tail)
    /\ (has_keyword text = false ->
        ensure_disclaimer text disclaimer = text ++ DISCLAIMER_HEADING ++ disclaimer).
Proof.
  intros text d d'.
  assert (K : has_keyword (ensure_disclaimer text d) = true).
  { rewrite ensure_disclaimer_cases. destruct (has_keyword text) eqn:H; [exact H|].
    apply heading_has_keyword. }
  split; [exact K|]. split.
  - rewrite (ensure_disclaimer_cases (ensure_disclaimer text d)), K. reflexivity.
  - rewrite ensure_disclaimer_cases. split.
    + destruct (has_keyword text); [exists []; rewrite app_nil_r | eexists]; reflexivity.
    + intros ->. reflexivity.
Qed.

End DisclaimerProperties.

(** ** The verdict and the severity of a validation *)

Module VerdictFacts.
Import PyStr Re Validator ValidatorFacts.

Definition harmful_message (p : pattern) : str :=
  $"Potentially harmful content detected: " ++ source p.

(** Whether none of the patterns of a list is found in a text. *)
Definition none_found (ps : list pattern) (text : str) : bool :=
  forallb (fun p => negb (re_search p text)) ps.

Lemma harmful_fold text ps r :
  let r' := fold_left (harmful_step text) ps r in
  errors r' = errors r ++ map harmful_message (List.filter (fun p => re_search p text) ps)
  /\ is_valid r' = is_valid r && none_found ps text
  /\ severity r' = (if none_found ps text then severity r else $"error").
Proof.
  revert r. induction ps as [| p ps IH]; intros r; cbn [fold_left].
  - cbn. rewrite app_nil_r, andb_true_r. auto.
  - destruct (IH (harmful_step text r p)) as (E & V & S). cbv zeta.
    rewrite E, V, S. unfold harmful_step, none_found. cbn [List.filter forallb].
    destruct (re_search p text); cbn.
    + rewrite <- app_assoc. repeat split.
      * symmetry. apply andb_false_r.
      * destruct (forallb _ ps); reflexivity.
    + repeat split.
Qed.

(** The severity after the disclaimer check, from a result that has no
    warning yet. *)
Lemma disclaimer_step_severity rd text r :
  warnings r = [] ->
  let r' := disclaimer_step rd text r in
  (severity r = $"info" ->
   (severity r' = $"info" /\ ~ In DISCLAIMER_WARNING (warnings r'))
   \/ (severity r' = $"warning" /\ In DISCLAIMER_WARNING (warnings r')))
  /\ (severity r = $"error" -> severity r' = $"error").
Proof.
  intros W. unfold disclaimer_step.
  destruct rd; [destruct (negb (has_disclaimer text))|]; cbn; rewrite ?W; cbn.
  - split; intros ->; cbn; [right; split; [reflexivity | left; reflexivity] | reflexivity].
  - split; [intros E; left; split; [exact E | intros []] | auto].
  - split; [intros E; left; split; [exact E | intros []] | auto].
Qed.

End VerdictFacts.

Section VerdictProperties.
Import PyStr Re Validator ValidatorFacts VerdictFacts.

(** X4. A response that is blank has the one error [Response is empty]; the
    errors of any other response are the harmful patterns found in it, in
    the order of the table, and it is valid exactly when none is found.
    Neither the response type nor [require_disclaimer] matters. *)
Theorem validate_errors_are_harmful_patterns :
  forall (response_text response_type : str) (require_disclaimer : bool),
    let r := validate_llm_response response_text response_type require_disclaimer in
    errors r
    = (if is_blank response_text then [$"Response is empty"]
       else map harmful_message
              (List.filter (fun p => re_search p response_text) HARMFUL_PATTERNS))
    /\ is_valid r = negb (is_blank response_text) && none_found HARMFUL_PATTERNS response_text.
Proof.
  intros text ty rd. cbv zeta. destruct (is_blank text) eqn:Hb.
  - rewrite (validate_blank _ _ _ Hb). split; reflexivity.
  - rewrite (validate_not_blank _ _ _ Hb).
    set (r0 := fold_left (harmful_step text) HARMFUL_PATTERNS _).
    destruct (later_steps_untouched ty text (disclaimer_step rd text r0)) as [[V E] _].
    destruct (disclaimer_step_verdict rd text r0) as [V' E'].
    rewrite V, E, V', E'. unfold r0.
    match goal with |- context [fold_left _ _ ?i] =>
      destruct (harmful_fold text HARMFUL_PATTERNS i) as (A & B & _) end.
    rewrite A, B. split; reflexivity.
Qed.

(** X5. The severity of a result is [info], [warning] or [error]: [error]
    exactly when the response is not valid, [warning] exactly when it is
    valid and has the disclaimer warning.  The other warnings (length,
    definitive language, call to action) leave the severity alone. *)
Theorem validate_severity :
  forall (response_text response_type : str) (require_disclaimer : bool),
    let r := validate_llm_response response_text response_type require_disclaimer in
    (severity r = $"error" /\ is_valid r = false)
    \/ (severity r = $"warning" /\ is_valid r = true
        /\ In DISCLAIMER_WARNING (warnings r))
    \/ (severity r = $"info" /\ is_valid r = true
        /\ ~ In DISCLAIMER_WARNING (warnings r)).
Proof.
  intros text ty rd. cbv zeta. destruct (is_blank text) eqn:Hb.
  - rewrite (validate_blank _ _ _ Hb). left. split; reflexivity.
  - rewrite (validate_not_blank _ _ _ Hb).
    set (r0 := fold_left (harmful_step text) HARMFUL_PATTERNS _).
    destruct (later_steps_untouched ty text (disclaimer_step rd text r0))
      as [[V _] [S D]].
    destruct (disclaimer_step_verdict rd text r0) as [V' _].
    rewrite V, S, D, V'.
    assert (W0 : warnings r0 = []) by (unfold r0; rewrite harmful_fold_warnings; reflexivity).
    destruct (disclaimer_step_severity rd text r0 W0) as [I E].
    unfold r0 in *.
    match goal with |- context [fold_left _ _ ?i] =>
      destruct (harmful_fold text HARMFUL_PATTERNS i) as (_ & B & C) end.
    cbn [is_valid severity] in B, C. rewrite B. rewrite C in I, E.
    destruct (none_found HARMFUL_PATTERNS text); cbn [andb].
    + destruct (I eq_refl) as [[X Y] | [X Y]]; [right; right | right; left]; auto.
    + left. split; [apply E|]; reflexivity.
Qed.

End VerdictProperties.

(** ** A substitution, for any pattern whose matches are not empty *)

Module SweepFacts.
Import PyStr Re ReFacts ReChecks ScanFacts.

Section Sweep.
Variables (r : regex) (tok : str).
Hypothesis r_nonempty : nonempty r = true.

(** The three ways a substitution goes on from a position. *)
Inductive sweep_step (pw : bool) (s : str) : Prop :=
| sweep_end :
    s = [] -> sub_from r tok pw s = [] -> sweep_step pw s
| sweep_copy c t :
    s = c :: t -> match_at r (pw, s) = None ->
    sub_from r tok pw s = c :: sub_from r tok (is_word c) t -> sweep_step pw s
| sweep_replace u rest :
    s = u ++ rest -> u <> [] -> M r pw u (head_word rest) ->
    sub_from r tok pw s = tok ++ sub_from r tok (last_word pw u) rest ->
    sweep_step pw s.

Lemma sweep_cases pw s : sweep_step pw s.
Proof.
  destruct (match_at r (pw, s)) as [[pw' rest] |] eqn:E.
  - destruct (match_at_sound _ _ _ _ _ E) as (u & -> & Hu & ->).
    pose proof (nonempty_sound _ _ _ _ r_nonempty Hu) as Hne.
    apply (sweep_replace pw (u ++ rest) u rest); auto.
    unfold sub_from at 1. cbn [sub_aux]. rewrite E.
    assert (L : (length rest <? length (u ++ rest))%nat = true).
    { apply Nat.ltb_lt. rewrite length_app. destruct u; [congruence | cbn; lia]. }
    rewrite L. f_equal. apply sub_from_step. apply Nat.ltb_lt in L. lia.
  - destruct s as [| c t].
    + apply sweep_end; auto. unfold sub_from. cbn [sub_aux]. rewrite E. reflexivity.
    + apply (sweep_copy pw (c :: t) c t); auto.
      unfold sub_from at 1. cbn [sub_aux]. rewrite E. reflexivity.
Qed.

(** Induction along a substitution. *)
Lemma sweep_ind (P : bool -> str -> Prop) :
  (forall pw, sub_from r tok pw [] = [] -> P pw []) ->
  (forall pw c t,
      match_at r (pw, c :: t) = None ->
      sub_from r tok pw (c :: t) = c :: sub_from r tok (is_word c) t ->
      P (is_word c) t -> P pw (c :: t)) ->
  (forall pw u rest,
      u <> [] -> M r pw u (head_word rest) ->
      sub_from r tok pw (u ++ rest) = tok ++ sub_from r tok (last_word pw u) rest ->
      P (last_word pw u) rest -> P pw (u ++ rest)) ->
  forall pw s, P pw s.
Proof.
  intros Hend Hcopy Hrep pw s.
  remember (length s) as n eqn:Hn. revert pw s Hn.
  induction n as [n IH] using lt_wf_ind. intros pw s Hn.
  destruct (sweep_cases pw s) as [-> E | c t -> Hm E | u rest -> Hne Hu E].
  - apply Hend, E.
  - apply Hcopy; auto. apply (IH (length t)); [cbn in Hn; lia | reflexivity].
  - apply Hrep; auto. apply (IH (length rest)); [| reflexivity].
    rewrite Hn, length_app. destruct u; [congruence | cbn; lia].
Qed.

(** What holds of the characters of the subject that no match begins
    with, and of those of the replacement, holds of the result. *)
Lemma sub_from_Forall (P : ascii -> Prop) :
  Forall P tok ->
  forall pw s,
    (forall q c t, In c s -> match_at r (q, c :: t) = None -> P c) ->
    Forall P (sub_from r tok pw s).
Proof.
  intros Ht. apply (sweep_ind (fun pw s =>
    (forall q c t, In c s -> match_at r (q, c :: t) = None -> P c) ->
    Forall P (sub_from r tok pw s))).
  - intros pw E _. rewrite E. constructor.
  - intros pw c t Hm E IH H. rewrite E. constructor.
    + apply (H pw c t); [left; reflexivity | exact Hm].
    + apply IH. intros q c' t' Hin. apply H. right. exact Hin.
  - intros pw u rest Hne Hu E IH H. rewrite E. apply Forall_app. split; [exact Ht|].
    apply IH. intros q c' t' Hin. apply H. apply in_or_app. right. exact Hin.
Qed.

(** In particular, what holds of every character of the subject. *)
Lemma sub_from_keeps (P : ascii -> Prop) pw s :
  Forall P tok -> Forall P s -> Forall P (sub_from r tok pw s).
Proof.
  intros Ht Hs. apply sub_from_Forall; [exact Ht|].
  intros q c t Hin _. exact (proj1 (List.Forall_forall _ _) Hs c Hin).
Qed.

End Sweep.
End SweepFacts.

(** ** The sanitized response *)

Module SanitizeFacts.
Import PyStr Re ReFacts ReChecks ScanFacts SweepFacts Validator.

Definition REDACTED : str := $"[REDACTED]".

(** White space is a plain space, if anything. *)
Definition plain (c : ascii) : Prop := is_space c = true -> c = " "%char.

Lemma spaces_match c t pw : is_space c = true -> is_Some (match_at SPACES_PATTERN (pw, c :: t)).
Proof.
  intros Hc. apply (match_at_complete SPACES_PATTERN pw [c] t).
  unfold SPACES_PATTERN, plus. change [c] with ([c] ++ []).
  apply M_cat; [apply M_cls; exact Hc | apply M_star_nil].
Qed.

Lemma spaces_pass_plain s : Forall plain (sub SPACES_PATTERN $" " s).
Proof.
  unfold sub. apply sub_from_Forall; [reflexivity | |].
  - repeat constructor.
  - intros q c t _ Hm Hc. destruct (spaces_match c t q Hc) as [y Hy]. congruence.
Qed.

Lemma lstrip_Forall (P : ascii -> Prop) p s : Forall P s -> Forall P (lstrip_by p s).
Proof.
  induction 1 as [| c s Hc Hs IH]; cbn; [constructor|].
  destruct (p c); [exact IH | constructor; assumption].
Qed.

Lemma strip_Forall (P : ascii -> Prop) s : Forall P s -> Forall P (strip s).
Proof.
  intros H. unfold strip, rstrip_by.
  apply Forall_rev, lstrip_Forall, Forall_rev, lstrip_Forall, H.
Qed.

Definition ssn_char (a : ascii) : bool := is_digit a || mem_char a $"-".
Definition phone_char (a : ascii) : bool := is_digit a || mem_char a $"-.".

Lemma residual_ssn_target :
  unwrap RESIDUAL_SSN = Some Anonymizer.SSN_BODY
  /\ nonempty Anonymizer.SSN_BODY = true
  /\ chars_in ssn_char Anonymizer.SSN_BODY = true
  /\ first_in is_word Anonymizer.SSN_BODY = true
  /\ last_in is_word Anonymizer.SSN_BODY = true.
Proof. repeat split. Qed.

Lemma residual_phone_target :
  unwrap RESIDUAL_PHONE = Some Anonymizer.PHONE_BODY
  /\ nonempty Anonymizer.PHONE_BODY = true
  /\ chars_in phone_char Anonymizer.PHONE_BODY = true
  /\ first_in is_word Anonymizer.PHONE_BODY = true
  /\ last_in is_word Anonymizer.PHONE_BODY = true.
Proof. repeat split. Qed.

Lemma Forall_false (f : ascii -> bool) (l : str) :
  forallb (fun a => negb (f a)) l = true -> Forall (fun a => f a = false) l.
Proof.
  intros H. apply List.Forall_forall. intros c Hc.
  rewrite forallb_forall in H. specialize (H c Hc).
  destruct (f c); [discriminate H | reflexivity].
Qed.

Lemma redacted_token :
  Forall (fun a => ssn_char a = false) REDACTED
  /\ Forall (fun a => phone_char a = false) REDACTED
  /\ (exists a tok', REDACTED = a :: tok' /\ is_word a = false)
  /\ (forall q, last_word q REDACTED = false).
Proof.
  split; [apply Forall_false; vm_compute; reflexivity|].
  split; [apply Forall_false; vm_compute; reflexivity|].
  split; [eexists _, _; split; [reflexivity | vm_compute; reflexivity]|].
  intros []; vm_compute; reflexivity.
Qed.

Lemma residual_nonempty :
  nonempty TAG_PATTERN = true /\ nonempty SPACES_PATTERN = true
  /\ nonempty RESIDUAL_SSN = true /\ nonempty RESIDUAL_PHONE = true.
Proof. vm_compute. repeat split. Qed.

(** The sanitized text: the passes after the one of the white space keep
    what it establishes. *)
Lemma sanitized_plain text : Forall plain (sanitize_response text).
Proof.
  unfold sanitize_response. cbv zeta. fold REDACTED.
  destruct residual_nonempty as (_ & _ & Ns & Np).
  assert (R : Forall plain REDACTED).
  { apply List.Forall_forall. intros c Hc Hs.
    assert (F : forallb (fun a => negb (is_space a)) REDACTED = true)
      by (vm_compute; reflexivity).
    rewrite forallb_forall in F. specialize (F c Hc). rewrite Hs in F. discriminate F. }
  unfold sub at 1 2.
  apply (sub_from_keeps _ _ Np), (sub_from_keeps _ _ Ns); try exact R.
  apply strip_Forall, spaces_pass_plain.
Qed.

Lemma sanitized_one_line text : ~ In "010"%char (sanitize_response text).
Proof.
  intros H.
  pose proof (proj1 (List.Forall_forall _ _) (sanitized_plain text) _ H eq_refl) as E.
  discriminate E.
Qed.

End SanitizeFacts.

Section SanitizeProperties.
Import PyStr Re ReFacts ReChecks ScanFacts SweepFacts Validator SanitizeFacts.

(** X6. Whatever the response, the sanitized text has no match of the
    pattern of social security numbers and none of the pattern of phone
    numbers: the second substitution creates no match of the first. *)
Theorem sanitize_response_leaves_no_number :
  forall response_text : str,
    search RESIDUAL_SSN (sanitize_response response_text) = false
    /\ search RESIDUAL_PHONE (sanitize_response response_text) = false.
Proof.
  intros text. unfold sanitize_response. cbv zeta.
  set (x := strip (sub SPACES_PATTERN $" " (sub TAG_PATTERN [] text))).
  destruct residual_ssn_target as (Su & Sn & Sc & Sf & Sl).
  destruct residual_phone_target as (Pu & Pn & Pc & Pf & Pl).
  set (sb := Anonymizer.SSN_BODY) in *. set (pb := Anonymizer.PHONE_BODY) in *.
  destruct redacted_token as (Ts & Tp & Th & Tl).
  fold REDACTED. split.
  - assert (A : search RESIDUAL_SSN (sub RESIDUAL_SSN REDACTED x) = false).
    { unfold search, sub.
      apply (TargetFacts.own_pass_leaves_no_target RESIDUAL_SSN sb ssn_char
               Su Sn Sc Sf Sl RESIDUAL_SSN sb REDACTED Su Sn Ts Th Tl eq_refl).
      left. reflexivity. }
    destruct (search RESIDUAL_SSN (sub RESIDUAL_PHONE REDACTED (sub RESIDUAL_SSN REDACTED x)))
      eqn:E; [| reflexivity].
    unfold search, sub in E, A.
    apply (TargetFacts.pass_creates_no_target RESIDUAL_SSN sb ssn_char
             Su Sn Sc Sf Sl RESIDUAL_PHONE pb REDACTED Pu Pn Ts Th Tl) in E;
      [| left; reflexivity].
    congruence.
  - unfold search, sub.
    apply (TargetFacts.own_pass_leaves_no_target RESIDUAL_PHONE pb phone_char
             Pu Pn Pc Pf Pl RESIDUAL_PHONE pb REDACTED Pu Pn Tp Th Tl eq_refl).
    left. reflexivity.
Qed.

(** X7. Every white-space character of the sanitized text is a plain space:
    the text is one line, whatever the response. *)
Theorem sanitize_response_is_one_line :
  forall response_text : str,
    Forall (fun c => is_space c = true -> c = " "%char) (sanitize_response response_text)
    /\ ~ In "010"%char (sanitize_response response_text).
Proof.
  intros text. split; [apply sanitized_plain | apply sanitized_one_line].
Qed.

End SanitizeProperties.

(** ** The parsers on a sanitized response *)

Module OneLineFacts.
Import PyStr Models Runtime Prompts Routes.

Lemma split_on_one_line s : ~ In NL s -> split_on NL s = [s].
Proof.
  induction s as [| c s IH]; intros H; [reflexivity|].
  cbn [split_on]. unfold ascii_eqb.
  destruct (Ascii.eqb c NL) eqn:E.
  - apply Ascii.eqb_eq in E. subst c. exfalso. apply H. left. reflexivity.
  - rewrite IH; [reflexivity|]. intros Hin. apply H. right. exact Hin.
Qed.

Definition first_step (instruction : str) : FirstAidStep :=
  {| step_number := 1; instruction := instruction; step_warnings := []; duration := None |}.

Lemma scan_one_line s :
  ~ In NL s ->
  (exists instruction,
      close_step (scan_lines s) = [first_step instruction]
      /\ warnings (scan_lines s) = [])
  \/ (close_step (scan_lines s) = []
      /\ (warnings (scan_lines s) = [] \/ warnings (scan_lines s) = [strip s])).
Proof.
  intros H. unfold scan_lines. rewrite (split_on_one_line s H). cbn [fold_left].
  unfold scan_line. cbn [is_open current_step andb].
  destruct (contains $"step" (lower (strip s)) && contains $":" (strip s)).
  - left. eexists. split; reflexivity.
  - right. rewrite !andb_false_r.
    destruct (contains $"critical warning" (lower (strip s))); cbn; auto.
Qed.

Lemma recommendations_one_line s :
  ~ In NL s ->
  fold_left recommendation_step (split_on NL s) [] = []
  \/ exists r, fold_left recommendation_step (split_on NL s) [] = [r].
Proof.
  intros H. rewrite (split_on_one_line s H). cbn [fold_left].
  unfold recommendation_step.
  destruct (is_recommendation_line (strip s)); [| left; reflexivity].
  destruct (truthy _); [right; eexists | left]; reflexivity.
Qed.

End OneLineFacts.

Section OneLineProperties.
Import PyStr Models Runtime Prompts Routes Validator SanitizeFacts OneLineFacts.

(** X8. The handlers parse the response after [sanitize_response], which
    leaves one line.  So the first-aid parser finds at most one step: the
    steps it returns are one step, numbered 1, without warnings or
    duration, or else the fallback steps of the emergency type; and its
    critical warnings are one text.  The assessment parser finds at most
    one recommendation: it returns one, or the three default ones. *)
Theorem parsers_after_sanitize_see_one_line :
  forall (llm_response : str) (context : EmergencyContext),
    let first_aid := _parse_first_aid_response (sanitize_response llm_response) context in
    let assessment := _parse_assessment_response (sanitize_response llm_response) context in
    ((exists instruction, fd_steps first_aid = [first_step instruction])
     \/ fd_steps first_aid
        = firstn 10 (FallbackService.get_fallback_first_aid (emergency_type context)))
    /\ (fd_critical_warnings first_aid = [$"Always prioritize safety"]
        \/ fd_critical_warnings first_aid = [strip (sanitize_response llm_response)])
    /\ ((exists r, a_recommendations (ad_data assessment) = [r])
        \/ a_recommendations (ad_data assessment) = DEFAULT_RECOMMENDATIONS).
Proof.
  intros t ctx. cbv zeta.
  pose proof (sanitized_one_line t) as H.
  change "010"%char with NL in H.
  set (s := sanitize_response t) in *.
  unfold _parse_first_aid_response, _parse_assessment_response. cbv zeta.
  cbn [fd_steps fd_critical_warnings ad_data a_recommendations].
  split; [| split].
  - destruct (scan_one_line s H) as [(i & -> & _) | (-> & _)];
      [left; exists i | right]; reflexivity.
  - destruct (scan_one_line s H) as [(i & _ & ->) | (_ & [-> | ->])]; auto.
  - destruct (recommendations_one_line s H) as [-> | (r & ->)];
      [right | left; exists r]; reflexivity.
Qed.

End OneLineProperties.

(** ** What the two parsers return, for any response *)

Module StripFacts.
Import PyStr.

Lemma lstrip_by_idem p s : lstrip_by p (lstrip_by p s) = lstrip_by p s.
Proof.
  induction s as [| c s IH]; [reflexivity|]. cbn.
  destruct (p c) eqn:E; [exact IH|]. cbn. rewrite E. reflexivity.
Qed.

Lemma lstrip_by_snoc p s c : p c = false -> lstrip_by p (s ++ [c]) = lstrip_by p s ++ [c].
Proof.
  intros Hc. induction s as [| a s IH]; cbn; [rewrite Hc; reflexivity|].
  destruct (p a); [exact IH | reflexivity].
Qed.

Lemma rstrip_by_cons p c s : p c = false -> rstrip_by p (c :: s) = c :: rstrip_by p s.
Proof.
  intros Hc. unfold rstrip_by. cbn [rev].
  rewrite (lstrip_by_snoc _ _ _ Hc), rev_app_distr. reflexivity.
Qed.

Lemma rstrip_by_idem p s : rstrip_by p (rstrip_by p s) = rstrip_by p s.
Proof. unfold rstrip_by. rewrite rev_involutive, lstrip_by_idem. reflexivity. Qed.

Lemma lstrip_by_head p s :
  lstrip_by p s = [] \/ exists c t, lstrip_by p s = c :: t /\ p c = false.
Proof.
  induction s as [| c s IH]; [left; reflexivity|]. cbn.
  destruct (p c) eqn:E; [exact IH|]. right. exists c, s. auto.
Qed.

Lemma strip_idem s : strip (strip s) = strip s.
Proof.
  unfold strip.
  destruct (lstrip_by_head is_space s) as [-> | (c & t & -> & Hc)]; [reflexivity|].
  rewrite (rstrip_by_cons _ _ _ Hc). cbn [lstrip_by]. rewrite Hc.
  rewrite <- (rstrip_by_cons _ _ _ Hc). apply rstrip_by_idem.
Qed.

End StripFacts.

Module ParsedFacts.
Import PyStr Models Runtime Prompts Routes StripFacts.

(** The steps of a list are numbered from 1, in order. *)
Definition numbered (l : list FirstAidStep) : Prop :=
  forall i s, l !! i = Some s -> step_number s = (Z.of_nat i + 1)%Z.

Lemma numbered_snoc l s :
  numbered l -> step_number s = (Z.of_nat (length l) + 1)%Z -> numbered (l ++ [s]).
Proof.
  intros Hl Hs i x Hi. apply lookup_app_Some in Hi.
  destruct Hi as [Hi | [Hge Hi]]; [apply Hl, Hi|].
  destruct (i - length l) as [| k] eqn:Ek; [| destruct k; discriminate Hi].
  cbn in Hi. inversion Hi; subst x. rewrite Hs. f_equal. lia.
Qed.

Lemma numbered_take n l : numbered l -> numbered (firstn n l).
Proof. intros Hl i s Hi. apply lookup_take_Some in Hi. apply Hl, Hi. Qed.

Fixpoint numbered_from (k : Z) (l : list FirstAidStep) : bool :=
  match l with
  | [] => true
  | s :: t => (step_number s =? k)%Z && numbered_from (k + 1) t
  end.

Lemma numbered_from_sound l :
  forall k, numbered_from k l = true ->
            forall i s, l !! i = Some s -> step_number s = (Z.of_nat i + k)%Z.
Proof.
  induction l as [| x l IH]; intros k H i s Hi; [discriminate Hi|].
  cbn in H. apply andb_prop in H. destruct H as [Hx Hl].
  destruct i as [| i]; cbn in Hi.
  - inversion Hi; subst. apply Z.eqb_eq in Hx. lia.
  - rewrite (IH _ Hl i s Hi). lia.
Qed.

Lemma fallback_numbered ty :
  numbered (FallbackService.get_fallback_first_aid ty)
  /\ 1 <= length (FallbackService.get_fallback_first_aid ty) <= 4.
Proof.
  split.
  - intros i s Hi. apply (numbered_from_sound _ 1%Z) in Hi; [exact Hi|].
    destruct ty; vm_compute; reflexivity.
  - destruct ty; vm_compute; split; lia.
Qed.

(** The state of the scan: the closed steps are numbered, and the open
    one has the next number. *)
Definition scan_ok (st : Scan) : Prop :=
  numbered (steps st)
  /\ forall s, current_step st = Some s ->
               step_number s = (Z.of_nat (length (steps st)) + 1)%Z.

Lemma close_step_numbered st : scan_ok st -> numbered (close_step st).
Proof.
  intros [Hn Hc]. unfold close_step.
  destruct (current_step st) as [s |]; [| exact Hn].
  apply numbered_snoc; auto.
Qed.

Lemma scan_line_ok st line : scan_ok st -> scan_ok (scan_line st line).
Proof.
  intros H. pose proof H as [Hn Hc]. unfold scan_line.
  destruct (_ && _).
  - split; cbn [steps current_step]; [apply close_step_numbered, H|].
    intros s [= <-]. reflexivity.
  - destruct (_ && _).
    { split; cbn [steps current_step with_current]; [exact Hn|].
      intros s Hs. destruct (current_step st) as [s0 |]; [| discriminate Hs].
      cbn in Hs. inversion Hs; subst s. cbn. apply Hc. reflexivity. }
    destruct (_ && _).
    { split; cbn [steps current_step with_current]; [exact Hn|].
      intros s Hs. destruct (current_step st) as [s0 |]; [| discriminate Hs].
      cbn in Hs. inversion Hs; subst s. cbn. apply Hc. reflexivity. }
    destruct (contains _ _); [split; cbn [steps current_step]; assumption | exact H].
Qed.

Lemma scan_lines_ok text : scan_ok (scan_lines text).
Proof.
  unfold scan_lines.
  assert (G : forall ls st, scan_ok st -> scan_ok (fold_left scan_line ls st)).
  { induction ls as [| l ls IH]; intros st H; [exact H|].
    cbn [fold_left]. apply IH, scan_line_ok, H. }
  apply G. split; cbn; [intros i s Hi; discriminate Hi | intros s Hs; discriminate Hs].
Qed.

(** A recommendation as the assessment parser keeps it: not empty, and
    without white space around it. *)
Definition tidy (r : str) : Prop := r <> [] /\ strip r = r.

Lemma recommendation_step_tidy rs line :
  Forall tidy rs -> Forall tidy (recommendation_step rs line).
Proof.
  intros H. unfold recommendation_step.
  destruct (is_recommendation_line _); [| exact H].
  destruct (truthy _) eqn:T; [| exact H].
  apply Forall_app. split; [exact H|]. constructor; [| constructor].
  split.
  - intros E. rewrite E in T. discriminate T.
  - unfold clean_recommendation. apply strip_idem.
Qed.

Lemma recommendations_tidy ls :
  forall rs, Forall tidy rs -> Forall tidy (fold_left recommendation_step ls rs).
Proof.
  induction ls as [| l ls IH]; intros rs H; [exact H|].
  cbn [fold_left]. apply IH, recommendation_step_tidy, H.
Qed.

Lemma default_recommendations_tidy : Forall tidy DEFAULT_RECOMMENDATIONS.
Proof. repeat constructor; try discriminate; vm_compute; reflexivity. Qed.

End ParsedFacts.

Section ParsedProperties.
Import PyStr Models Runtime Prompts Routes StripFacts ParsedFacts.

(** X9. Whatever the response, the first-aid parser returns between 1 and 10
    steps, numbered 1, 2, 3, ... in order, and between 1 and 5 critical
    warnings; it echoes the identifier and the type of the context. *)
Theorem parse_first_aid_response_steps_numbered :
  forall (llm_response : str) (context : EmergencyContext),
    let d := _parse_first_aid_response llm_response context in
    (forall i s, fd_steps d !! i = Some s -> step_number s = (Z.of_nat i + 1)%Z)
    /\ 1 <= length (fd_steps d) <= 10
    /\ 1 <= length (fd_critical_warnings d) <= 5
    /\ fd_success d = true
    /\ fd_emergency_id d = emergency_id context
    /\ fd_emergency_type d = emergency_type context.
Proof.
  intros t ctx. cbv zeta. unfold _parse_first_aid_response. cbv zeta.
  cbn [fd_steps fd_critical_warnings fd_success fd_emergency_id fd_emergency_type].
  pose proof (close_step_numbered _ (scan_lines_ok t)) as Hn.
  destruct (fallback_numbered (emergency_type ctx)) as [Fn Fl].
  split; [| split; [| split; [| auto]]].
  - destruct (close_step (scan_lines t)); apply numbered_take; assumption.
  - destruct (close_step (scan_lines t)) as [| s l].
    + rewrite length_firstn. lia.
    + rewrite length_firstn. cbn [length]. lia.
  - destruct (warnings (scan_lines t)) as [| w ws]; [cbn; lia|].
    rewrite length_firstn. cbn [length]. lia.
Qed.

(** X10. Whatever the response, the assessment parser returns between 1 and 5
    recommendations, none empty and none with white space around it, and
    as assessment the first 500 characters of the response. *)
Theorem parse_assessment_response_bounds :
  forall (llm_response : str) (context : EmergencyContext),
    let d := _parse_assessment_response llm_response context in
    1 <= length (a_recommendations (ad_data d)) <= 5
    /\ Forall (fun r => r <> [] /\ strip r = r) (a_recommendations (ad_data d))
    /\ length (a_assessment (ad_data d)) <= 500
    /\ (exists tail, llm_response = a_assessment (ad_data d) ++ tail)
    /\ ad_success d = true
    /\ ad_emergency_id d = emergency_id context.
Proof.
  intros t ctx. cbv zeta. unfold _parse_assessment_response. cbv zeta.
  cbn [ad_data a_recommendations a_assessment ad_success ad_emergency_id].
  pose proof (recommendations_tidy (split_on NL t) [] ltac:(constructor)) as H.
  set (rs := fold_left recommendation_step (split_on NL t) []) in *.
  assert (T : Forall tidy match rs with [] => DEFAULT_RECOMMENDATIONS | _ => rs end).
  { destruct rs; [apply default_recommendations_tidy | exact H]. }
  split; [| split; [| split; [| split; [| auto]]]].
  - rewrite length_firstn. destruct rs; cbn [length DEFAULT_RECOMMENDATIONS]; lia.
  - apply Forall_take. exact T.
  - rewrite length_firstn. lia.
  - exists (skipn 500 t). symmetry. apply firstn_skipn.
Qed.

End ParsedProperties.

(** ** The cache object *)

Module CacheFacts.
Import PyStr Models Runtime CacheKey RedisCache.

Section WithCoord.
Context {coord : Type}.

(** A cache that is switched on, has a client, and whose server answers. *)
Definition live (self : RedisCache) (w : World coord) : Prop :=
  enabled self = true /\ client self = true /\ redis_up w = true.



Lemma set_live settings self key value ttl (w : World coord) :
  live self w ->
  set settings self key value ttl w
  = (inr true, with_redis (insert key (ttl_or_default settings ttl, value)) w).
Proof.
  intros (E & C & U). unfold set. rewrite E, C. cbn [negb orb].
  unfold try_except, bind, client_setex, ret. rewrite U. reflexivity.
Qed.

Lemma get_live self key (w : World coord) :
  live self w -> get self key w = (inr (snd <$> redis w !! key), w).
Proof.
  intros (E & C & U). unfold get. rewrite E, C. cbn [negb orb].
  unfold try_except, client_get, ret. rewrite U. reflexivity.
Qed.



End WithCoord.

(** The keys of the two kinds of entries differ. *)
Lemma keys_apart ty d ty' d' : assessment_key ty d <> first_aid_key ty' d'.
Proof.
  unfold assessment_key, first_aid_key, _generate_cache_key.
  change ($"llm:" ++ $"assessment") with ($"llm:" ++ "a"%char :: $"ssessment").
  change ($"llm:" ++ $"first_aid") with ($"llm:" ++ "f"%char :: $"irst_aid").
  intros E. apply (f_equal (fun s => nth 4 s " "%char)) in E.
  cbn [nth app list_ascii_of_string] in E. discriminate E.
Qed.

End CacheFacts.

Section CacheProperties.
Import PyStr Models Runtime CacheKey RedisCache CacheFacts.




(** X13. The entries of the two handlers.  An assessment is kept under its
    emergency type and the first 100 characters of the description: it is
    what a lookup returns for any description with the same type and the
    same first 100 characters; and the entries of one kind are never those
    of the other: setting a first-aid entry changes no assessment entry,
    and the other way round. *)
Theorem cache_entries_by_type_and_prefix :
  forall (coord : Type) (settings : Settings) (self : RedisCache)
         (emergency_type description description' : str) (w : World coord),
    live self w ->
    firstn 100 description' = firstn 100 description ->
    (forall response, exists w',
        set_assessment_cache settings self emergency_type description response w
        = (inr true, w')
        /\ get_assessment_cache self emergency_type description' w'
           = (inr (Some (CachedAssessment response)), w')
        /\ (forall ty d, redis w' !! first_aid_key ty d = redis w !! first_aid_key ty d))
    /\ (forall response, exists w',
        set_first_aid_cache settings self emergency_type description response w
        = (inr true, w')
        /\ get_first_aid_cache self emergency_type description' w'
           = (inr (Some (CachedFirstAid response)), w')
        /\ (forall ty d, redis w' !! assessment_key ty d = redis w !! assessment_key ty d)).
Proof.
  intros coord settings self ty d d' w L Hd.
  assert (Ka : assessment_key ty d' = assessment_key ty d)
    by (unfold assessment_key; rewrite Hd; reflexivity).
  assert (Kf : first_aid_key ty d' = first_aid_key ty d)
    by (unfold first_aid_key; rewrite Hd; reflexivity).
  split; intros response; eexists.
  - unfold set_assessment_cache, get_assessment_cache. rewrite Ka.
    split; [apply set_live, L|].
    split.
    + rewrite get_live by exact L. cbn [redis with_redis].
      rewrite lookup_insert_eq. reflexivity.
    + intros ty0 d0. cbn [redis with_redis]. apply lookup_insert_ne.
      apply keys_apart.
  - unfold set_first_aid_cache, get_first_aid_cache. rewrite Kf.
    split; [apply set_live, L|].
    split.
    + rewrite get_live by exact L. cbn [redis with_redis].
      rewrite lookup_insert_eq. reflexivity.
    + intros ty0 d0. cbn [redis with_redis]. apply lookup_insert_ne.
      intros E. symmetry in E. exact (keys_apart _ _ _ _ E).
Qed.

Definition long_description (ending : str) : str :=
  repeat "a"%char 100 ++ ending.

(** Two descriptions of 104 characters that differ after the 100th. *)
Lemma cache_entries_by_type_and_prefix_witness :
  let w := {| heap := ∅; redis := ∅; redis_up := true; calls := [] |} : World Z in
  let self := {| client := true; enabled := true |} in
  let settings := {| CACHE_TTL := 3600; ENABLE_CACHING := true;
                     ENABLE_PII_ANONYMIZATION := true;
                     ENABLE_FALLBACK_RESPONSES := true |} in
  (forall response, exists w',
      set_assessment_cache settings self $"medical" (long_description $"left") response w
      = (inr true, w')
      /\ get_assessment_cache self $"medical" (long_description $"rght") w'
         = (inr (Some (CachedAssessment response)), w')
      /\ (forall ty d, redis w' !! first_aid_key ty d = redis w !! first_aid_key ty d))
  /\ (forall response, exists w',
      set_first_aid_cache settings self $"medical" (long_description $"left") response w
      = (inr true, w')
      /\ get_first_aid_cache self $"medical" (long_description $"rght") w'
         = (inr (Some (CachedFirstAid response)), w')
      /\ (forall ty d, redis w' !! assessment_key ty d = redis w !! assessment_key ty d)).
Proof.
  apply (cache_entries_by_type_and_prefix Z
           {| CACHE_TTL := 3600; ENABLE_CACHING := true;
              ENABLE_PII_ANONYMIZATION := true; ENABLE_FALLBACK_RESPONSES := true |}
           {| client := true; enabled := true |} $"medical"
           (long_description $"left") (long_description $"rght")
           {| heap := ∅; redis := ∅; redis_up := true; calls := [] |}).
  - repeat split.
  - reflexivity.
Defined.

End CacheProperties.

(** ** The health check of the providers *)

Section AvailabilityProperties.
Import PyStr Models Runtime Orchestrator OrchestratorFacts.

(** X14. [check_availability] never raises.  It invokes every configured
    provider once with the message [test], the primary one first, also
    when the primary one has answered; a provider is reported as up
    exactly when it is configured and answers that message, and
    [available] is the disjunction of the two reports.  Nothing but the
    call log changes. *)
Theorem check_availability_probes_each_provider :
  forall (coord : Type) (self : LLMOrchestrator) (w : World coord),
    let probe_messages := [HumanMessage $"test"] in
    let up llm :=
      match llm with
      | Some p => match ainvoke p probe_messages with inr _ => true | inl _ => false end
      | None => false
      end in
    check_availability self w
    = (inr {| status_primary := up (primary_llm self);
              status_fallback := up (fallback_llm self);
              status_available := up (primary_llm self) || up (fallback_llm self) |},
       with_calls (fun cs => cs ++ logged probe_messages (map fst (attempts self false))) w)
    /\ heap (snd (check_availability self w)) = heap w
    /\ redis (snd (check_availability self w)) = redis w
    /\ redis_up (snd (check_availability self w)) = redis_up w.
Proof.
  intros coord self w. cbv zeta.
  unfold check_availability, probe, attempts, logged, bind, try_except, invoke, ret.
  destruct w as [h r u cs].
  destruct self as [[p |] [q |]]; cbn;
    try destruct (ainvoke p _) as [e1 | t1]; cbn;
    try destruct (ainvoke q _) as [e2 | t2]; cbn;
    unfold with_calls; cbn; rewrite <- ?app_assoc, ?app_nil_r; repeat split.
Qed.

End AvailabilityProperties.

(** ** The errors of the handlers *)

Module ErrorFacts.
Import PyStr Models Runtime Prompts Routes.

Section WithCoord.
Context {coord : Type}.

(** A computation whose exceptions all satisfy [P]. *)
Definition raises_only {A : Type} (P : Exn -> Prop) (m : Py coord A) : Prop :=
  forall w e w', m w = (inl e, w') -> P e.

Lemma only_ret {A : Type} P (a : A) : raises_only P (ret a).
Proof. intros w e w' H. discriminate H. Qed.

Lemma only_raise {A : Type} (P : Exn -> Prop) e : P e -> raises_only P (@raise coord A e).
Proof. intros He w e' w' H. inversion H; subst. exact He. Qed.

Lemma only_bind {A B : Type} P (m : Py coord A) (f : A -> Py coord B) :
  raises_only P m -> (forall a, raises_only P (f a)) -> raises_only P (bind m f).
Proof.
  intros Hm Hf w e w'. unfold bind. specialize (Hm w).
  destruct (m w) as [[e1 | a] w1].
  - intros H. inversion H; subst. eapply Hm. reflexivity.
  - apply Hf.
Qed.

(** What a [try] raises is what its handler raises. *)
Lemma only_try {A : Type} P (m : Py coord A) (h : Exn -> Py coord A) :
  (forall e, raises_only P (h e)) -> raises_only P (try_except m h).
Proof.
  intros Hh w e w'. unfold try_except.
  destruct (m w) as [[e1 | a] w1]; [apply Hh | discriminate].
Qed.

(** An exception that is not an [HTTPException]. *)
Definition plain (e : Exn) : Prop := exists msg, e = Exception msg.

Lemma only_weaken {A : Type} (P Q : Exn -> Prop) (m : Py coord A) :
  (forall e, P e -> Q e) -> raises_only P m -> raises_only Q m.
Proof. intros HPQ Hm w e w' H. eapply HPQ, Hm, H. Qed.

Lemma plain_read_context r : raises_only plain (@read_context coord r).
Proof.
  intros w e w'. unfold read_context.
  destruct (heap w !! r) as [[] |]; intros H; inversion H; eexists; reflexivity.
Qed.

Lemma plain_read_location r : raises_only plain (@read_location coord r).
Proof.
  intros w e w'. unfold read_location.
  destruct (heap w !! r) as [[] |]; intros H; inversion H; eexists; reflexivity.
Qed.

Lemma plain_read_medical r : raises_only plain (@read_medical coord r).
Proof.
  intros w e w'. unfold read_medical.
  destruct (heap w !! r) as [[] |]; intros H; inversion H; eexists; reflexivity.
Qed.

Lemma plain_alloc o : raises_only plain (@alloc coord o).
Proof. intros w e w' H. discriminate H. Qed.

Lemma plain_write r o : raises_only plain (@write coord r o).
Proof. intros w e w' H. discriminate H. Qed.

Ltac plainly :=
  repeat first
    [ apply only_ret | apply plain_read_context | apply plain_read_location
    | apply plain_read_medical | apply plain_alloc | apply plain_write
    | apply only_raise; eexists; reflexivity
    | apply only_bind; [| intros ?]
    | match goal with
      | |- raises_only _ (match ?x with _ => _ end) => destruct x
      | |- raises_only _ (when_ ?b _) => unfold when_; destruct b
      end ].

Lemma plain_anonymize context :
  raises_only plain (@anonymize_emergency_context coord context).
Proof.
  unfold anonymize_emergency_context, model_copy_deep, set_description,
    set_additional_info, set_address, set_latitude, set_longitude, location_of,
    AttributeError.
  plainly.
Qed.

Lemma cache_get_returns self key (w : World coord) :
  exists found, RedisCache.get self key w = (inr found, w).
Proof.
  unfold RedisCache.get, RedisCache.client_get, try_except, ret.
  destruct (negb (RedisCache.enabled self) || negb (RedisCache.client self)); [eauto|].
  destruct (redis_up w); eauto.
Qed.

Lemma plain_cache_get self key : raises_only plain (@RedisCache.get coord self key).
Proof.
  intros w e w' H. destruct (cache_get_returns self key w) as [found E].
  rewrite E in H. discriminate H.
Qed.

Section Handlers.
Variable settings : RedisCache.Settings.

Definition UNAVAILABLE : Exn :=
  HTTPException 503 $"LLM service unavailable and fallback is disabled".

(** What the body of a handler raises: an exception that is not an
    [HTTPException], or the 503 of the disabled fallback. *)
Definition inner (e : Exn) : Prop :=
  plain e \/ (e = UNAVAILABLE /\ RedisCache.ENABLE_FALLBACK_RESPONSES settings = false).

(** What a handler raises: a 500, or the 503 of the disabled fallback. *)
Definition outer (e : Exn) : Prop :=
  (exists detail, e = HTTPException 500 detail)
  \/ (e = UNAVAILABLE /\ RedisCache.ENABLE_FALLBACK_RESPONSES settings = false).

Lemma http_guard_outer {A : Type} failed (m : Py coord A) :
  raises_only inner m -> raises_only outer (http_guard failed m).
Proof.
  intros Hm w e w'. unfold http_guard, try_except. specialize (Hm w).
  destruct (m w) as [[e1 | a] w1]; [| discriminate].
  specialize (Hm e1 w1 eq_refl). destruct Hm as [[msg ->] | [-> Hf]].
  - intros H. inversion H; subst. left. eexists. reflexivity.
  - intros H. inversion H; subst. right. split; [reflexivity | exact Hf].
Qed.

Lemma inner_of_plain {A : Type} (m : Py coord A) : raises_only plain m -> raises_only inner m.
Proof. apply only_weaken. intros e H. left. exact H. Qed.

Lemma assess_emergency_outer cache orchestrator request :
  raises_only outer (@assess_emergency coord settings cache orchestrator request).
Proof.
  unfold assess_emergency. apply http_guard_outer.
  apply only_bind;
    [apply inner_of_plain; unfold anonymized_or_same;
     destruct (RedisCache.ENABLE_PII_ANONYMIZATION _);
     [apply plain_anonymize | apply only_ret] | intros anonymized_context].
  apply only_bind; [apply inner_of_plain, plain_read_context | intros ac].
  apply only_bind; [apply inner_of_plain, plain_cache_get | intros [[d | d] |]].
  - apply only_ret.
  - apply only_raise. left. eexists. reflexivity.
  - apply only_try. intros e.
    destruct (RedisCache.ENABLE_FALLBACK_RESPONSES settings) eqn:F.
    + apply inner_of_plain. plainly.
    + apply only_raise. right. split; [reflexivity | exact F].
Qed.

Lemma first_aid_outer cache orchestrator request concern :
  raises_only outer (@get_first_aid_guidance coord settings cache orchestrator request concern).
Proof.
  unfold get_first_aid_guidance. apply http_guard_outer.
  apply only_bind;
    [apply inner_of_plain; unfold anonymized_or_same;
     destruct (RedisCache.ENABLE_PII_ANONYMIZATION _);
     [apply plain_anonymize | apply only_ret] | intros anonymized_context].
  apply only_bind; [apply inner_of_plain, plain_read_context | intros ac].
  apply only_bind; [apply inner_of_plain, plain_cache_get | intros [[d | d] |]].
  - apply only_raise. left. eexists. reflexivity.
  - apply only_ret.
  - apply only_try. intros e.
    destruct (RedisCache.ENABLE_FALLBACK_RESPONSES settings) eqn:F.
    + apply inner_of_plain. plainly.
    + apply only_raise. right. split; [reflexivity | exact F].
Qed.

End Handlers.
End WithCoord.
End ErrorFacts.

Section ErrorProperties.
Import PyStr Models Runtime Prompts Routes ErrorFacts.

(** X15. Whatever the request, the settings, the cache, the providers and the
    state, a handler that does not return raises an [HTTPException]: with
    status 500, or with status 503 and the detail of the disabled
    fallback, the latter only when [ENABLE_FALLBACK_RESPONSES] is off.  No
    other exception leaves a handler, and none of a provider. *)
Theorem handlers_raise_only_http_errors :
  forall (coord : Type) (settings : RedisCache.Settings) (cache : RedisCache.RedisCache)
         (orchestrator : Orchestrator.LLMOrchestrator) (request : ref)
         (specific_concern : option str) (w : World coord),
    let allowed e :=
      (exists detail, e = HTTPException 500 detail)
      \/ (e = HTTPException 503 $"LLM service unavailable and fallback is disabled"
          /\ RedisCache.ENABLE_FALLBACK_RESPONSES settings = false) in
    match fst (assess_emergency settings cache orchestrator request w) with
    | inl e => allowed e
    | inr _ => True
    end
    /\ match fst (get_first_aid_guidance settings cache orchestrator request
                    specific_concern w) with
       | inl e => allowed e
       | inr _ => True
       end.
Proof.
  intros coord settings cache orchestrator request concern w. cbv zeta. split.
  - pose proof (assess_emergency_outer settings cache orchestrator request w) as H.
    destruct (assess_emergency settings cache orchestrator request w) as [[e | r] w'];
      [exact (H e w' eq_refl) | exact I].
  - pose proof (first_aid_outer settings cache orchestrator request concern w) as H.
    destruct (get_first_aid_guidance settings cache orchestrator request concern w)
      as [[e | r] w']; [exact (H e w' eq_refl) | exact I].
Qed.

Definition fallback_off : RedisCache.Settings :=
  {| RedisCache.CACHE_TTL := 3600; RedisCache.ENABLE_CACHING := true;
     RedisCache.ENABLE_PII_ANONYMIZATION := true;
     RedisCache.ENABLE_FALLBACK_RESPONSES := false |}.

(** Both errors are reached: the 503 with the fallback off and no
    provider, the 500 with a request whose context is missing. *)
Lemma handler_errors_reached :
  fst (assess_emergency fallback_off live_cache no_providers 1%positive request_world)
  = inl (HTTPException 503 $"LLM service unavailable and fallback is disabled")
  /\ fst (get_first_aid_guidance all_on live_cache no_providers 2%positive None
            request_world)
     = inl (HTTPException 500 $"Failed to get first aid guidance: AttributeError").
Proof. split; vm_compute; reflexivity. Qed.

End ErrorProperties.

(** ** Detection and anonymization *)

Module DetectFacts.
Import PyStr Re ReFacts ScanFacts Anonymizer.

(** A scan counts no match exactly when a search finds none. *)
Lemma count_aux_zero r :
  forall fuel pw s,
    length s < fuel ->
    (count_aux r fuel pw s = 0 <-> search_from r pw s = false).
Proof.
  induction fuel as [| f IH]; intros pw s Hf; [lia|].
  cbn [count_aux]. rewrite search_from_unfold.
  destruct (match_at r (pw, s)) as [[pw' rest] |] eqn:E.
  - split; [| discriminate].
    destruct (length rest <? length s)%nat; [discriminate|].
    destruct s; discriminate.
  - destruct s as [| c t]; [split; reflexivity|].
    apply IH. cbn in Hf. lia.
Qed.

Lemma findall_count_zero r s : findall_count r s = 0 <-> search r s = false.
Proof. unfold findall_count, search. apply count_aux_zero. lia. Qed.

Lemma findall_count_pos r s : (0 <? findall_count r s)%nat = search r s.
Proof.
  destruct (search r s) eqn:E.
  - apply Nat.ltb_lt. destruct (findall_count r s) eqn:C; [| lia].
    apply findall_count_zero in C. congruence.
  - apply findall_count_zero in E. rewrite E. reflexivity.
Qed.

(** The patterns [detect_pii] counts. *)
Definition DETECTED : list regex :=
  [PHONE_PATTERN; EMAIL_PATTERN; SSN_PATTERN; CREDIT_CARD_PATTERN; URL_PATTERN;
   address_regex detect_suffixes].

Lemma sub_identity r tok s : search r s = false -> sub r tok s = s.
Proof. apply sub_from_identity. Qed.

Lemma titles_identity titles s :
  (forall title, In title titles -> search (title_pattern title) s = false) ->
  fold_left (fun t title => sub (title_pattern title) (title_token title) t) titles s = s.
Proof.
  induction titles as [| title titles IH]; intros H; [reflexivity|].
  cbn [fold_left]. rewrite sub_identity by (apply H; left; reflexivity).
  apply IH. intros t Ht. apply H. right. exact Ht.
Qed.

Lemma detect_pii_found text :
  let report := detect_pii text in
  ((0 <? phone_numbers report)%nat = search PHONE_PATTERN text
   /\ (0 <? emails report)%nat = search EMAIL_PATTERN text
   /\ (0 <? ssn report)%nat = search SSN_PATTERN text
   /\ (0 <? credit_cards report)%nat = search CREDIT_CARD_PATTERN text
   /\ (0 <? urls report)%nat = search URL_PATTERN text
   /\ (0 <? addresses report)%nat = search (address_regex detect_suffixes) text)
  /\ has_pii report = existsb (fun r => search r text) DETECTED.
Proof.
  cbv zeta. unfold detect_pii.
  destruct text as [| c t]; [vm_compute; repeat split|].
  cbn [truthy length Nat.eqb negb]. cbv zeta.
  cbn [has_pii phone_numbers emails ssn credit_cards urls addresses existsb DETECTED].
  rewrite !findall_count_pos. repeat split.
Qed.

End DetectFacts.

Section DetectProperties.
Import PyStr Re Anonymizer DetectFacts.

(** X16. [detect_pii] reports a kind of data exactly when its pattern is found
    in the text, and [has_pii] exactly when one of the six patterns is. *)
Theorem detect_pii_reports_what_is_found :
  forall text : str,
    let report := detect_pii text in
    ((0 <? phone_numbers report)%nat = search PHONE_PATTERN text
     /\ (0 <? emails report)%nat = search EMAIL_PATTERN text
     /\ (0 <? ssn report)%nat = search SSN_PATTERN text
     /\ (0 <? credit_cards report)%nat = search CREDIT_CARD_PATTERN text
     /\ (0 <? urls report)%nat = search URL_PATTERN text
     /\ (0 <? addresses report)%nat = search (address_regex detect_suffixes) text)
    /\ has_pii report = existsb (fun r => search r text) DETECTED.
Proof. intros text. apply detect_pii_found. Qed.

(** X17. A text in which [detect_pii] finds nothing, and which has no title
    followed by a name and no street address with one of the twelve
    suffixes, is returned by [anonymize_text] as it is. *)
Theorem anonymize_text_keeps_clean_text :
  forall text : str,
    has_pii (detect_pii text) = false ->
    (forall title, In title NAME_TITLES -> search (title_pattern title) text = false) ->
    search (address_regex anonymize_suffixes) text = false ->
    anonymize_text text = text.
Proof.
  intros text Hp Ht Ha.
  destruct (detect_pii_found text) as [_ H]. cbv zeta in H. rewrite Hp in H.
  symmetry in H. cbn [existsb DETECTED] in H.
  repeat (apply orb_false_elim in H; let H' := fresh "S" in destruct H as [H' H]).
  unfold anonymize_text, after_phone, replace_titles. cbv zeta.
  destruct (negb (truthy text)); [reflexivity|].
  rewrite (sub_identity PHONE_PATTERN) by assumption.
  rewrite (sub_identity EMAIL_PATTERN) by assumption.
  rewrite (sub_identity SSN_PATTERN) by assumption.
  rewrite (sub_identity CREDIT_CARD_PATTERN) by assumption.
  rewrite (sub_identity URL_PATTERN) by assumption.
  rewrite titles_identity by assumption.
  apply sub_identity. exact Ha.
Qed.

(** The text of the first end-to-end description, without the phone
    number. *)
Lemma anonymize_text_keeps_clean_text_witness :
  anonymize_text $"Patient is unresponsive and not breathing"
  = $"Patient is unresponsive and not breathing".
Proof.
  apply (anonymize_text_keeps_clean_text $"Patient is unresponsive and not breathing").
  - vm_compute. reflexivity.
  - intros title Ht.
    assert (B : forallb (fun title =>
                  negb (search (title_pattern title)
                          $"Patient is unresponsive and not breathing"))
                  NAME_TITLES = true) by (vm_compute; reflexivity).
    rewrite forallb_forall in B. specialize (B title Ht).
    destruct (search (title_pattern title) _); [discriminate B | reflexivity].
  - vm_compute. reflexivity.
Defined.

End DetectProperties.

(** ** What the anonymizer leaves no match of *)

Module StartFacts.
Import PyStr Re ReFacts ReChecks ScanFacts.

Section Start.
(** The target: a pattern [\b tbody \b] whose matches are not empty, are
    made of characters of [D], begin with a character of [F] and begin and
    end with a word character. *)
Variables (t tbody : regex) (D F : ascii -> bool).
Hypothesis t_wrapped : unwrap t = Some tbody.
Hypothesis t_nonempty : nonempty tbody = true.
Hypothesis t_chars : chars_in D tbody = true.
Hypothesis t_first : first_in is_word tbody = true.
Hypothesis t_last : last_in is_word tbody = true.
Hypothesis t_start : first_in F tbody = true.

(** No match of the target begins with a character that is not in [F]. *)
Lemma no_start q a x : F a = false -> match_at t (q, a :: x) = None.
Proof.
  intros Ha. destruct (match_at t (q, a :: x)) as [[q' rest] |] eqn:E; [| reflexivity].
  apply match_at_sound in E. destruct E as (w & Ew & Hw & _).
  destruct (pass_match_inv _ _ t_wrapped t_nonempty _ _ _ Hw) as (Hne & Hb & _).
  pose proof (first_in_sound _ _ _ _ _ t_start Hb) as Hf.
  destruct w as [| b w]; [congruence|]. cbn in Hf. inversion Ew; subst. congruence.
Qed.

Lemma search_past q junk x :
  Forall (fun a => F a = false) junk ->
  search_from t q (junk ++ x) = search_from t (last_word q junk) x.
Proof.
  revert q. induction junk as [| a junk IH]; intros q H; [reflexivity|].
  inversion H; subst. cbn [app]. rewrite search_from_unfold, no_start by assumption.
  cbn. apply IH. assumption.
Qed.

(** The pass: a pattern [\b body \b] whose matches are not empty, and a
    replacement that begins with a character that is neither in [D] nor a
    word character, has no character of [F], and ends with a character
    that is not a word character. *)
Variables (r body : regex) (tok : str).
Hypothesis r_wrapped : unwrap r = Some body.
Hypothesis body_nonempty : nonempty body = true.
Hypothesis tok_head :
  exists a tok', tok = a :: tok' /\ is_word a = false /\ D a = false.
Hypothesis tok_start : Forall (fun a => F a = false) tok.
Hypothesis tok_last : forall q, last_word q tok = false.

Lemma copied w :
  Forall (fun a => D a = true) w ->
  forall pw s out,
    sub_from r tok pw s = w ++ out ->
    exists rest, s = w ++ rest /\ out = sub_from r tok (last_word pw w) rest.
Proof using r_wrapped body_nonempty tok_head.
  clear - r_wrapped body_nonempty tok_head.
  induction 1 as [| a w Ha Hw IH]; intros pw s out E.
  - exists s. split; [reflexivity | symmetry; exact E].
  - destruct (pass_cases r body tok r_wrapped body_nonempty pw s)
      as [-> _ E' | c x -> Hm E' | u rest -> Hne Hu E']; rewrite E' in E.
    + discriminate E.
    + inversion E; subst c. destruct (IH _ _ _ H1) as (rest & -> & ->).
      exists rest. split; reflexivity.
    + destruct tok_head as (b & tok' & Et & _ & Hb). rewrite Et in E.
      inversion E as [[Eb Er]]. congruence.
Qed.

Lemma head_kept x : head_word (sub_from r tok true x) = head_word x.
Proof using r_wrapped body_nonempty tok_head.
  clear - r_wrapped body_nonempty tok_head.
  destruct (pass_cases r body tok r_wrapped body_nonempty true x)
    as [-> _ E | c y -> Hm E | u rest -> Hne Hu E]; rewrite E; try reflexivity.
  destruct (pass_match_inv _ _ r_wrapped body_nonempty _ _ _ Hu) as (_ & _ & B & _).
  destruct tok_head as (b & tok' & -> & Hb & _).
  destruct u as [| a u]; [congruence|]. cbn in *. rewrite Hb.
  destruct (is_word a); [discriminate B | reflexivity].
Qed.

(** A match of the target at the head of the result is a match at the
    head of the subject. *)
Lemma head_match q pw s :
  TargetFacts.aligned q pw s ->
  is_Some (match_at t (q, sub_from r tok pw s)) -> is_Some (match_at t (pw, s)).
Proof using t_wrapped t_nonempty t_chars t_first t_last r_wrapped body_nonempty tok_head.
  clear t_start tok_start tok_last.
  intros A [[q' out] E].
  destruct (match_at_sound _ _ _ _ _ E) as (w & Eo & Hw & _).
  destruct (TargetFacts.target_inv t tbody D t_wrapped t_nonempty t_chars t_first t_last
              _ _ _ Hw) as (-> & Hn & Hc & (a & w' & -> & Ha) & Hl).
  destruct (copied _ Hc _ _ _ Eo) as (rest & -> & ->).
  assert (pw = false) as ->.
  { destruct A as [<- | [_ A]]; [reflexivity|]. cbn in A. congruence. }
  rewrite Hl, head_kept in Hw.
  apply match_at_complete. exact Hw.
Qed.

(** The pass of the target itself leaves no match of it. *)
Lemma own_pass :
  r = t ->
  forall pw s q, TargetFacts.aligned q pw s -> search_from t q (sub_from r tok pw s) = false.
Proof.
  intros Hrt.
  apply (pass_ind' r body tok r_wrapped body_nonempty (fun pw s =>
    forall q, TargetFacts.aligned q pw s -> search_from t q (sub_from r tok pw s) = false)).
  - intros pw E q _. rewrite E.
    apply (TargetFacts.search_from_nil t tbody D t_wrapped t_nonempty t_chars t_first t_last).
  - intros pw c x Hm E IH q A.
    rewrite search_from_unfold.
    destruct (match_at t (q, sub_from r tok pw (c :: x))) as [y |] eqn:Eq.
    + destruct (head_match q pw (c :: x) A) as [z Hz]; [rewrite Eq; eauto|].
      rewrite <- Hrt in Hz. congruence.
    + rewrite E. apply IH. left. reflexivity.
  - intros pw u rest Hne Hu E IH q A.
    rewrite E, search_past, tok_last by exact tok_start.
    apply IH. apply (TargetFacts.aligned_after r body r_wrapped body_nonempty). exact Hu.
Qed.

End Start.
End StartFacts.

Module AddressFacts.
Import PyStr Re ReFacts ReChecks ScanFacts Anonymizer.

Definition ADDRESS_PATTERN : regex := address_regex anonymize_suffixes.
Definition ADDRESS_BODY : regex := address_body anonymize_suffixes.
Definition ADDRESS_TOKEN : str := $"[ADDRESS]".

(** The characters of a street address. *)
Definition address_char (a : ascii) : bool := is_digit a || is_space a || is_ascii_alpha a.

Lemma address_target :
  unwrap ADDRESS_PATTERN = Some ADDRESS_BODY
  /\ nonempty ADDRESS_BODY = true
  /\ chars_in address_char ADDRESS_BODY = true
  /\ first_in is_word ADDRESS_BODY = true
  /\ last_in is_word ADDRESS_BODY = true
  /\ first_in is_digit ADDRESS_BODY = true.
Proof. repeat split; vm_compute; reflexivity. Qed.

Lemma address_token :
  (exists a tok', ADDRESS_TOKEN = a :: tok' /\ is_word a = false /\ address_char a = false)
  /\ Forall (fun a => is_digit a = false) ADDRESS_TOKEN
  /\ (forall q, last_word q ADDRESS_TOKEN = false).
Proof.
  split; [eexists _, _; repeat split; vm_compute; reflexivity|].
  split; [apply SanitizeFacts.Forall_false; vm_compute; reflexivity|].
  intros []; vm_compute; reflexivity.
Qed.

Lemma address_pass_clears x :
  search ADDRESS_PATTERN (sub ADDRESS_PATTERN ADDRESS_TOKEN x) = false.
Proof.
  destruct address_target as (U & N & C & Fw & L & Fd).
  destruct address_token as (Th & Ts & Tl).
  unfold search, sub.
  apply (StartFacts.own_pass ADDRESS_PATTERN ADDRESS_BODY address_char is_digit
           U N C Fw L Fd ADDRESS_PATTERN ADDRESS_BODY ADDRESS_TOKEN U N Th Ts Tl eq_refl).
  left. reflexivity.
Qed.

End AddressFacts.

Module UrlSweep.
Import PyStr Re ReFacts ReChecks ScanFacts SweepFacts Anonymizer UrlFacts.

Definition URL_TOKEN : str := $"[URL]".

Lemma url_nonempty : nonempty URL_PATTERN = true.
Proof. reflexivity. Qed.

Lemma url_token_outside : Forall (fun a => url_char a = false) URL_TOKEN.
Proof. apply SanitizeFacts.Forall_false. vm_compute. reflexivity. Qed.

(** A text of characters of [http://] at the head of the result of the
    pass of the URLs was at the head of the subject, and was copied. *)
Lemma url_copied w :
  Forall (fun a => url_char a = true) w ->
  forall pw s out,
    sub_from URL_PATTERN URL_TOKEN pw s = w ++ out ->
    exists rest, s = w ++ rest
                 /\ out = sub_from URL_PATTERN URL_TOKEN (last_word pw w) rest.
Proof.
  induction 1 as [| a w Ha Hw IH]; intros pw s out E.
  - exists s. split; [reflexivity | symmetry; exact E].
  - destruct (sweep_cases URL_PATTERN URL_TOKEN url_nonempty pw s)
      as [-> E' | c x -> Hm E' | u rest -> Hne Hu E']; rewrite E' in E.
    + discriminate E.
    + inversion E; subst c. destruct (IH _ _ _ H1) as (rest & -> & ->).
      exists rest. split; reflexivity.
    + change URL_TOKEN with ("["%char :: $"URL]") in E. cbn [app] in E.
      inversion E; subst a. vm_compute in Ha. discriminate Ha.
Qed.

Lemma url_char_not_space a : url_char a = true -> is_space a = false.
Proof.
  destruct a as [[] [] [] [] [] [] [] []]; vm_compute; intros H;
    first [reflexivity | discriminate H].
Qed.

Lemma url_own_head pw s :
  url_head (sub_from URL_PATTERN URL_TOKEN pw s) -> url_head s.
Proof.
  intros (pre & c & out & E & Hpre & Hc).
  assert (Hp : Forall (fun a => url_char a = true) pre)
    by (destruct Hpre as [-> | ->]; repeat constructor).
  destruct (url_copied pre Hp pw s (c :: out) E) as (rest & -> & Eo).
  destruct (sweep_cases URL_PATTERN URL_TOKEN url_nonempty (last_word pw pre) rest)
    as [-> E' | c' x -> Hm E' | u rest' -> Hne Hu E']; rewrite E' in Eo.
  - discriminate Eo.
  - inversion Eo; subst c'. exists pre, c, x. auto.
  - destruct (url_head_first _ (url_match_head _ _ _ rest' Hu)) as (a & y & Ea & Ha).
    rewrite Ea. exists pre, a, y. repeat split; auto. apply url_char_not_space, Ha.
Qed.

(** The pass of the URLs leaves no URL. *)
Lemma url_pass_clears pw s :
  forall q, search_from URL_PATTERN q (sub_from URL_PATTERN URL_TOKEN pw s) = false.
Proof.
  revert pw s.
  apply (sweep_ind URL_PATTERN URL_TOKEN url_nonempty (fun pw s =>
    forall q, search_from URL_PATTERN q (sub_from URL_PATTERN URL_TOKEN pw s) = false)).
  - intros pw E q. rewrite E, search_from_unfold.
    destruct (match_at URL_PATTERN (q, [])) as [y |] eqn:Em; [| reflexivity].
    destruct (url_head_first _ (url_match_at _ _ (ex_intro _ y Em))) as (b & z & Eb & _).
    discriminate Eb.
  - intros pw c x Hm E IH q. rewrite search_from_unfold.
    destruct (match_at URL_PATTERN (q, sub_from URL_PATTERN URL_TOKEN pw (c :: x)))
      as [y |] eqn:Eq.
    + pose proof (url_own_head pw (c :: x) (url_match_at _ _ (ex_intro _ y Eq))) as Hh.
      destruct (url_head_match pw _ Hh) as [z Hz]. congruence.
    + rewrite E. apply IH.
  - intros pw u rest Hne Hu E IH q. rewrite E.
    destruct (search_from URL_PATTERN q (URL_TOKEN ++ _)) eqn:S; [| reflexivity].
    apply no_url_in_token in S; [| exact url_token_outside].
    rewrite IH in S. discriminate S.
Qed.

Lemma later_passes_ok :
  forallb (fun title => url_pass_ok (title_pattern title) (title_token title)) NAME_TITLES
  = true
  /\ url_pass_ok (address_regex anonymize_suffixes) $"[ADDRESS]" = true.
Proof. split; vm_compute; reflexivity. Qed.

Lemma titles_keep_no_url titles x :
  forallb (fun title => url_pass_ok (title_pattern title) (title_token title)) titles = true ->
  search URL_PATTERN x = false ->
  search URL_PATTERN
    (fold_left (fun t title => sub (title_pattern title) (title_token title) t) titles x)
  = false.
Proof.
  revert x. induction titles as [| title titles IH]; intros x H S; [exact S|].
  cbn in H. apply andb_prop in H. destruct H as [H1 H2].
  cbn [fold_left]. apply IH; [exact H2|]. apply url_pass_keeps; assumption.
Qed.

End UrlSweep.

Section AnonymizerProperties.
Import PyStr Re Anonymizer AddressFacts UrlSweep.

(** X18. Whatever the text, the result of [anonymize_text] has no match of
    the URL pattern and no match of the pattern of street addresses: the
    substitutions that come after the one of the URLs create no URL, and
    the one of the addresses is the last. *)
Theorem anonymize_text_leaves_no_url_no_address :
  forall text : str,
    search URL_PATTERN (anonymize_text text) = false
    /\ search (address_regex anonymize_suffixes) (anonymize_text text) = false.
Proof.
  intros text. unfold anonymize_text.
  destruct text as [| c t]; [split; vm_compute; reflexivity|].
  cbn [truthy length Nat.eqb negb]. unfold after_phone. cbv zeta. split.
  - destruct later_passes_ok as [T A].
    apply UrlFacts.url_pass_keeps; [exact A|].
    unfold replace_titles. apply titles_keep_no_url; [exact T|].
    unfold sub at 1, search. apply url_pass_clears.
  - apply address_pass_clears.
Qed.

End AnonymizerProperties.

(** ** The handlers, end to end *)

Module HandlerFacts.
Import PyStr Models Runtime Prompts Routes CacheFacts.

Section WithCoord.
Context {coord : Type}.

(** A computation that leaves a part [f] of the state as it is, whether
    it returns or raises. *)
Definition keeps {X A : Type} (f : World coord -> X) (m : Py coord A) : Prop :=
  forall w, f (snd (m w)) = f w.

Section Keeps.
Context {X : Type} (f : World coord -> X).

Lemma leaves_ret {A : Type} (a : A) : keeps f (ret a).
Proof. intros w. reflexivity. Qed.

Lemma leaves_raise {A : Type} (e : Exn) : keeps f (@raise coord A e).
Proof. intros w. reflexivity. Qed.

Lemma leaves_bind {A B : Type} (m : Py coord A) (k : A -> Py coord B) :
  keeps f m -> (forall a, keeps f (k a)) -> keeps f (bind m k).
Proof.
  intros Hm Hk w. unfold bind. specialize (Hm w).
  destruct (m w) as [[e | a] w1]; cbn in *; [exact Hm|].
  rewrite (Hk a w1). exact Hm.
Qed.

Lemma leaves_try {A : Type} (m : Py coord A) (h : Exn -> Py coord A) :
  keeps f m -> (forall e, keeps f (h e)) -> keeps f (try_except m h).
Proof.
  intros Hm Hh w. unfold try_except. specialize (Hm w).
  destruct (m w) as [[e | a] w1]; cbn in *; [| exact Hm].
  rewrite (Hh e w1). exact Hm.
Qed.

Lemma leaves_read_context r : keeps f (@read_context coord r).
Proof. intros w. unfold read_context. destruct (heap w !! r) as [[]|]; reflexivity. Qed.

Lemma leaves_read_location r : keeps f (@read_location coord r).
Proof. intros w. unfold read_location. destruct (heap w !! r) as [[]|]; reflexivity. Qed.

Lemma leaves_read_medical r : keeps f (@read_medical coord r).
Proof. intros w. unfold read_medical. destruct (heap w !! r) as [[]|]; reflexivity. Qed.

Lemma leaves_client_get key : keeps f (@RedisCache.client_get coord key).
Proof. intros w. unfold RedisCache.client_get. destruct (redis_up w); reflexivity. Qed.

End Keeps.

Ltac reads f :=
  repeat first
    [ apply leaves_ret | apply leaves_raise | apply leaves_read_context
    | apply leaves_read_location | apply leaves_read_medical | apply leaves_client_get
    | apply leaves_bind; [| intros ?] | apply leaves_try; [| intros ?]
    | match goal with
      | |- keeps _ (match ?x with _ => _ end) => destruct x
      | |- keeps _ (if ?b then _ else _) => destruct b
      end ].

Lemma leaves_cache_get {X : Type} (f : World coord -> X) self key :
  keeps f (@RedisCache.get coord self key).
Proof. unfold RedisCache.get. reads f. Qed.

Lemma leaves_assessment_prompt {X : Type} (f : World coord -> X) context :
  keeps f (@create_assessment_prompt coord context).
Proof. unfold create_assessment_prompt. reads f. Qed.

Lemma leaves_first_aid_prompt {X : Type} (f : World coord -> X) context concern :
  keeps f (@create_first_aid_prompt coord context concern).
Proof. unfold create_first_aid_prompt. reads f. Qed.

(** The heap is left alone by the providers and by the cache. *)
Lemma heap_invoke slot llm messages : keeps heap (@Orchestrator.invoke coord slot llm messages).
Proof.
  intros w. unfold Orchestrator.invoke.
  destruct (Orchestrator.ainvoke llm messages); reflexivity.
Qed.

Lemma heap_generate_response self sp up uf :
  keeps heap (@Orchestrator.generate_response coord self sp up uf).
Proof.
  unfold Orchestrator.generate_response, Orchestrator.try_primary.
  repeat first
    [ apply heap_invoke | apply leaves_ret | apply leaves_raise
    | apply leaves_bind; [| intros ?] | apply leaves_try; [| intros ?]
    | match goal with
      | |- keeps _ (match ?x with _ => _ end) => destruct x
      | |- keeps _ (if ?b then _ else _) => destruct b
      end ].
Qed.

Lemma heap_cache_set settings self key value ttl :
  keeps heap (@RedisCache.set coord settings self key value ttl).
Proof.
  intros w. unfold RedisCache.set, RedisCache.client_setex, try_except, bind, ret.
  destruct (negb (RedisCache.enabled self) || negb (RedisCache.client self));
    [reflexivity|].
  destruct (redis_up w); reflexivity.
Qed.

(** The call log is left alone by the anonymizer. *)
Lemma calls_alloc o : keeps calls (@alloc coord o).
Proof. intros w. reflexivity. Qed.

Lemma calls_write r o : keeps calls (@write coord r o).
Proof. intros w. reflexivity. Qed.

Lemma calls_anonymize context : keeps calls (@anonymize_emergency_context coord context).
Proof.
  unfold anonymize_emergency_context, model_copy_deep, set_description,
    set_additional_info, set_address, set_latitude, set_longitude, location_of.
  repeat first
    [ apply calls_alloc | apply calls_write | apply leaves_ret | apply leaves_raise
    | apply leaves_read_context | apply leaves_read_location | apply leaves_read_medical
    | apply leaves_bind; [| intros ?]
    | match goal with
      | |- keeps _ (match ?x with _ => _ end) => destruct x
      | |- keeps _ (when_ ?b _) => unfold when_; destruct b
      end ].
Qed.

End WithCoord.

(** The anonymizer on a context whose references lead to objects of the
    right kinds: it returns a new context with the same identifier and
    type, and the first one is still there. *)
Lemma anonymize_runs {coord : Type} (w : World coord) context c :
  heap w !! context = Some (OContext c) ->
  (forall l, location c = Some l -> exists lv, heap w !! l = Some (OLocation lv)) ->
  (forall m, medical_profile c = Some m -> exists mv, heap w !! m = Some (OMedical mv)) ->
  exists a w1 c',
    anonymize_emergency_context context w = (inr a, w1)
    /\ heap w1 !! a = Some (OContext c')
    /\ heap w1 !! context = Some (OContext c)
    /\ emergency_id c' = emergency_id c /\ emergency_type c' = emergency_type c
    /\ description c' = Anonymizer.anonymize_text (description c)
    /\ redis w1 = redis w /\ redis_up w1 = redis_up w /\ calls w1 = calls w.
Proof.
  intros Hc Hl Hm.
  unfold anonymize_emergency_context, model_copy_deep.
  destruct (location c) as [l |] eqn:El; [destruct (Hl l eq_refl) as [lv Hlv] |];
    (destruct (medical_profile c) as [m |] eqn:Em;
     [destruct (Hm m eq_refl) as [mv Hmv] |]);
    clear Hl Hm; HeapExec.heap_exec.
  all: eexists _, _, _.
  all: split; [reflexivity|].
  all: cbn [heap with_heap redis redis_up calls]; HeapExec.lookups.
  all: split; [reflexivity|].
  all: split; [first [reflexivity | exact Hc]|].
  all: repeat split.
Qed.

End HandlerFacts.

Module TypedFacts.
Import PyStr Models Runtime Prompts Routes CacheFacts HandlerFacts.

(** A cache in which every entry under an assessment key is an
    assessment and every entry under a first-aid key is a first-aid
    response. *)
Definition typed (m : gmap str (Z * CacheValue)) : Prop :=
  forall ty d ttl v,
    (m !! RedisCache.assessment_key ty d = Some (ttl, v) -> exists a, v = CachedAssessment a)
    /\ (m !! RedisCache.first_aid_key ty d = Some (ttl, v) -> exists a, v = CachedFirstAid a).

Lemma typed_empty : typed ∅.
Proof. intros ty d ttl v. split; intros H; rewrite lookup_empty in H; discriminate H. Qed.

Lemma typed_insert_assessment m ty d ttl a :
  typed m -> typed (<[RedisCache.assessment_key ty d := (ttl, CachedAssessment a)]> m).
Proof.
  intros H ty' d' ttl' v. split; intros E.
  - destruct (decide (RedisCache.assessment_key ty d = RedisCache.assessment_key ty' d'))
      as [K | K].
    + rewrite K, lookup_insert_eq in E. inversion E; subst. eauto.
    + rewrite lookup_insert_ne in E by exact K. eapply H, E.
  - rewrite lookup_insert_ne in E by apply keys_apart. eapply H, E.
Qed.

Lemma typed_insert_first_aid m ty d ttl a :
  typed m -> typed (<[RedisCache.first_aid_key ty d := (ttl, CachedFirstAid a)]> m).
Proof.
  intros H ty' d' ttl' v. split; intros E.
  - rewrite lookup_insert_ne in E
      by (intros K; symmetry in K; exact (keys_apart _ _ _ _ K)).
    eapply H, E.
  - destruct (decide (RedisCache.first_aid_key ty d = RedisCache.first_aid_key ty' d'))
      as [K | K].
    + rewrite K, lookup_insert_eq in E. inversion E; subst. eauto.
    + rewrite lookup_insert_ne in E by exact K. eapply H, E.
Qed.

Section WithCoord.
Context {coord : Type}.

(** A computation that keeps the cache typed. *)
Definition keeps_typed {A : Type} (m : Py coord A) : Prop :=
  forall w, typed (redis w) -> typed (redis (snd (m w))).

Lemma typed_of_keeps {A : Type} (m : Py coord A) : keeps redis m -> keeps_typed m.
Proof. intros H w T. rewrite (H w). exact T. Qed.

Lemma typed_bind {A B : Type} (m : Py coord A) (k : A -> Py coord B) :
  keeps_typed m -> (forall a, keeps_typed (k a)) -> keeps_typed (bind m k).
Proof.
  intros Hm Hk w T. unfold bind. specialize (Hm w T).
  destruct (m w) as [[e | a] w1]; cbn in *; [exact Hm|]. apply Hk, Hm.
Qed.

Lemma typed_try {A : Type} (m : Py coord A) (h : Exn -> Py coord A) :
  keeps_typed m -> (forall e, keeps_typed (h e)) -> keeps_typed (try_except m h).
Proof.
  intros Hm Hh w T. unfold try_except. specialize (Hm w T).
  destruct (m w) as [[e | a] w1]; cbn in *; [apply Hh, Hm | exact Hm].
Qed.

Lemma typed_set_assessment settings self ty d a :
  keeps_typed (@RedisCache.set_assessment_cache coord settings self ty d a).
Proof.
  intros w T. unfold RedisCache.set_assessment_cache, RedisCache.set,
    RedisCache.client_setex, try_except, bind, ret.
  destruct (negb (RedisCache.enabled self) || negb (RedisCache.client self)); [exact T|].
  destruct (redis_up w); [| exact T].
  cbn [snd redis with_redis]. apply typed_insert_assessment, T.
Qed.

Lemma typed_set_first_aid settings self ty d a :
  keeps_typed (@RedisCache.set_first_aid_cache coord settings self ty d a).
Proof.
  intros w T. unfold RedisCache.set_first_aid_cache, RedisCache.set,
    RedisCache.client_setex, try_except, bind, ret.
  destruct (negb (RedisCache.enabled self) || negb (RedisCache.client self)); [exact T|].
  destruct (redis_up w); [| exact T].
  cbn [snd redis with_redis]. apply typed_insert_first_aid, T.
Qed.

Ltac typed_step :=
  cbv zeta;
  lazymatch goal with
  | |- keeps_typed (bind _ _) => apply typed_bind; [| intros ?]
  | |- keeps_typed (try_except _ _) => apply typed_try; [| intros ?]
  | |- keeps_typed (ret _) => apply typed_of_keeps, PipelineFacts.keeps_ret
  | |- keeps_typed (raise _) => apply typed_of_keeps, PipelineFacts.keeps_raise
  | |- keeps_typed (read_context _) => apply typed_of_keeps, PipelineFacts.keeps_read_context
  | |- keeps_typed (anonymize_emergency_context _) =>
      apply typed_of_keeps, PipelineFacts.keeps_anonymize
  | |- keeps_typed (create_assessment_prompt _) =>
      apply typed_of_keeps, PipelineFacts.keeps_assessment_prompt
  | |- keeps_typed (create_first_aid_prompt _ _) =>
      apply typed_of_keeps, PipelineFacts.keeps_first_aid_prompt
  | |- keeps_typed (Orchestrator.generate_response _ _ _ _) =>
      apply typed_of_keeps, PipelineFacts.keeps_generate_response
  | |- keeps_typed (RedisCache.get _ _) => apply typed_of_keeps, PipelineFacts.keeps_cache_get
  | |- keeps_typed (RedisCache.set_assessment_cache _ _ _ _ _) => apply typed_set_assessment
  | |- keeps_typed (RedisCache.set_first_aid_cache _ _ _ _ _) => apply typed_set_first_aid
  | |- keeps_typed (match ?x with _ => _ end) => destruct x
  end.

Lemma assess_emergency_typed settings cache orchestrator request :
  keeps_typed (@assess_emergency coord settings cache orchestrator request).
Proof.
  unfold assess_emergency, http_guard, anonymized_or_same,
    RedisCache.get_assessment_cache.
  repeat typed_step.
Qed.

Lemma first_aid_typed settings cache orchestrator request concern :
  keeps_typed (@get_first_aid_guidance coord settings cache orchestrator request concern).
Proof.
  unfold get_first_aid_guidance, http_guard, anonymized_or_same,
    RedisCache.get_first_aid_cache.
  repeat typed_step.
Qed.

End WithCoord.
End TypedFacts.

Module AnswerFacts.
Import PyStr Models Runtime Prompts Routes CacheFacts HandlerFacts TypedFacts.

Section WithCoord.
Context {coord : Type}.

(** A request whose context is an object, with the objects it refers to. *)
Definition well_formed (w : World coord) (request : ref) (c : EmergencyContext) : Prop :=
  heap w !! request = Some (OContext c)
  /\ (forall l, location c = Some l -> exists lv, heap w !! l = Some (OLocation lv))
  /\ (forall m, medical_profile c = Some m -> exists mv, heap w !! m = Some (OMedical mv)).

Lemma anonymized_or_same_runs settings (w : World coord) request c :
  well_formed w request c ->
  exists a w1 c',
    anonymized_or_same settings request w = (inr a, w1)
    /\ heap w1 !! a = Some (OContext c')
    /\ heap w1 !! request = Some (OContext c)
    /\ emergency_id c' = emergency_id c /\ emergency_type c' = emergency_type c
    /\ redis w1 = redis w /\ redis_up w1 = redis_up w /\ calls w1 = calls w.
Proof.
  intros (Hc & Hl & Hm). unfold anonymized_or_same.
  destruct (RedisCache.ENABLE_PII_ANONYMIZATION settings).
  - destruct (anonymize_runs w request c Hc Hl Hm)
      as (a & w1 & c' & E & Ha & Hr & Hi & Ht & _ & R & U & C).
    exists a, w1, c'. repeat split; assumption.
  - exists request, w, c. repeat split; assumption.
Qed.

(** What a lookup finds is an entry of the cache. *)
Lemma get_found self key (w : World coord) v w' :
  RedisCache.get self key w = (inr (Some v), w') ->
  w' = w /\ exists ttl, redis w !! key = Some (ttl, v).
Proof.
  unfold RedisCache.get, RedisCache.client_get, try_except, ret.
  destruct (negb (RedisCache.enabled self) || negb (RedisCache.client self));
    [discriminate|].
  destruct (redis_up w); [| discriminate].
  destruct (redis w !! key) as [[ttl v'] |] eqn:E; cbn; intros H; inversion H; subst.
  split; [reflexivity | eauto].
Qed.

(** The attempt of a handler with the providers: a prompt, a response,
    its validation, and the storing of what is parsed from it. *)
Definition attempt {R : Type} (prompt : Py coord str) (generate : str -> Py coord str)
  (invalid : str -> bool) (a : ref) (store : EmergencyContext -> str -> Py coord bool)
  (result : EmergencyContext -> str -> R) : Py coord (Source * R) :=
  let* user_prompt := prompt in
  let* llm_response := generate user_prompt in
  if invalid llm_response
  then raise (Exception $"LLM response validation failed")
  else let* ac := read_context a in
       store ac llm_response >> ret (FROM_LLM, result ac llm_response).

Lemma attempt_heap {R : Type} prompt generate invalid a store (result : _ -> _ -> R) :
  keeps heap prompt -> (forall p, keeps heap (generate p)) ->
  (forall ac t, keeps heap (store ac t)) ->
  keeps heap (attempt prompt generate invalid a store result).
Proof.
  intros Hp Hg Hs. unfold attempt.
  apply leaves_bind; [exact Hp | intros p].
  apply leaves_bind; [apply Hg | intros t].
  destruct (invalid t); [apply leaves_raise|].
  apply leaves_bind; [apply leaves_read_context | intros ac].
  apply leaves_bind; [apply Hs | intros b]. apply leaves_ret.
Qed.

Lemma attempt_result {R : Type} prompt generate invalid a store (result : _ -> _ -> R)
  (w : World coord) c' r w' :
  keeps heap prompt -> (forall p, keeps heap (generate p)) ->
  heap w !! a = Some (OContext c') ->
  attempt prompt generate invalid a store result w = (inr r, w') ->
  exists t, invalid t = false /\ r = (FROM_LLM, result c' t).
Proof.
  intros Hp Hg Ha. unfold attempt, bind.
  pose proof (Hp w) as H1. destruct (prompt w) as [[e | p] w1]; [discriminate|].
  pose proof (Hg p w1) as H2. destruct (generate p w1) as [[e | t] w2]; [discriminate|].
  cbn [snd] in H1, H2.
  destruct (invalid t) eqn:V; [discriminate|].
  unfold read_context. rewrite H2, H1, Ha.
  destruct (store c' t w2) as [[e | b] w3]; [discriminate|].
  unfold ret. intros H. inversion H; subst. exists t. auto.
Qed.

(** A [try] returns when its handler does. *)
Lemma try_returns {A : Type} (Q : A -> Prop) (m : Py coord A) (h : Exn -> Py coord A) w :
  (forall r w2, m w = (inr r, w2) -> Q r) ->
  (forall e w2, m w = (inl e, w2) -> exists r w3, h e w2 = (inr r, w3) /\ Q r) ->
  exists r w3, try_except m h w = (inr r, w3) /\ Q r.
Proof.
  intros Hr He. unfold try_except.
  destruct (m w) as [[e | r] w2]; [apply (He e w2 eq_refl)|].
  exists r, w2. split; [reflexivity | apply (Hr r w2 eq_refl)].
Qed.

End WithCoord.
End AnswerFacts.

Module AnswerRuns.
Import PyStr Models Runtime Prompts Routes CacheFacts HandlerFacts TypedFacts AnswerFacts.

Lemma assess_answers :
  forall (coord : Type) (settings : RedisCache.Settings) (cache : RedisCache.RedisCache)
         (orchestrator : Orchestrator.LLMOrchestrator) (request : ref)
         (w : World coord) (c : EmergencyContext),
    RedisCache.ENABLE_FALLBACK_RESPONSES settings = true ->
    well_formed w request c ->
    typed (redis w) ->
    exists source response w',
      assess_emergency settings cache orchestrator request w
      = (inr (source, response), w')
      /\ (source <> FROM_CACHE ->
          ar_success response = true /\ ar_emergency_id response = emergency_id c).
Proof.
  intros coord settings cache orchestrator request w c F W T.
  destruct (anonymized_or_same_runs settings w request c W)
    as (a & w1 & c' & E & Ha & Hr & Hi & Ht & R & U & C).
  set (Q := fun r : Source * EmergencyAssessmentResponse =>
              fst r <> FROM_CACHE ->
              ar_success (snd r) = true /\ ar_emergency_id (snd r) = emergency_id c).
  assert (G : exists r w', 
             (let* anonymized_context := anonymized_or_same settings request in
              let* ac := read_context anonymized_context in
              let* cached_response :=
                RedisCache.get_assessment_cache cache
                  (type_value (emergency_type ac)) (description ac) in
              match cached_response with
              | Some (CachedAssessment d) =>
                  ret (FROM_CACHE,
                       assessment_response (ad_success d) (ad_emergency_id d) (ad_data d))
              | Some (CachedFirstAid _) => raise ValidationError
              | None =>
                  try_except
                    (attempt (create_assessment_prompt anonymized_context)
                       (fun user_prompt =>
                          Orchestrator.generate_response orchestrator
                            EMERGENCY_ASSESSMENT_SYSTEM_PROMPT user_prompt false)
                       (fun llm_response =>
                          negb (Validator.is_valid
                                  (Validator.validate_llm_response llm_response
                                     $"assessment" true)))
                       anonymized_context
                       (fun ac llm_response =>
                          RedisCache.set_assessment_cache settings cache
                            (type_value (emergency_type ac)) (description ac)
                            (_parse_assessment_response
                               (Validator.sanitize_response llm_response) ac))
                       (fun ac llm_response =>
                          let d := _parse_assessment_response
                                     (Validator.sanitize_response llm_response) ac in
                          assessment_response (ad_success d) (ad_emergency_id d) (ad_data d)))
                    (fun _ =>
                       if RedisCache.ENABLE_FALLBACK_RESPONSES settings then
                         let* ac := read_context anonymized_context in
                         let* rc := read_context request in
                         ret (FROM_FALLBACK,
                              assessment_response true (emergency_id rc)
                                (FallbackService.get_fallback_assessment (emergency_type ac)))
                       else raise (HTTPException 503
                                     $"LLM service unavailable and fallback is disabled"))
              end) w = (inr r, w') /\ Q r).
  { rewrite (HeapFacts.run_bind _ _ _ _ _ E).
    rewrite (HeapFacts.run_bind _ _ _ _ _ (HeapFacts.run_read_context w1 a c' Ha)).
    unfold RedisCache.get_assessment_cache.
    destruct (ErrorFacts.cache_get_returns cache
                (RedisCache.assessment_key (type_value (emergency_type c')) (description c'))
                w1) as [found Eg].
    rewrite (HeapFacts.run_bind _ _ _ _ _ Eg).
    destruct found as [[d | d] |].
    - eexists _, _. split; [reflexivity|]. intros H. cbn in H. congruence.
    - exfalso. destruct (get_found _ _ _ _ _ Eg) as [_ [ttl Ek]].
      rewrite R in Ek. destruct (proj1 (T _ _ _ _) Ek) as [x Hx]. discriminate Hx.
    - apply (try_returns Q).
      + intros r w2 Hrun.
        apply (attempt_result _ _ _ _ _ _ w1 c') in Hrun;
          [| apply leaves_assessment_prompt | intros p; apply heap_generate_response
           | exact Ha].
        destruct Hrun as (t & _ & ->). intros _. cbn. split; [reflexivity | exact Hi].
      + intros e w2 Hrun. rewrite F.
        assert (Hh : heap w2 = heap w1).
        { match type of Hrun with
          | ?m w1 = _ =>
              assert (K : keeps heap m)
                by (apply attempt_heap;
                    [apply leaves_assessment_prompt
                    | intros p; apply heap_generate_response
                    | intros ac t; apply heap_cache_set]);
              specialize (K w1); rewrite Hrun in K; exact K
          end. }
        assert (Ha2 : heap w2 !! a = Some (OContext c')) by (rewrite Hh; exact Ha).
        assert (Hr2 : heap w2 !! request = Some (OContext c)) by (rewrite Hh; exact Hr).
        rewrite (HeapFacts.run_bind _ _ _ _ _ (HeapFacts.run_read_context w2 a c' Ha2)).
        rewrite (HeapFacts.run_bind _ _ _ _ _ (HeapFacts.run_read_context w2 request c Hr2)).
        eexists _, _. split; [reflexivity|]. intros _. split; reflexivity. }
  destruct G as ([source response] & w' & Hg & Hq).
  exists source, response, w'. split; [| exact Hq].
  unfold assess_emergency, http_guard, try_except.
  change (@bind coord) with (@bind coord) in Hg.
  unfold attempt in Hg. cbv zeta in Hg.
  match goal with |- context [match ?m w with _ => _ end] =>
    change m with ltac:(let t := type of Hg in match t with ?x w = _ => exact x end)
  end.
  rewrite Hg. reflexivity.
Qed.


Lemma first_aid_answers :
  forall (coord : Type) (settings : RedisCache.Settings) (cache : RedisCache.RedisCache)
         (orchestrator : Orchestrator.LLMOrchestrator) (request : ref)
         (specific_concern : option str) (w : World coord) (c : EmergencyContext),
    RedisCache.ENABLE_FALLBACK_RESPONSES settings = true ->
    well_formed w request c ->
    typed (redis w) ->
    exists source response w',
      get_first_aid_guidance settings cache orchestrator request specific_concern w
      = (inr (source, response), w')
      /\ (source <> FROM_CACHE ->
          fr_success response = true /\ fr_emergency_id response = emergency_id c
          /\ fr_emergency_type response = emergency_type c).
Proof.
  intros coord settings cache orchestrator request concern w c F W T.
  destruct (anonymized_or_same_runs settings w request c W)
    as (a & w1 & c' & E & Ha & Hr & Hi & Ht & R & U & C).
  set (Q := fun r : Source * FirstAidResponse =>
              fst r <> FROM_CACHE ->
              fr_success (snd r) = true /\ fr_emergency_id (snd r) = emergency_id c
              /\ fr_emergency_type (snd r) = emergency_type c).
  assert (G : exists r w',
             (let* anonymized_context := anonymized_or_same settings request in
              let* ac := read_context anonymized_context in
              let* cached_response :=
                RedisCache.get_first_aid_cache cache
                  (type_value (emergency_type ac)) (description ac) in
              match cached_response with
              | Some (CachedFirstAid d) => ret (FROM_CACHE, first_aid_response d)
              | Some (CachedAssessment _) => raise ValidationError
              | None =>
                  try_except
                    (attempt (create_first_aid_prompt anonymized_context concern)
                       (fun user_prompt =>
                          Orchestrator.generate_response orchestrator
                            FIRST_AID_SYSTEM_PROMPT user_prompt false)
                       (fun llm_response =>
                          negb (Validator.is_valid
                                  (Validator.validate_llm_response llm_response
                                     $"first_aid" true)))
                       anonymized_context
                       (fun ac llm_response =>
                          RedisCache.set_first_aid_cache settings cache
                            (type_value (emergency_type ac)) (description ac)
                            (_parse_first_aid_response
                               (Validator.sanitize_response llm_response) ac))
                       (fun ac llm_response =>
                          first_aid_response
                            (_parse_first_aid_response
                               (Validator.sanitize_response llm_response) ac)))
                    (fun _ =>
                       if RedisCache.ENABLE_FALLBACK_RESPONSES settings then
                         let* ac := read_context anonymized_context in
                         let* rc := read_context request in
                         ret (FROM_FALLBACK,
                              {| fr_success := true;
                                 fr_emergency_id := emergency_id rc;
                                 fr_emergency_type := emergency_type ac;
                                 fr_steps :=
                                   FallbackService.get_fallback_first_aid (emergency_type ac);
                                 fr_critical_warnings :=
                                   FallbackService.get_critical_warnings (emergency_type ac);
                                 fr_when_to_stop :=
                                   $"Stop and seek immediate professional help if the person's condition worsens or you feel unsafe continuing.";
                                 fr_disclaimer := FIRST_AID_DISCLAIMER |})
                       else raise (HTTPException 503
                                     $"LLM service unavailable and fallback is disabled"))
              end) w = (inr r, w') /\ Q r).
  { rewrite (HeapFacts.run_bind _ _ _ _ _ E).
    rewrite (HeapFacts.run_bind _ _ _ _ _ (HeapFacts.run_read_context w1 a c' Ha)).
    unfold RedisCache.get_first_aid_cache.
    destruct (ErrorFacts.cache_get_returns cache
                (RedisCache.first_aid_key (type_value (emergency_type c')) (description c'))
                w1) as [found Eg].
    rewrite (HeapFacts.run_bind _ _ _ _ _ Eg).
    destruct found as [[d | d] |].
    - exfalso. destruct (get_found _ _ _ _ _ Eg) as [_ [ttl Ek]].
      rewrite R in Ek. destruct (proj2 (T _ _ _ _) Ek) as [x Hx]. discriminate Hx.
    - eexists _, _. split; [reflexivity|]. intros H. cbn in H. congruence.
    - apply (try_returns Q).
      + intros r w2 Hrun.
        apply (attempt_result _ _ _ _ _ _ w1 c') in Hrun;
          [| apply leaves_first_aid_prompt | intros p; apply heap_generate_response
           | exact Ha].
        destruct Hrun as (t & _ & ->). intros _. cbn.
        split; [reflexivity | split; [exact Hi | exact Ht]].
      + intros e w2 Hrun. rewrite F.
        assert (Hh : heap w2 = heap w1).
        { match type of Hrun with
          | ?m w1 = _ =>
              assert (K : keeps heap m)
                by (apply attempt_heap;
                    [apply leaves_first_aid_prompt
                    | intros p; apply heap_generate_response
                    | intros ac t; apply heap_cache_set]);
              specialize (K w1); rewrite Hrun in K; exact K
          end. }
        assert (Ha2 : heap w2 !! a = Some (OContext c')) by (rewrite Hh; exact Ha).
        assert (Hr2 : heap w2 !! request = Some (OContext c)) by (rewrite Hh; exact Hr).
        rewrite (HeapFacts.run_bind _ _ _ _ _ (HeapFacts.run_read_context w2 a c' Ha2)).
        rewrite (HeapFacts.run_bind _ _ _ _ _ (HeapFacts.run_read_context w2 request c Hr2)).
        eexists _, _. split; [reflexivity|]. intros _. cbn.
        split; [reflexivity | split; [reflexivity | exact Ht]]. }
  destruct G as ([source response] & w' & Hg & Hq).
  exists source, response, w'. split; [| exact Hq].
  unfold get_first_aid_guidance, http_guard, try_except.
  unfold attempt in Hg. cbv zeta in Hg.
  match goal with |- context [match ?m w with _ => _ end] =>
    change m with ltac:(let t := type of Hg in match t with ?x w = _ => exact x end)
  end.
  rewrite Hg. reflexivity.
Qed.

End AnswerRuns.

Section HandlerProperties.
Import PyStr Models Runtime Prompts Routes CacheFacts HandlerFacts TypedFacts AnswerFacts
  AnswerRuns.

(** X19. The handlers keep the cache typed: when every entry under an
    assessment key is an assessment and every entry under a first-aid key
    a first-aid response, the same holds after a request, whatever it is
    and however it ends. *)
Theorem handlers_keep_cache_typed :
  forall (coord : Type) (settings : RedisCache.Settings) (cache : RedisCache.RedisCache)
         (orchestrator : Orchestrator.LLMOrchestrator) (request : ref)
         (specific_concern : option str) (w : World coord),
    typed (redis w) ->
    typed (redis (snd (assess_emergency settings cache orchestrator request w)))
    /\ typed (redis (snd (get_first_aid_guidance settings cache orchestrator request
                           specific_concern w))).
Proof.
  intros coord settings cache orchestrator request concern w T.
  split; [apply assess_emergency_typed | apply first_aid_typed]; exact T.
Qed.

Lemma handlers_keep_cache_typed_witness :
  typed (redis (snd (assess_emergency all_on live_cache
                       (answering $"Severity Level: HIGH. Call 911 now. This is not a substitute for professional medical advice.")
                       1%positive request_world)))
  /\ typed (redis (snd (get_first_aid_guidance all_on live_cache
                          (answering $"Severity Level: HIGH. Call 911 now. This is not a substitute for professional medical advice.")
                          1%positive None request_world))).
Proof.
  apply (handlers_keep_cache_typed Z all_on live_cache
           (answering $"Severity Level: HIGH. Call 911 now. This is not a substitute for professional medical advice.")
           1%positive None request_world).
  apply typed_empty.
Defined.

(** X20. With the fallback enabled, a request whose context is an object with
    its nested objects, on a typed cache, is always answered: a handler
    returns a response, whatever the providers and the cache server do;
    and a response that does not come from the cache is a success with the
    identifier (and, for first aid, the type) of the request. *)
Theorem handlers_answer_when_fallback_enabled :
  forall (coord : Type) (settings : RedisCache.Settings) (cache : RedisCache.RedisCache)
         (orchestrator : Orchestrator.LLMOrchestrator) (request : ref)
         (specific_concern : option str) (w : World coord) (c : EmergencyContext),
    RedisCache.ENABLE_FALLBACK_RESPONSES settings = true ->
    heap w !! request = Some (OContext c) ->
    (forall l, location c = Some l -> exists lv, heap w !! l = Some (OLocation lv)) ->
    (forall m, medical_profile c = Some m -> exists mv, heap w !! m = Some (OMedical mv)) ->
    typed (redis w) ->
    (exists source response w',
        assess_emergency settings cache orchestrator request w
        = (inr (source, response), w')
        /\ (source <> FROM_CACHE ->
            ar_success response = true /\ ar_emergency_id response = emergency_id c))
    /\ (exists source response w',
          get_first_aid_guidance settings cache orchestrator request specific_concern w
          = (inr (source, response), w')
          /\ (source <> FROM_CACHE ->
              fr_success response = true /\ fr_emergency_id response = emergency_id c
              /\ fr_emergency_type response = emergency_type c)).
Proof.
  intros coord settings cache orchestrator request concern w c F Hc Hl Hm T.
  assert (W : well_formed w request c) by (repeat split; assumption).
  split; [apply assess_answers | apply first_aid_answers]; assumption.
Qed.

Lemma handlers_answer_when_fallback_enabled_witness :
  (exists source response w',
      assess_emergency all_on live_cache no_providers 1%positive request_world
      = (inr (source, response), w')
      /\ (source <> FROM_CACHE ->
          ar_success response = true
          /\ ar_emergency_id response = emergency_id request_context))
  /\ (exists source response w',
        get_first_aid_guidance all_on live_cache no_providers 1%positive None request_world
        = (inr (source, response), w')
        /\ (source <> FROM_CACHE ->
            fr_success response = true
            /\ fr_emergency_id response = emergency_id request_context
            /\ fr_emergency_type response = emergency_type request_context)).
Proof.
  apply (handlers_answer_when_fallback_enabled Z all_on live_cache no_providers
           1%positive None request_world request_context).
  - reflexivity.
  - reflexivity.
  - intros l H. discriminate H.
  - intros m H. discriminate H.
  - apply typed_empty.
Defined.

End HandlerProperties.

Module HitFacts.
Import PyStr Models Runtime Prompts Routes CacheFacts HandlerFacts AnswerFacts.

Section WithCoord.
Context {coord : Type}.

Lemma read_context_same r (w : World coord) x w' : read_context r w = (x, w') -> w' = w.
Proof.
  unfold read_context. destruct (heap w !! r) as [[] |]; intros H; inversion H; reflexivity.
Qed.

(** The anonymization step changes neither the cache nor the call log. *)
Lemma anonymized_or_same_quiet settings request (w : World coord) x w1 :
  anonymized_or_same settings request w = (x, w1) ->
  redis w1 = redis w /\ calls w1 = calls w.
Proof.
  unfold anonymized_or_same. intros H.
  destruct (RedisCache.ENABLE_PII_ANONYMIZATION settings).
  - pose proof (PipelineFacts.keeps_anonymize request w) as A.
    pose proof (calls_anonymize request w) as B. rewrite H in A, B. auto.
  - inversion H. auto.
Qed.

(** A handler with its lookup [found] and its attempt [attempt] left
    open: what it returns from the cache is what the lookup found, and the
    cache and the call log are then as they were. *)
Lemma hit_shape {R : Type} settings failed request
  (key : EmergencyContext -> str) (self : RedisCache.RedisCache)
  (on_found : CacheValue -> Py coord (Source * R))
  (otherwise : ref -> Py coord (Source * R))
  (w : World coord) (response : R) w' :
  (forall a w1 r w2, otherwise a w1 = (inr r, w2) -> fst r <> FROM_CACHE) ->
  http_guard failed
    (let* a := anonymized_or_same settings request in
     let* ac := read_context a in
     let* cached := RedisCache.get self (key ac) in
     match cached with
     | Some v => on_found v
     | None => otherwise a
     end) w = (inr (FROM_CACHE, response), w') ->
  exists ac ttl v w1,
    redis w !! key ac = Some (ttl, v)
    /\ redis w1 = redis w /\ calls w1 = calls w
    /\ on_found v w1 = (inr (FROM_CACHE, response), w').
Proof.
  intros Ho. unfold http_guard, try_except, bind.
  destruct (anonymized_or_same settings request w) as [[e | a] w1] eqn:E;
    [destruct e; discriminate|].
  destruct (anonymized_or_same_quiet _ _ _ _ _ E) as [R1 C1].
  destruct (read_context a w1) as [[e | ac] w1'] eqn:Rd; [destruct e; discriminate|].
  apply read_context_same in Rd. subst w1'.
  destruct (RedisCache.get self (key ac) w1) as [[e | found] w1'] eqn:G.
  { destruct (ErrorFacts.cache_get_returns self (key ac) w1) as [x Hx]. congruence. }
  destruct found as [v |].
  - destruct (get_found _ _ _ _ _ G) as [-> [ttl Ek]].
    destruct (on_found v w1) as [[e | r] w2] eqn:F; [destruct e; discriminate|].
    intros H. inversion H; subst. exists ac, ttl, v, w1. rewrite <- R1. auto.
  - assert (w1' = w1) as ->.
    { destruct (ErrorFacts.cache_get_returns self (key ac) w1) as [x Hx]. congruence. }
    destruct (otherwise a w1) as [[e | r] w2] eqn:F; [destruct e; discriminate|].
    intros H. inversion H; subst. exfalso. apply (Ho _ _ _ _ F). reflexivity.
Qed.

End WithCoord.
End HitFacts.

Module HitRuns.
Import PyStr Models Runtime Prompts Routes CacheFacts HandlerFacts AnswerFacts HitFacts.

Section WithCoord.
Context {coord : Type}.

(** A [try] whose body returns results of the model only and whose
    handler returns fallback results only returns nothing from the cache. *)
Lemma try_not_cache {R : Type} (m : Py coord (Source * R)) (h : Exn -> Py coord (Source * R))
  (w : World coord) r w' :
  PipelineFacts.stores_only_with_llm_result m ->
  (forall e w1 r w2, h e w1 = (inr r, w2) -> fst r = FROM_FALLBACK) ->
  try_except m h w = (inr r, w') -> fst r <> FROM_CACHE.
Proof.
  intros Hm Hh. unfold try_except. specialize (Hm w).
  destruct (m w) as [[e | [s x]] w1].
  - intros H. rewrite (Hh _ _ _ _ H). discriminate.
  - intros H. inversion H; subst. cbn. discriminate.
Qed.

Lemma fallback_source {R : Type} (a request : ref) (f : EmergencyContext -> EmergencyContext -> R)
  (w : World coord) r w' :
  (let* ac := read_context a in
   let* rc := read_context request in
   ret (FROM_FALLBACK, f ac rc)) w = (inr r, w') ->
  fst r = FROM_FALLBACK.
Proof.
  unfold bind, ret.
  destruct (read_context a w) as [[e | ac] w1]; [discriminate|].
  destruct (read_context request w1) as [[e | rc] w2]; [discriminate|].
  intros H. inversion H. reflexivity.
Qed.

End WithCoord.
End HitRuns.

Section HitProperties.
Import PyStr Models Runtime Prompts Routes CacheFacts HandlerFacts AnswerFacts HitFacts
  HitRuns.

(** X21. A response that a handler returns from the cache is the entry kept
    under the type and the description of the (anonymized) request, as it
    was stored, with the identifier it was stored with; no provider has
    been invoked and the cache is as it was. *)
Theorem cache_hit_returns_stored_response :
  forall (coord : Type) (settings : RedisCache.Settings) (cache : RedisCache.RedisCache)
         (orchestrator : Orchestrator.LLMOrchestrator) (request : ref)
         (specific_concern : option str) (w w' : World coord),
    (forall response,
        assess_emergency settings cache orchestrator request w
        = (inr (FROM_CACHE, response), w') ->
        calls w' = calls w /\ redis w' = redis w
        /\ exists ty d ttl data,
            redis w !! RedisCache.assessment_key ty d = Some (ttl, CachedAssessment data)
            /\ response = assessment_response (ad_success data) (ad_emergency_id data)
                            (ad_data data))
    /\ (forall response,
          get_first_aid_guidance settings cache orchestrator request specific_concern w
          = (inr (FROM_CACHE, response), w') ->
          calls w' = calls w /\ redis w' = redis w
          /\ exists ty d ttl data,
              redis w !! RedisCache.first_aid_key ty d = Some (ttl, CachedFirstAid data)
              /\ response = first_aid_response data).
Proof.
  intros coord settings cache orchestrator request concern w w'. split.
  - intros response H. unfold assess_emergency, RedisCache.get_assessment_cache in H.
    apply (hit_shape settings _ request
             (fun ac => RedisCache.assessment_key (type_value (emergency_type ac))
                          (description ac))
             cache
             (fun v => match v with
                       | CachedAssessment d =>
                           ret (FROM_CACHE,
                                assessment_response (ad_success d) (ad_emergency_id d)
                                  (ad_data d))
                       | CachedFirstAid _ => raise ValidationError
                       end)) in H.
    + destruct H as (ac & ttl & v & w1 & Ek & R & C & F).
      destruct v as [d | d]; [| discriminate F].
      inversion F; subst. repeat split; auto. eauto 6.
    + intros a w1 r w2. apply try_not_cache.
      * apply PipelineFacts.stores_bind;
          [apply PipelineFacts.keeps_assessment_prompt | intros user_prompt].
        apply PipelineFacts.stores_bind;
          [apply PipelineFacts.keeps_generate_response | intros llm_response].
        destruct (negb _); [apply PipelineFacts.stores_raise|].
        apply PipelineFacts.stores_bind;
          [apply PipelineFacts.keeps_read_context | intros ac'].
        apply PipelineFacts.stores_after_set.
      * intros e w3 r' w4.
        destruct (RedisCache.ENABLE_FALLBACK_RESPONSES settings); [| discriminate].
        apply (fallback_source a request
                 (fun ac rc => assessment_response true (emergency_id rc)
                                 (FallbackService.get_fallback_assessment
                                    (emergency_type ac)))).
  - intros response H. unfold get_first_aid_guidance, RedisCache.get_first_aid_cache in H.
    apply (hit_shape settings _ request
             (fun ac => RedisCache.first_aid_key (type_value (emergency_type ac))
                          (description ac))
             cache
             (fun v => match v with
                       | CachedFirstAid d => ret (FROM_CACHE, first_aid_response d)
                       | CachedAssessment _ => raise ValidationError
                       end)) in H.
    + destruct H as (ac & ttl & v & w1 & Ek & R & C & F).
      destruct v as [d | d]; [discriminate F|].
      inversion F; subst. repeat split; auto. eauto 6.
    + intros a w1 r w2. apply try_not_cache.
      * apply PipelineFacts.stores_bind;
          [apply PipelineFacts.keeps_first_aid_prompt | intros user_prompt].
        apply PipelineFacts.stores_bind;
          [apply PipelineFacts.keeps_generate_response | intros llm_response].
        destruct (negb _); [apply PipelineFacts.stores_raise|].
        apply PipelineFacts.stores_bind;
          [apply PipelineFacts.keeps_read_context | intros ac'].
        apply PipelineFacts.stores_after_set.
      * intros e w3 r' w4.
        destruct (RedisCache.ENABLE_FALLBACK_RESPONSES settings); [| discriminate].
        apply (fallback_source a request
                 (fun ac rc =>
                    {| fr_success := true;
                       fr_emergency_id := emergency_id rc;
                       fr_emergency_type := emergency_type ac;
                       fr_steps := FallbackService.get_fallback_first_aid (emergency_type ac);
                       fr_critical_warnings :=
                         FallbackService.get_critical_warnings (emergency_type ac);
                       fr_when_to_stop :=
                         $"Stop and seek immediate professional help if the person's condition worsens or you feel unsafe continuing.";
                       fr_disclaimer := FIRST_AID_DISCLAIMER |})).
Qed.

Definition second_context : EmergencyContext :=
  {| emergency_id := $"456"; emergency_type := MEDICAL;
     description := description request_context;
     location := None; medical_profile := None; timestamp := 7;
     additional_info := None |}.

(** A request answered by a provider, then a request with the same type
    and description and another identifier, with no provider left: the
    second one is answered from the cache, with the identifier of the
    first. *)
Lemma cache_hit_reached :
  let first :=
    assess_emergency all_on live_cache
      (answering $"Severity Level: HIGH. Call 911 now. This is not a substitute for professional medical advice.")
      1%positive request_world in
  let second_world :=
    with_heap (insert 9%positive (OContext second_context)) (snd first) in
  let second := assess_emergency all_on live_cache no_providers 9%positive second_world in
  match fst second with
  | inr (source, response) => Some (source, ar_emergency_id response)
  | inl _ => None
  end = Some (FROM_CACHE, $"123")
  /\ calls (snd second) = calls second_world.
Proof. vm_compute. split; reflexivity. Qed.

End HitProperties.

(** ** The fallback knowledge base for first aid *)

Module FallbackFirstAidFacts.
Import PyStr Models FallbackService.

(** A step with an instruction, at least one warning and a duration. *)
Definition complete (s : FirstAidStep) : bool :=
  truthy (instruction s)
  && negb (Nat.eqb (length (step_warnings s)) 0)
  && match duration s with Some d => truthy d | None => false end.

Definition COMMON_WARNINGS : list str := [
  $"Always call 911 for serious emergencies";
  $"Do not provide care beyond your training level";
  $"Prioritize scene safety for yourself and others" ].

End FallbackFirstAidFacts.

Section FallbackFirstAidProperties.
Import PyStr Models FallbackService ParsedFacts FallbackFirstAidFacts.

(** X22. For every emergency type, the fallback steps are 3 or 4 steps
    numbered 1, 2, 3, ... in order, each with an instruction, a warning
    and a duration; a type without steps of its own (all but medical and
    accident) gets the default steps.  The critical warnings begin with
    the three common ones, followed by none or two of the type. *)
Theorem fallback_first_aid_is_complete :
  forall emergency_type : EmergencyType,
    let steps := get_fallback_first_aid emergency_type in
    (forall i s, steps !! i = Some s -> step_number s = (Z.of_nat i + 1)%Z)
    /\ forallb complete steps = true
    /\ 3 <= length steps <= 4
    /\ (emergency_type <> MEDICAL -> emergency_type <> ACCIDENT ->
        steps = DEFAULT_FIRST_AID)
    /\ exists specific,
        get_critical_warnings emergency_type = COMMON_WARNINGS ++ specific
        /\ (length specific = 0 \/ length specific = 2).
Proof.
  intros ty. cbv zeta.
  split; [apply fallback_numbered|].
  split; [destruct ty; vm_compute; reflexivity|].
  split; [destruct ty; vm_compute; split; lia|].
  split; [destruct ty; intros H1 H2; try reflexivity; congruence|].
  unfold get_critical_warnings. cbv zeta. fold COMMON_WARNINGS.
  eexists. split; [reflexivity|]. destruct ty; cbn; auto.
Qed.

End FallbackFirstAidProperties.
